(** * ImageToASCIIArt: the transform-and-render pipeline of [lib/process.go]

    A shallow embedding of the Go package [lib] (file [lib/process.go]) and
    the properties of its stages: options normalisation, entry validation,
    transparency compositing, glyph-grid sizing, run extraction, line
    splitting, canvas geometry and SVG synthesis; then of [formatNumber],
    of the entry points of the wasm module ([main.go]) and of the test the
    page makes on a colour text ([web/assets/js/app.js]).

    Conventions.
    - Go's [int] is 64 bits wide on the js/wasm target the program is built
      for.  Lengths of in-memory strings and slices are far below [2^59], so
      the length arithmetic of the renderer is written on [Z] without
      wrap-around.
    - [float64] is IEEE 754 binary64, modelled by the Standard Library's
      [spec_float] at precision 53 and maximal exponent 1024, with rounding to
      nearest, ties to even.
    - A Go [string] is a sequence of bytes: [string], one [ascii] per byte.
    - Functions of the packages the program imports ([image], [imaging],
      [image2ascii], [go-ansi-parser], [svgo]) whose source is not part of the
      repository are section variables. *)

From Stdlib Require Import ZArith List String Ascii Bool Lia Reals Lra DecimalString.
From Stdlib Require Import Floats.SpecFloat.
Import ListNotations.

Local Open Scope string_scope.
Local Open Scope list_scope.
Local Open Scope Z_scope.

(** ** IEEE 754 binary64 *)

Definition float64 : Type := spec_float.

Module F64.

Definition prec : Z := 53.
Definition emax : Z := 1024.

Definition mul : float64 -> float64 -> float64 := SFmul prec emax.
Definition div : float64 -> float64 -> float64 := SFdiv prec emax.
Definition add : float64 -> float64 -> float64 := SFadd prec emax.
Definition sub : float64 -> float64 -> float64 := SFsub prec emax.

(** Go's [==], [<] and [>] on floats: false as soon as one side is NaN. *)
Definition eqb : float64 -> float64 -> bool := SFeqb.
Definition ltb : float64 -> float64 -> bool := SFltb.
Definition gtb (x y : float64) : bool := SFltb y x.
Definition leb : float64 -> float64 -> bool := SFleb.

(** [float64(n)] for an integer [n]: the nearest float, ties to even. *)
Definition of_int (n : Z) : float64 := binary_normalize prec emax n 0 false.

Definition zero : float64 := S754_zero false.
Definition one : float64 := Eval cbv in of_int 1.

Definition IsNaN (x : float64) : bool :=
  match x with S754_nan => true | _ => false end.

(** [math.IsInf(x, sign)], used with [sign = 1] and [sign = -1]. *)
Definition IsInf (x : float64) (negative : bool) : bool :=
  match x with S754_infinity s => Bool.eqb s negative | _ => false end.

Definition Signbit (x : float64) : bool :=
  match x with
  | S754_zero s | S754_infinity s | S754_finite s _ _ => s
  | S754_nan => false
  end.

(** [math.Max] and [math.Min] of Go's standard library, special cases
    first, as in [math/dim.go]. *)
Definition Max (x y : float64) : float64 :=
  if IsInf x false || IsInf y false then S754_infinity false
  else if IsNaN x || IsNaN y then S754_nan
  else if eqb x zero && eqb x y then (if Signbit x then y else x)
  else if gtb x y then x else y.

Definition Min (x y : float64) : float64 :=
  if IsInf x true || IsInf y true then S754_infinity true
  else if IsNaN x || IsNaN y then S754_nan
  else if eqb x zero && eqb x y then (if Signbit x then x else y)
  else if ltb x y then x else y.

(** The integer part of a finite float, rounded toward zero. *)
Definition trunc (x : float64) : option Z :=
  match x with
  | S754_zero _ => Some 0
  | S754_finite s m e =>
      let k := Z.shiftl (Zpos m) e in Some (if s then - k else k)
  | S754_infinity _ | S754_nan => None
  end.

(** [math.Floor]: zeros, infinities and NaN are returned as they are. *)
Definition Floor (x : float64) : float64 :=
  match x with
  | S754_finite s m e =>
      if 0 <=? e then x
      else if s then of_int (- Z.shiftl (Zpos m + (2 ^ (- e) - 1)) e)
      else of_int (Z.shiftl (Zpos m) e)
  | _ => x
  end.

(** A conversion [T(f)] from float to an integer type [T] with values in
    [lo .. hi] truncates toward zero.  When the truncated value does not
    fit (or [f] is an infinity or NaN) Go leaves the result to the
    implementation: [undef f], brought into [lo .. hi], stands for that
    result. *)
Definition to_integer (undef : float64 -> Z) (lo hi : Z) (f : float64) : Z :=
  let other := lo + (undef f - lo) mod (hi - lo + 1) in
  match trunc f with
  | Some k => if (lo <=? k) && (k <=? hi) then k else other
  | None => other
  end.

Definition to_int (undef : float64 -> Z) : float64 -> Z :=
  to_integer undef (- 2 ^ 63) (2 ^ 63 - 1).
Definition to_uint32 (undef : float64 -> Z) : float64 -> Z :=
  to_integer undef 0 (2 ^ 32 - 1).
Definition to_uint8 (undef : float64 -> Z) : float64 -> Z :=
  to_integer undef 0 255.

(** The quotient of two integers on floats, to write values such as 0.5 and
    1.5. *)
Definition of_ratio (p q : Z) : float64 := div (of_int p) (of_int q).

End F64.

(** ** Constants and options ([process.go], lines 22-43) *)

Definition MaxImageSize : Z := 50 * 1024 * 1024.
Definition MaxOutputSize : Z := 10 * 1024 * 1024.
Definition MaxASCIIChars : Z := 5000000.
Definition MaxASCIIDimension : Z := 500.

Record Options : Type := mkOptions {
  TargetWidth : Z;
  Brightness : float64;
  Contrast : float64;
  Sharpen : float64;
  BackgroundColor : string;
  TransparencyColor : string;
  TransparencyThreshold : float64
}.

(** The errors of the package are values built by [fmt.Errorf]; each
    constructor stands for one call site and carries the numbers the message
    prints. *)
Inductive error : Type :=
| ErrImageDataEmpty                     (* "image data is empty" *)
| ErrImageDataTooLarge (size : Z)       (* "image data is too large: ..." *)
| ErrTargetWidthNotPositive             (* "target width must be positive" *)
| ErrDecodeFailed                       (* "failed to decode image: ..." *)
| ErrDecodedImageNil                    (* "decoded image is nil" *)
| ErrInvalidDimensions (w h : Z)        (* "invalid image dimensions: ..." *)
| ErrConversionFailed                   (* "failed to convert image to ASCII" *)
| ErrASCIITooLarge (n : Z)              (* "ASCII output is too large: ..." *)
| ErrASCIIStringEmpty                   (* "ASCII string is empty" *)
| ErrParseANSI                          (* "failed to parse ANSI string: ..." *)
| ErrStyledTextNilAfterParsing          (* "styled text is nil after parsing" *)
| ErrTooManyStyledElements (n : Z)      (* "too many styled text elements: ..." *)
| ErrStyledTextNil                      (* "styledText is nil" *)
| ErrOutputTooLarge (n : Z).            (* "output SVG is too large: ..." *)

(** [len] of a string and of a slice. *)
Definition len (s : string) : Z := Z.of_nat (String.length s).
Definition llen {A : Type} (l : list A) : Z := Z.of_nat (List.length l).

(** [validateInput], on the bytes of the image and the options. *)
Definition validateInput (imageData : list Byte.byte) (opts : Options) : option error :=
  if llen imageData =? 0 then Some ErrImageDataEmpty
  else if llen imageData >? MaxImageSize then Some (ErrImageDataTooLarge (llen imageData))
  else if TargetWidth opts <=? 0 then Some ErrTargetWidthNotPositive
  else None.

(** The method [setDefaults] of [Options]. *)
Definition setDefaults (o : Options) : Options :=
  let bg := if String.eqb (BackgroundColor o) "" then "#000000" else BackgroundColor o in
  let tc := if String.eqb (TransparencyColor o) "" then "#FFFFFF" else TransparencyColor o in
  mkOptions (TargetWidth o) (Brightness o) (Contrast o) (Sharpen o) bg tc
    (F64.Max F64.zero (F64.Min F64.one (TransparencyThreshold o))).

(** The clamp of the specification: [clamp(t, 0, 1)] is [0] below [0], [1]
    above [1] and [t] otherwise. *)
Definition clamp01 (t : float64) : float64 :=
  if F64.ltb t F64.zero then F64.zero
  else if F64.gtb t F64.one then F64.one
  else t.

(** ** Colours and images (packages [image] and [image/color]) *)

(** [color.RGBA]: 8 bits per channel, alpha-premultiplied. *)
Record RGBA8 : Type := mkRGBA8 { R : Z; G : Z; B : Z; A : Z }.

(** A [color.Color]: the two implementations the package builds itself, and
    any other implementation (a pixel of a decoded image), which is known by
    what its [RGBA] method returns: alpha-premultiplied channels on the
    16-bit scale. *)
Inductive Color : Type :=
| CRGBA (c : RGBA8)
| CGray16 (Y : Z)
| COther (r g b a : Z).

Definition uint8 (x : Z) : Z := x mod 256.

(** The method [RGBA] of a colour. *)
Definition Color_RGBA (c : Color) : Z * Z * Z * Z :=
  match c with
  | CRGBA c => (Z.lor (R c) (Z.shiftl (R c) 8), Z.lor (G c) (Z.shiftl (G c) 8),
                Z.lor (B c) (Z.shiftl (B c) 8), Z.lor (A c) (Z.shiftl (A c) 8))
  | CGray16 y => (y, y, y, 65535)
  | COther r g b a => (r, g, b, a)
  end.

(** [color.RGBAModel.Convert]. *)
Definition rgbaModel (c : Color) : RGBA8 :=
  match c with
  | CRGBA c => c
  | _ =>
      let '(r, g, b, a) := Color_RGBA c in
      mkRGBA8 (uint8 (Z.shiftr r 8)) (uint8 (Z.shiftr g 8))
              (uint8 (Z.shiftr b 8)) (uint8 (Z.shiftr a 8))
  end.

(** [color.White]. *)
Definition White : Color := CGray16 65535.

Record Rectangle : Type := mkRect { MinX : Z; MinY : Z; MaxX : Z; MaxY : Z }.

Definition Dx (r : Rectangle) : Z := MaxX r - MinX r.
Definition Dy (r : Rectangle) : Z := MaxY r - MinY r.

(** An [image.Image]: its bounds and its method [At]. *)
Record Image : Type := mkImage { Bounds : Rectangle; At : Z -> Z -> Color }.

(** An [*image.RGBA]: its rectangle and its pixel store.  [image.NewRGBA]
    gives a store of zeros; [Set] converts the colour by [color.RGBAModel] and
    does nothing outside the rectangle; [At] gives the zero colour there. *)
Record RGBAImage : Type := mkRGBAImage { Rect : Rectangle; Pix : Z -> Z -> RGBA8 }.

Definition inRect (x y : Z) (r : Rectangle) : bool :=
  (MinX r <=? x) && (x <? MaxX r) && (MinY r <=? y) && (y <? MaxY r).

Definition NewRGBA (r : Rectangle) : RGBAImage :=
  mkRGBAImage r (fun _ _ => mkRGBA8 0 0 0 0).

Definition RGBA_Set (p : RGBAImage) (x y : Z) (c : Color) : RGBAImage :=
  if inRect x y (Rect p) then
    mkRGBAImage (Rect p)
      (fun x' y' => if (x' =? x) && (y' =? y) then rgbaModel c else Pix p x' y')
  else p.

Definition RGBA_At (p : RGBAImage) (x y : Z) : RGBA8 :=
  if inRect x y (Rect p) then Pix p x y else mkRGBA8 0 0 0 0.

(** An [*image.RGBA] seen as an [image.Image]. *)
Definition asImage (p : RGBAImage) : Image :=
  mkImage (Rect p) (fun x y => CRGBA (RGBA_At p x y)).

(** ** Strings (packages [strings] and [strconv]) *)

Definition byteZ (c : ascii) : Z := Z.of_N (N_of_ascii c).

(** [strings.TrimPrefix]. *)
Definition TrimPrefix (s prefix : string) : string :=
  if String.prefix prefix s
  then substring (String.length prefix) (String.length s - String.length prefix) s
  else s.

(** The value of one digit in [strconv.ParseUint]: ['0'..'9'], then the
    letters after [lower(c) = c | 0x20], and a syntax error for any other
    byte or for a digit that is not below the base 16. *)
Definition hexDigit (c : ascii) : option Z :=
  let b := byteZ c in
  let d := if (48 <=? b) && (b <=? 57) then Some (b - 48)
           else let l := Z.lor b 32 in
                if (97 <=? l) && (l <=? 122) then Some (l - 97 + 10) else None in
  match d with
  | Some d => if d >=? 16 then None else Some d
  | None => None
  end.

(** The digits loop of [strconv.ParseUint(s, 16, 64)]: a range error beyond
    [2^64 - 1]. *)
Fixpoint parseUintDigits (acc : Z) (s : string) : option Z :=
  match s with
  | EmptyString => Some acc
  | String c rest =>
      match hexDigit c with
      | Some d =>
          let acc' := acc * 16 + d in
          if acc' >=? 2 ^ 64 then None else parseUintDigits acc' rest
      | None => None
      end
  end.

Definition ParseUint16 (s : string) : option Z :=
  match s with
  | EmptyString => None
  | _ => parseUintDigits 0 s
  end.

(** [strconv.ParseInt(s, 16, 64)]: an optional sign, then the unsigned
    number; [None] stands for a returned error. *)
Definition ParseInt16 (s : string) : option Z :=
  match s with
  | EmptyString => None
  | String c rest =>
      let neg := Ascii.eqb c "-" in
      let body := if Ascii.eqb c "+" || neg then rest else s in
      match ParseUint16 body with
      | Some un =>
          if negb neg && (un >=? 2 ^ 63) then None
          else if neg && (un >? 2 ^ 63) then None
          else Some (if neg then - un else un)
      | None => None
      end
  end.

(** The first [if] of [parseHexColor]: a string of three bytes is replaced
    by the six bytes that double each of them. *)
Definition expand3 (hex : string) : string :=
  match hex with
  | String h0 (String h1 (String h2 EmptyString)) =>
      String h0 (String h0 (String h1 (String h1 (String h2 (String h2 EmptyString)))))
  | _ => hex
  end.

(** [parseHexColor]; [None] is the nil colour. *)
Definition parseHexColor (hex : string) : option Color :=
  let hex := TrimPrefix hex "#" in
  let hex := expand3 hex in
  if negb (len hex =? 6) then None
  else
    match ParseInt16 (substring 0 2 hex), ParseInt16 (substring 2 2 hex),
          ParseInt16 (substring 4 2 hex) with
    | Some r, Some g, Some b => Some (CRGBA (mkRGBA8 (uint8 r) (uint8 g) (uint8 b) 255))
    | _, _, _ => None
    end.

(** ** Transparency compositing ([handleTransparency]) *)

Definition f65535 : float64 := Eval cbv in F64.of_int 65535.
Definition f255 : float64 := Eval cbv in F64.of_int 255.

(** The integers [lo], [lo + 1], ..., [hi - 1] of a [for] loop. *)
Definition range (lo hi : Z) : list Z :=
  map (fun i => lo + Z.of_nat i) (seq 0 (Z.to_nat (hi - lo))).

Section Transparency.

(** The result of an out-of-range conversion from float to integer. *)
Variable undef : float64 -> Z.

(** [tColor]: the parsed colour, or white when [parseHexColor] gives nil. *)
Definition substituteColor (transparencyColorStr : string) : Color :=
  match parseHexColor transparencyColorStr with
  | Some c => c
  | None => White
  end.

Definition alphaThresholdOf (threshold : float64) : Z :=
  F64.to_uint32 undef (F64.Floor (F64.mul threshold f65535)).

(** [blendR], [blendG], [blendB]: one channel [c] of the pixel against the
    channel [tc] of the substitute. *)
Definition blend (c tc : Z) (alphaFactor : float64) : float64 :=
  F64.add (F64.mul (F64.div (F64.of_int c) f65535) alphaFactor)
          (F64.mul (F64.div (F64.of_int tc) f65535) (F64.sub F64.one alphaFactor)).

Definition blendChannel (c tc a : Z) : Z :=
  F64.to_uint8 undef (F64.mul (blend c tc (F64.div (F64.of_int a) f65535)) f255).

(** The body of the two loops: the colour handed to [result.Set]. *)
Definition compositeColor (tColor : Color) (alphaThreshold : Z)
           (originalColor : Color) : Color :=
  let '(r, g, b, a) := Color_RGBA originalColor in
  if a <? alphaThreshold then tColor
  else if a <? 65535 then
    let '(tr, tg, tb, _) := Color_RGBA tColor in
    CRGBA (mkRGBA8 (blendChannel r tr a) (blendChannel g tg a) (blendChannel b tb a) 255)
  else originalColor.

Definition handleTransparency (img : Image) (transparencyColorStr : string)
           (threshold : float64) : RGBAImage :=
  let tColor := substituteColor transparencyColorStr in
  let bounds := Bounds img in
  let alphaThreshold := alphaThresholdOf threshold in
  fold_left
    (fun result y =>
       fold_left
         (fun result x =>
            RGBA_Set result x y (compositeColor tColor alphaThreshold (At img x y)))
         (range (MinX bounds) (MaxX bounds)) result)
    (range (MinY bounds) (MaxY bounds)) (NewRGBA bounds).

End Transparency.

(** ** Styled text (package [go-ansi-parser]) and SVG calls (package [svgo]) *)

Record Col : Type := mkCol { Id : Z; Hex : string; Rgb : Z * Z * Z; Name : string }.

(** [ansi.StyledText]; the two colours are pointers and may be nil. *)
Record StyledText : Type := mkStyledText {
  Label : string;
  FgCol : option Col;
  BgCol : option Col;
  Style : Z;
  ColourMode : Z;
  Offset : Z;
  Len : Z
}.

(** A slice: [None] is the nil slice, [Some []] an empty slice that is not
    nil. *)
Definition slice (A : Type) : Type := option (list A).

(** A call of a drawing method of the canvas [*svg.SVG]; each call prints
    text to the writer of the canvas. *)
Inductive SvgCall : Type :=
| SvgStart (w h : Z)
| SvgRect (x y w h : Z) (style : string)
| SvgText (x y : Z) (t : string) (style : string)
| SvgEnd.

(** ** The glyph grid ([convertToASCII], lines 161-177) *)

Definition f500 : float64 := Eval cbv in F64.of_int MaxASCIIDimension.

Section GlyphGrid.

Variable undef : float64 -> Z.

(** [options.FixedHeight] before the cap: the truncated product, at least 1. *)
Definition initialFixedHeight (bounds : Rectangle) (targetWidth : Z) : Z :=
  let aspectRatio := F64.div (F64.of_int (Dy bounds)) (F64.of_int (Dx bounds)) in
  let FixedHeight := F64.to_int undef (F64.mul (F64.of_int targetWidth) aspectRatio) in
  if FixedHeight <? 1 then 1 else FixedHeight.

(** The first cap: on the width. *)
Definition capWidth (wh : Z * Z) : Z * Z :=
  let '(FixedWidth, FixedHeight) := wh in
  if FixedWidth >? MaxASCIIDimension then
    let scale := F64.div f500 (F64.of_int FixedWidth) in
    (MaxASCIIDimension, F64.to_int undef (F64.mul (F64.of_int FixedHeight) scale))
  else wh.

(** The second cap: on the height. *)
Definition capHeight (wh : Z * Z) : Z * Z :=
  let '(FixedWidth, FixedHeight) := wh in
  if FixedHeight >? MaxASCIIDimension then
    let scale := F64.div f500 (F64.of_int FixedHeight) in
    (F64.to_int undef (F64.mul (F64.of_int FixedWidth) scale), MaxASCIIDimension)
  else wh.

(** [(options.FixedWidth, options.FixedHeight)] as handed to the converter. *)
Definition asciiDimensions (bounds : Rectangle) (targetWidth : Z) : Z * Z :=
  capHeight (capWidth (targetWidth, initialFixedHeight bounds targetWidth)).

End GlyphGrid.

(** ** Lines of runs ([splitStyledTextByLine]) *)

Definition newline : ascii := "010"%char.

(** [strings.Split(s, "\n")]: the parts between the newlines of [s], one more
    than there are newlines. *)
Fixpoint SplitLines (s : string) : list string :=
  match s with
  | EmptyString => [EmptyString]
  | String c rest =>
      if Ascii.eqb c newline then EmptyString :: SplitLines rest
      else match SplitLines rest with
           | part :: parts => String c part :: parts
           | [] => [String c EmptyString]
           end
  end.

(** The first statement of the inner loop: a part that is not empty is
    appended to [currentLine] as a new block with the colours and the style
    of [block]. *)
Definition addPart (block : StyledText) (currentLine : list StyledText) (part : string)
  : list StyledText :=
  if String.eqb part "" then currentLine
  else currentLine ++ [mkStyledText part (FgCol block) (BgCol block) (Style block) 0 0 0].

(** The inner loop, over the parts of one block: [st] is the pair of
    [lines] and [currentLine]; a part that is not the last one closes the
    line. *)
Fixpoint splitParts (block : StyledText) (parts : list string)
         (st : list (list StyledText) * list StyledText)
  : list (list StyledText) * list StyledText :=
  match parts with
  | [] => st
  | part :: rest =>
      let '(lines, currentLine) := st in
      let currentLine := addPart block currentLine part in
      match rest with
      | [] => (lines, currentLine)
      | _ :: _ => splitParts block rest (lines ++ [currentLine], [])
      end
  end.

(** The outer loop, over the blocks; a nil block is skipped. *)
Definition splitBlock (st : list (list StyledText) * list StyledText)
           (block : option StyledText) : list (list StyledText) * list StyledText :=
  match block with
  | None => st
  | Some block => splitParts block (SplitLines (Label block)) st
  end.

Definition splitStyledTextByLine (styledText : list (option StyledText))
  : list (list StyledText) :=
  let '(lines, currentLine) := fold_left splitBlock styledText ([], []) in
  if llen currentLine >? 0 then lines ++ [currentLine] else lines.

(** ** Canvas geometry ([calculateSVGDimensions]) *)

Definition lineHeight : Z := 16.
Definition charWidth : Z := 16.
Definition fontSize : Z := 16.
Definition paddingTop : Z := -2.
Definition paddingBottom : Z := 2.
Definition paddingLeft : Z := 1.
Definition paddingRight : Z := -6.

Definition lineLength (line : list StyledText) : Z :=
  fold_left (fun currentLineLength styledChar => currentLineLength + len (Label styledChar))
            line 0.

Definition maxLineLengthOf (lines : list (list StyledText)) : Z :=
  fold_left (fun maxLineLength line =>
               if lineLength line >? maxLineLength then lineLength line else maxLineLength)
            lines 0.

Definition calculateSVGDimensions (lines : list (list StyledText)) : Z * Z :=
  let maxLineLength := maxLineLengthOf lines in
  let width := (maxLineLength * charWidth) + paddingLeft + paddingRight in
  let height := (llen lines * lineHeight) + paddingTop + paddingBottom in
  let width := if width <=? 0 then charWidth + paddingLeft + paddingRight else width in
  let height := if height <=? 0 then lineHeight + paddingTop + paddingBottom else height in
  (width, height).

(** ** Rendering of one line ([renderLine]) *)

(** The style of a text element; [%d] of [fontSize] prints [16]. *)
Definition textStyle (textColor : string) : string :=
  ("fill:" ++ textColor
    ++ "; font-family:monospace; font-size:16px; dominant-baseline:text-before-edge")%string.

Definition textColorOf (styledChar : StyledText) : string :=
  match FgCol styledChar with
  | Some col => if String.eqb (Hex col) "" then "#FFFFFF" else Hex col
  | None => "#FFFFFF"
  end.

(** One turn of the loop of [renderLine]: the calls made on the canvas so
    far and [currentX]. *)
Definition renderRun (yPos : Z) (st : list SvgCall * Z) (styledChar : StyledText)
  : list SvgCall * Z :=
  let '(calls, currentX) := st in
  if String.eqb (Label styledChar) "" then st
  else if String.eqb (Label styledChar) " " then (calls, currentX + charWidth)
  else (calls ++ [SvgText currentX yPos (Label styledChar) (textStyle (textColorOf styledChar))],
        currentX + len (Label styledChar) * charWidth).

Definition renderLine (line : list StyledText) (yPos startX : Z) : list SvgCall :=
  fst (fold_left (renderRun yPos) line ([], startX)).

(** The loop of [renderToSVG] over the lines: the calls made and [yPos]. *)
Definition renderLines (lines : list (list StyledText)) : list SvgCall * Z :=
  fold_left (fun st line =>
               let '(calls, yPos) := st in
               (calls ++ renderLine line yPos paddingLeft, yPos + lineHeight))
            lines ([], paddingTop).

(** The calls [renderToSVG] makes on the canvas, in order. *)
Definition svgCalls (styledText : list (option StyledText)) (backgroundColor : string)
  : list SvgCall :=
  let lines := splitStyledTextByLine styledText in
  let '(svgWidth, svgHeight) := calculateSVGDimensions lines in
  [SvgStart svgWidth svgHeight;
   SvgRect 0 0 svgWidth svgHeight ("fill:" ++ backgroundColor)%string]
  ++ fst (renderLines lines) ++ [SvgEnd].

(** ** The pipeline and its effects *)

(** What a run does that can be observed besides its result: the calls into
    the imported packages, the lines printed by [fmt.Printf] and the messages
    sent to the console of the host. *)
Inductive Event : Type :=
| CallDecode
| PrintDecoded (format : string)
| PrintOriginalDimensions (w h : Z)
| PrintResizing (w h : Z) (scale : float64)
| CallResize (w h : Z)
| CallAdjustBrightness
| CallAdjustContrast
| CallSharpen
| PrintASCIIDimensions (w h fixedWidth fixedHeight : Z) (aspectRatio : float64)
| CallImage2ASCIIString (fixedWidth fixedHeight : Z)
| ConsoleWarnVeryLargeASCII (n : Z)
| ConsoleLogLargeASCII (n : Z)
| CallParse
| ConsoleWarnManyStyledElements (n : Z)
| PrintSVGDimensions (w h nlines maxLineLength : Z).

(** The state shared by the runs of one process: the buffers resting in
    [bufferPool], each with the bytes its last user left in it, and the
    events so far. *)
Record World : Type := mkWorld { bufferPool : list string; events : list Event }.

(** A computation that may return early with an error. *)
Definition M (A : Type) : Type := World -> (error + A) * World.

Definition ret {A : Type} (a : A) : M A := fun w => (inr a, w).
Definition fail {A : Type} (e : error) : M A := fun w => (inl e, w).
Definition bind {A B : Type} (c : M A) (k : A -> M B) : M B :=
  fun w => match c w with
           | (inl e, w') => (inl e, w')
           | (inr a, w') => k a w'
           end.
Definition emit (e : Event) : M unit :=
  fun w => (inr tt, mkWorld (bufferPool w) (events w ++ [e])).

(** [bufferPool.Get()]: a buffer of the pool, or a new empty one from [New]
    when the pool has none. *)
Definition poolGet : M string :=
  fun w => match bufferPool w with
           | b :: rest => (inr b, mkWorld rest (events w))
           | [] => (inr EmptyString, w)
           end.
Definition poolPut (b : string) : M unit :=
  fun w => (inr tt, mkWorld (b :: bufferPool w) (events w)).

Notation "x <- c ;; k" := (bind c (fun x => k))
  (at level 61, c at next level, right associativity).
Notation "c ;;; k" := (bind c (fun _ => k))
  (at level 61, right associativity).

Definition f1024 : float64 := Eval cbv in F64.of_int 1024.

Section Pipeline.

Variable undef : float64 -> Z.

(** [image.Decode]: [None] for an error, else the image (nil or not) and
    the name of its format. *)
Variable Decode : list Byte.byte -> option (option Image * string).

(** [imaging.Resize] with the Lanczos filter, [imaging.AdjustBrightness],
    [imaging.AdjustContrast] and [imaging.Sharpen]. *)
Variable Resize : Image -> Z -> Z -> Image.
Variable AdjustBrightness AdjustContrast SharpenImage : Image -> float64 -> Image.

(** [Image2ASCIIString] of a new converter, with the default options but
    [Colored] set, [StretchedScreen] unset and the two fixed dimensions. *)
Variable Image2ASCIIString : Image -> Z -> Z -> string.

(** [ansi.Parse]: [None] for an error, else the slice of blocks. *)
Variable Parse : string -> option (slice (option StyledText)).

(** What each call on the canvas prints to its writer. *)
Variable svgo : SvgCall -> string.

Definition decodeImage (imageData : list Byte.byte) : M (Image * string) :=
  emit CallDecode ;;;
  match Decode imageData with
  | None => fail ErrDecodeFailed
  | Some (None, _) => fail ErrDecodedImageNil
  | Some (Some img, format) =>
      let bounds := Bounds img in
      if (Dx bounds <=? 0) || (Dy bounds <=? 0)
      then fail (ErrInvalidDimensions (Dx bounds) (Dy bounds))
      else ret (img, format)
  end.

Definition when (b : bool) (c : Image -> M Image) (img : Image) : M Image :=
  if b then c img else ret img.

Definition processImage (img : Image) (opts : Options) : M Image :=
  let bounds := Bounds img in
  let originalWidth := Dx bounds in
  let originalHeight := Dy bounds in
  emit (PrintOriginalDimensions originalWidth originalHeight) ;;;
  img <- when ((originalWidth >? 1024) || (originalHeight >? 1024))
           (fun img =>
              let scale := F64.div f1024 (F64.of_int (Z.max originalWidth originalHeight)) in
              let newWidth := F64.to_int undef (F64.mul (F64.of_int originalWidth) scale) in
              let newHeight := F64.to_int undef (F64.mul (F64.of_int originalHeight) scale) in
              let newWidth := if newWidth <? 1 then 1 else newWidth in
              let newHeight := if newHeight <? 1 then 1 else newHeight in
              emit (PrintResizing newWidth newHeight scale) ;;;
              emit (CallResize newWidth newHeight) ;;;
              ret (Resize img newWidth newHeight)) img ;;
  img <- when (negb (F64.eqb (Brightness opts) F64.zero))
           (fun img => emit CallAdjustBrightness ;;;
                       ret (AdjustBrightness img (Brightness opts))) img ;;
  img <- when (negb (F64.eqb (Contrast opts) F64.zero))
           (fun img => emit CallAdjustContrast ;;;
                       ret (AdjustContrast img (Contrast opts))) img ;;
  img <- when (negb (F64.eqb (Sharpen opts) F64.zero))
           (fun img => emit CallSharpen ;;;
                       ret (SharpenImage img (Sharpen opts))) img ;;
  ret (asImage (handleTransparency undef img (TransparencyColor opts)
                                   (TransparencyThreshold opts))).

Definition convertToASCII (img : Image) (targetWidth : Z) : M string :=
  let bounds := Bounds img in
  let aspectRatio := F64.div (F64.of_int (Dy bounds)) (F64.of_int (Dx bounds)) in
  let '(FixedWidth, FixedHeight) := asciiDimensions undef bounds targetWidth in
  emit (PrintASCIIDimensions (Dx bounds) (Dy bounds) FixedWidth FixedHeight aspectRatio) ;;;
  emit (CallImage2ASCIIString FixedWidth FixedHeight) ;;;
  let asciiString := Image2ASCIIString img FixedWidth FixedHeight in
  if String.eqb asciiString "" then fail ErrConversionFailed
  else if len asciiString >? MaxASCIIChars then fail (ErrASCIITooLarge (len asciiString))
  else
    (if len asciiString >? 3000000 then emit (ConsoleWarnVeryLargeASCII (len asciiString))
     else if len asciiString >? 1000000 then emit (ConsoleLogLargeASCII (len asciiString))
     else ret tt) ;;;
    ret asciiString.

Definition maxStyledElements : Z := 100000.

Definition parseANSI (asciiString : string) : M (slice (option StyledText)) :=
  if String.eqb asciiString "" then fail ErrASCIIStringEmpty
  else
    emit CallParse ;;;
    match Parse asciiString with
    | None => fail ErrParseANSI
    | Some None => fail ErrStyledTextNilAfterParsing
    | Some (Some styledText) =>
        if llen styledText >? maxStyledElements
        then fail (ErrTooManyStyledElements (llen styledText))
        else
          (if llen styledText >? 30000
           then emit (ConsoleWarnManyStyledElements (llen styledText))
           else ret tt) ;;;
          ret (Some styledText)
    end.

(** [buffer.Reset()]. *)
Definition Reset (buffer : string) : string := EmptyString.

(** The buffer after the canvas has written a sequence of calls to it. *)
Definition written (buffer : string) (calls : list SvgCall) : string :=
  fold_left (fun buffer call => (buffer ++ svgo call)%string) calls buffer.

Definition renderToSVG (styledText : slice (option StyledText))
           (backgroundColor : string) : M string :=
  match styledText with
  | None => fail ErrStyledTextNil
  | Some styledText =>
      buffer <- poolGet ;;
      let buffer := Reset buffer in
      let lines := splitStyledTextByLine styledText in
      let '(svgWidth, svgHeight) := calculateSVGDimensions lines in
      emit (PrintSVGDimensions svgWidth svgHeight (llen lines) (maxLineLengthOf lines)) ;;;
      let buffer := written buffer (svgCalls styledText backgroundColor) in
      (* the deferred bufferPool.Put(buffer) runs when the function returns *)
      poolPut buffer ;;;
      ret buffer
  end.

Definition ProcessImageToSVG (imageData : list Byte.byte) (opts : Options) : M string :=
  match validateInput imageData opts with
  | Some err => fail err
  | None =>
      let opts := setDefaults opts in
      decoded <- decodeImage imageData ;;
      let '(img, format) := decoded in
      emit (PrintDecoded format) ;;;
      processedImg <- processImage img opts ;;
      asciiString <- convertToASCII processedImg (TargetWidth opts) ;;
      styledText <- parseANSI asciiString ;;
      svgString <- renderToSVG styledText (BackgroundColor opts) ;;
      if len svgString >? MaxOutputSize then fail (ErrOutputTooLarge (len svgString))
      else ret svgString
  end.

End Pipeline.

(** ** Numbers in messages ([formatNumber]) *)

(** [strconv.Itoa]: the decimal digits of [n], after a minus sign when [n]
    is negative. *)
Definition Itoa (n : Z) : string := NilZero.string_of_int (Z.to_int n).

(** [in[i]] on a string and [out[j] = c] on a byte slice; [None] is the
    run-time panic of an index out of range. *)
Definition byteAt (s : string) (i : Z) : option ascii :=
  if i <? 0 then None else String.get (Z.to_nat i) s.

Definition setByte (out : list ascii) (j : Z) (c : ascii) : option (list ascii) :=
  if (0 <=? j) && (j <? llen out)
  then Some (firstn (Z.to_nat j) out ++ c :: skipn (S (Z.to_nat j)) out)
  else None.

(** The loop of [formatNumber], from the turn that reads [in[i]]: [i] goes
    down to 0, where the loop returns. *)
Fixpoint formatLoop (in_ : string) (i : nat) (j k : Z) (out : list ascii)
  : option (list ascii) :=
  match byteAt in_ (Z.of_nat i) with
  | None => None
  | Some c =>
      match setByte out j c with
      | None => None
      | Some out =>
          match i with
          | O => Some out
          | S i' =>
              let k := k + 1 in
              if k =? 3 then
                let j := j - 1 in
                match setByte out j "," with
                | Some out => formatLoop in_ i' (j - 1) 0 out
                | None => None
                end
              else formatLoop in_ i' (j - 1) k out
          end
      end
  end.

(** [n] is the value of the [int]; the function reads it through
    [strconv.Itoa] and the test [n < 0] only, and does no arithmetic on it. *)
Definition formatNumber (n : Z) : option string :=
  let in_ := Itoa n in
  let in_ := if n <? 0 then substring 1 (String.length in_ - 1) in_ else in_ in
  let numOfCommas := Z.quot (len in_ - 1) 3 in
  let out := repeat zero (Z.to_nat (len in_ + numOfCommas)) in
  if len in_ - 1 <? 0 then None
  else
    match formatLoop in_ (Z.to_nat (len in_ - 1)) (llen out - 1) 0 out with
    | Some out =>
        Some (if n <? 0 then String "-" (string_of_list_ascii out)
              else string_of_list_ascii out)
    | None => None
    end.

(** ** The entry points of the wasm module ([main.go]) *)

Module Main.

(** A call either returns or panics. *)
Inductive outcome (A : Type) : Type :=
| Panic
| Returned (a : A).

Arguments Panic {A}.
Arguments Returned {A} a.

(** The errors of [main.go]: one constructor for each call of [fmt.Errorf],
    the last one wrapping an error of the library. *)
Inductive entryError : Type :=
| ErrArgumentCount (n : Z)           (* "expected 8 arguments, but got %d" *)
| ErrImageDataNull                   (* "imageData is null or undefined" *)
| ErrNoLengthProperty                (* "imageData has no length property" *)
| ErrInvalidLength (length : Z)      (* "imageData length is invalid: %d" *)
| ErrProcessing (err : error).       (* "error processing image: %w" *)

(** The two messages [processImage] logs on the console. *)
Inductive ConsoleCall : Type :=
| LogProcessing (opts : Options)
| LogProcessed.

Section Entry.

(** [js.Value] and the methods of it the program calls.  [Get] panics on a
    value that is not an object, [Int] and [Float] on a value that is not a
    number; [None] stands for the panic.  [bytesOf] gives the bytes of a
    [Uint8Array] or [Uint8ClampedArray], and [None] for any other value. *)
Variable Value : Type.
Variables IsNull IsUndefined : Value -> bool.
Variable Get : Value -> string -> option Value.
Variable Int : Value -> option Z.
Variable Float : Value -> option float64.
Variable ValueString : Value -> string.
Variable bytesOf : Value -> option (list Byte.byte).

(** The largest size [make] allocates; beyond it, it panics. *)
Variable maxAlloc : Z.

(** [js.CopyBytesToGo]: the first bytes of [dst] become the bytes of [src],
    as many as both have; it panics when [src] is no byte array. *)
Definition CopyBytesToGo (dst : list Byte.byte) (src : Value)
  : option (list Byte.byte * Z) :=
  match bytesOf src with
  | Some bytes =>
      let n := Nat.min (List.length dst) (List.length bytes) in
      Some (firstn n bytes ++ skipn n dst, Z.of_nat n)
  | None => None
  end.

Definition validateImageParams (args : list Value)
  : outcome (entryError + list Byte.byte * Options) :=
  match args with
  | [imageDataJS; a1; a2; a3; a4; a5; a6; a7] =>
      if IsNull imageDataJS || IsUndefined imageDataJS then Returned (inl ErrImageDataNull)
      else
        match Get imageDataJS "length" with
        | None => Panic
        | Some imageDataLength =>
            if IsNull imageDataLength || IsUndefined imageDataLength
            then Returned (inl ErrNoLengthProperty)
            else
              match Int imageDataLength with
              | None => Panic
              | Some length =>
                  if length <=? 0 then Returned (inl (ErrInvalidLength length))
                  else if length >? maxAlloc then Panic
                  else
                    let imageDataGo := repeat Byte.x00 (Z.to_nat length) in
                    match CopyBytesToGo imageDataGo imageDataJS with
                    | None => Panic
                    | Some (imageDataGo, _) =>
                        match Int a1, Float a2, Float a3, Float a4, Float a7 with
                        | Some TargetWidth, Some Brightness, Some Contrast, Some Sharpen,
                          Some TransparencyThreshold =>
                            Returned
                              (inr (imageDataGo,
                                    mkOptions TargetWidth Brightness Contrast Sharpen
                                              (ValueString a5) (ValueString a6)
                                              TransparencyThreshold))
                        | _, _, _, _, _ => Panic
                        end
                    end
              end
        end
  | _ => Returned (inl (ErrArgumentCount (llen args)))
  end.

Variable undef : float64 -> Z.
Variable Decode : list Byte.byte -> option (option Image * string).
Variable Resize : Image -> Z -> Z -> Image.
Variables AdjustBrightness AdjustContrast SharpenImage : Image -> float64 -> Image.
Variable Image2ASCIIString : Image -> Z -> Z -> string.
Variable Parse : string -> option (slice (option StyledText)).
Variable svgo : SvgCall -> string.

(** [processImage] of [main.go]: the state is the world of the library and
    the messages logged by this function. *)
Definition processImage (imageDataGo : list Byte.byte) (opts : Options)
           (w : World) (console : list ConsoleCall)
  : (entryError + string) * World * list ConsoleCall :=
  let console := console ++ [LogProcessing opts] in
  match ProcessImageToSVG undef Decode Resize AdjustBrightness AdjustContrast SharpenImage
                          Image2ASCIIString Parse svgo imageDataGo opts w with
  | (inl err, w) => (inl (ErrProcessing err), w, console)
  | (inr svgString, w) => (inr svgString, w, console ++ [LogProcessed])
  end.

End Entry.

End Main.

(** ** Vocabulary of the specification *)

(** A hexadecimal digit and a sign, as bytes. *)
Definition isHexDigit (c : ascii) : bool :=
  let b := byteZ c in
  ((48 <=? b) && (b <=? 57)) || ((97 <=? b) && (b <=? 102)) || ((65 <=? b) && (b <=? 70)).

Definition isSign (c : ascii) : bool := Ascii.eqb c "+" || Ascii.eqb c "-".


Fixpoint allChars (p : ascii -> bool) (s : string) : bool :=
  match s with
  | EmptyString => true
  | String c rest => p c && allChars p rest
  end.

(** The value of a hexadecimal digit. *)
Definition hexValue (c : ascii) : Z :=
  let b := byteZ c in
  if b <=? 57 then b - 48 else if b <=? 70 then b - 55 else b - 87.

(** The channels of a colour are in range: 8 bits for [color.RGBA], 16 bits
    for what a method [RGBA] returns. *)
Definition inByte (v : Z) : bool := (0 <=? v) && (v <=? 255).
Definition in16 (v : Z) : bool := (0 <=? v) && (v <=? 65535).

Definition wfColor (c : Color) : bool :=
  match c with
  | CRGBA c => inByte (R c) && inByte (G c) && inByte (B c) && inByte (A c)
  | CGray16 y => in16 y
  | COther r g b a => in16 r && in16 g && in16 b && in16 a
  end.

(** A blank run: one or more spaces and nothing else. *)
Definition spaceOnly (s : string) : bool :=
  negb (String.eqb s "") && allChars (fun c => Ascii.eqb c " ") s.

(** The character count of a line: the sum over its runs. *)
Definition charCount (line : list StyledText) : Z :=
  fold_right (fun run n => len (Label run) + n) 0 line.

Definition maximum (l : list Z) : Z := fold_right Z.max 0 l.

(** A run that is drawn: its label is neither empty nor one space. *)
Definition drawn (run : StyledText) : bool :=
  negb (String.eqb (Label run) "") && negb (String.eqb (Label run) " ").

(** The text elements of a line whose first run starts at [x]: one for each
    drawn run, placed after the characters of all the runs before it. *)
Fixpoint lineTexts (yPos x : Z) (line : list StyledText) : list SvgCall :=
  match line with
  | [] => []
  | run :: rest =>
      (if drawn run
       then [SvgText x yPos (Label run) (textStyle (textColorOf run))] else [])
      ++ lineTexts yPos (x + len (Label run) * charWidth) rest
  end.

(** The text elements of the lines, the first line at [yPos] and each next
    one [lineHeight] lower. *)
Fixpoint linesTexts (yPos : Z) (lines : list (list StyledText)) : list SvgCall :=
  match lines with
  | [] => []
  | line :: rest => lineTexts yPos paddingLeft line ++ linesTexts (yPos + lineHeight) rest
  end.

(** The text of a sequence of blocks (nil blocks have none) and of a line. *)
Definition blocksText (styledText : list (option StyledText)) : string :=
  fold_right (fun block s => match block with
                             | Some b => (Label b ++ s)%string
                             | None => s
                             end) EmptyString styledText.

Definition lineText (line : list StyledText) : string :=
  fold_right (fun run s => (Label run ++ s)%string) EmptyString line.

(** The parts of a text without the last one when that one is empty. *)
Fixpoint withoutEmptyLast (parts : list string) : list string :=
  match parts with
  | [] => []
  | [p] => if String.eqb p "" then [] else [p]
  | p :: rest => p :: withoutEmptyLast rest
  end.

Fixpoint hasNewline (s : string) : bool :=
  match s with
  | EmptyString => false
  | String c rest => Ascii.eqb c newline || hasNewline rest
  end.

(** The parts put together again, with a newline between two parts. *)
Fixpoint joinLines (parts : list string) : string :=
  match parts with
  | [] => EmptyString
  | p :: rest =>
      match rest with
      | [] => p
      | _ :: _ => (p ++ String newline (joinLines rest))%string
      end
  end.

(** The text of finished lines, each closed by a newline, before [tail]. *)
Definition linesText (lines : list (list StyledText)) (tail : string) : string :=
  fold_right (fun line s => (lineText line ++ String newline s)%string) tail lines.

(** The text a state of the scan stands for: its lines, then the pending
    line. *)
Definition scannedText (st : list (list StyledText) * list StyledText) : string :=
  linesText (fst st) (lineText (snd st)).

(** A fragment of a block: a label of its own, neither empty nor holding a
    newline, with the colours and style of the block. *)
Definition fragmentOf (styledText : list (option StyledText)) (run : StyledText) : Prop :=
  Label run <> EmptyString /\ hasNewline (Label run) = false
  /\ exists block, In (Some block) styledText
       /\ FgCol run = FgCol block /\ BgCol run = BgCol block /\ Style run = Style block.

(** A computation whose result and events are the same in every world. *)
Definition worldIndependent {A : Type} (c : M A) : Prop :=
  exists r evs, forall w, fst (c w) = r /\ events (snd (c w)) = (events w ++ evs)%list.

(** The height the specification asks for: [targetWidth * h / w] rounded to
    the nearest integer (a half goes up), and at least 1. *)
Definition specTargetHeight (w h targetWidth : Z) : Z :=
  Z.max 1 ((2 * targetWidth * h + w) / (2 * w)).

(** The cap the specification asks for: when one dimension is over 500, both
    are scaled by the ratio that brings the larger one to 500. *)
Definition specCapped (wh : Z * Z) : Z * Z :=
  let '(w, h) := wh in
  let larger := Z.max w h in
  if larger >? 500 then (w * 500 / larger, h * 500 / larger) else wh.

(** The real value of a mantissa and an exponent, and of a float; the
    relative error [eps] of one rounding and the smallest spacing [eta]. *)
Definition bpow (e : Z) : Rdefinitions.R := powerRZ 2 e.
Definition val (m e : Z) : Rdefinitions.R := (IZR m * bpow e)%R.
Definition eps : Rdefinitions.R := bpow (-52).
Definition eta : Rdefinitions.R := bpow (-1074).

Definition F2R (x : spec_float) : Rdefinitions.R :=
  match x with
  | S754_finite s m e => if s then (- val (Zpos m) e)%R else val (Zpos m) e
  | _ => 0%R
  end.

(** A float that is a positive zero or a positive finite number. *)
Definition is_nonneg (x : spec_float) : bool :=
  match x with
  | S754_zero false | S754_finite false _ _ => true
  | _ => false
  end.

(** What [binary_round_aux] returns for the mantissa [m2] and exponent [e2]
    it ends with. *)
Definition result_of (m2 e2 : Z) : spec_float :=
  match m2 with
  | Z0 => S754_zero false
  | Zpos p => if e2 <=? F64.emax - F64.prec then S754_finite false p e2
              else S754_infinity false
  | Zneg _ => S754_nan
  end.

(** ** Example images *)

(** One pixel, red 4660 (hexadecimal 1234) on the 16-bit scale, at half
    opacity and at full opacity. *)
Definition halfOpaqueImage : Image :=
  mkImage (mkRect 0 0 1 1) (fun _ _ => COther 4660 0 0 32768).


(** ** The colour text boxes of the page ([web/assets/js/app.js]) *)

(** The test of the colour text boxes in [web/assets/js/app.js]: the regular
    expression [^#([A-Fa-f0-9]{6}|[A-Fa-f0-9]{3})$]. *)
Definition hexClass (c : ascii) : bool :=
  let b := byteZ c in
  ((65 <=? b) && (b <=? 70)) || ((97 <=? b) && (b <=? 102)) || ((48 <=? b) && (b <=? 57)).

Definition colorTextAccepted (s : string) : bool :=
  match s with
  | String "#" rest => allChars hexClass rest && ((len rest =? 6) || (len rest =? 3))
  | _ => false
  end.

(** ** Vocabulary of the further properties *)

(** A comma and a decimal digit, as bytes. *)
Definition isComma (c : ascii) : bool := Ascii.eqb c ",".
Definition isDigit (c : ascii) : bool := (48 <=? byteZ c) && (byteZ c <=? 57).

(** The bytes the loop of [formatNumber] writes, the last byte of the
    result first, for the digits [r] given last digit first and [k] digits
    written since the last comma. *)
Fixpoint groupRev (k : Z) (r : list ascii) : list ascii :=
  match r with
  | [] => []
  | d :: r' =>
      match r' with
      | [] => [d]
      | _ :: _ => if k + 1 =? 3 then d :: ","%char :: groupRev 0 r' else d :: groupRev (k + 1) r'
      end
  end.

(** [-n] on an [int]: the type is 64 bits wide and the negation wraps
    around, so the least [int] is its own negation. *)
Definition negInt (n : Z) : Z := (- n + 2 ^ 63) mod 2 ^ 64 - 2 ^ 63.

(** A string without its commas. *)
Definition withoutCommas (s : string) : string :=
  string_of_list_ascii (filter (fun c => negb (isComma c)) (list_ascii_of_string s)).

(** [strings.ToUpper] on the bytes of ASCII: a lower-case letter becomes the
    upper-case one, any other byte stays. *)
Definition upper (c : ascii) : ascii :=
  let b := byteZ c in
  if (97 <=? b) && (b <=? 122) then ascii_of_N (Z.to_N (b - 32)) else c.

Fixpoint ToUpper (s : string) : string :=
  match s with
  | EmptyString => EmptyString
  | String c rest => String (upper c) (ToUpper rest)
  end.

(** Two bytes that [strconv.ParseInt] reads in base 16: two digits, or a
    sign and a digit; and the number it reads. *)
Definition pairParses (c0 c1 : ascii) : bool :=
  (isHexDigit c0 || isSign c0) && isHexDigit c1.

Definition pairValue (c0 c1 : ascii) : Z :=
  if Ascii.eqb c0 "-" then - hexValue c1
  else if Ascii.eqb c0 "+" then hexValue c1
  else 16 * hexValue c0 + hexValue c1.

(** What the renderer reads of a block: its label and the hexadecimal text
    of its foreground colour. *)
Definition plain (block : StyledText) : StyledText :=
  mkStyledText (Label block)
               (option_map (fun col => mkCol 0 (Hex col) (0, 0, 0) EmptyString) (FgCol block))
               None 0 0 0 0.

(** The errors raised by a stage after the checks of the entry, but for the
    two that guard a stage against an input the stage before it never
    gives. *)
Definition raisedByStage (e : error) : bool :=
  match e with
  | ErrImageDataEmpty | ErrImageDataTooLarge _ | ErrTargetWidthNotPositive
  | ErrASCIIStringEmpty | ErrStyledTextNil => false
  | _ => true
  end.

(** * Properties *)

(** ** Rounding errors of binary64 *)

(** The operations of [spec_float] round through [binary_round_aux]: the
    mantissa is shifted right to the exponent of the format, rounded to
    nearest, and shifted once more if the rounding carried.  Read on real
    numbers, a result [fl(x)] of a rounding that starts from an exact value
    [x > 0] satisfies [x * (1 - 2 * eps) - 2 * eta <= fl(x) <= x * (1 + eps) + eta].
    These bounds are enough for the caps of the glyph grid and for the alpha
    threshold, where only the integer part of a result matters. *)

Module F64Bounds.

(** *** The shifts of [binary_round_aux], on integers *)

Section Shifts.

Local Open Scope Z_scope.

Lemma shr_1_m (mrs : shr_record) : 0 <= shr_m mrs -> shr_m (shr_1 mrs) = shr_m mrs / 2.
Proof.
  destruct mrs as [m r s]. cbn [shr_m]. intros Hm.
  destruct m as [ | [p | p | ] | p]; cbn [shr_1 shr_m].
  - reflexivity.
  - apply Z.div_unique with (r := 1); lia.
  - apply Z.div_unique with (r := 0); lia.
  - reflexivity.
  - lia.
Qed.

(** [n] shifts divide the mantissa by [2^n]. *)
Lemma shr_iter_m (p : positive) :
  forall mrs, 0 <= shr_m mrs ->
              shr_m (iter_pos shr_1 p mrs) = shr_m mrs / 2 ^ Zpos p.
Proof.
  assert (Hnn : forall m k, 0 <= m -> 0 <= m / 2 ^ Zpos k)
    by (intros m k Hm; apply Z.div_pos; [exact Hm | apply Z.pow_pos_nonneg; lia]).
  induction p as [p IH | p IH | ]; intros mrs Hm; cbn [iter_pos];
    try (assert (Hp : 0 < 2 ^ Zpos p) by (apply Z.pow_pos_nonneg; lia)).
  - assert (H1 : 0 <= shr_m (shr_1 mrs))
      by (rewrite shr_1_m by exact Hm; apply Z.div_pos; lia).
    rewrite IH by (rewrite IH by exact H1; apply Hnn; exact H1).
    rewrite IH by exact H1. rewrite shr_1_m by exact Hm.
    rewrite !Z.div_div by lia.
    f_equal. replace (Zpos p~1) with (1 + (Zpos p + Zpos p)) by lia.
    rewrite !Z.pow_add_r by lia. change (2 ^ 1) with 2. ring.
  - rewrite IH by (rewrite IH by exact Hm; apply Hnn; exact Hm).
    rewrite IH by exact Hm.
    rewrite Z.div_div by lia.
    f_equal. replace (Zpos p~0) with (Zpos p + Zpos p) by lia.
    rewrite Z.pow_add_r by lia. ring.
  - rewrite shr_1_m by exact Hm. reflexivity.
Qed.

(** The first component of [shr_fexp]: the mantissa, shifted to the exponent
    the format asks for when that one is larger. *)
Lemma shr_fexp_spec (m e : Z) (l : location) :
  0 <= m ->
  let e' := Z.max e (fexp F64.prec F64.emax (Zdigits2 m + e)) in
  snd (shr_fexp F64.prec F64.emax m e l) = e'
  /\ shr_m (fst (shr_fexp F64.prec F64.emax m e l)) = m / 2 ^ (e' - e)
  /\ (e' = e -> loc_of_shr_record (fst (shr_fexp F64.prec F64.emax m e l)) = l).
Proof.
  intros Hm. cbv zeta. unfold shr_fexp, shr.
  assert (Hrec : shr_m (shr_record_of_loc m l) = m) by (destruct l as [ | []]; reflexivity).
  destruct (fexp F64.prec F64.emax (Zdigits2 m + e) - e) as [ | p | p] eqn:Hn; cbn [fst snd].
  - replace (Z.max e (fexp F64.prec F64.emax (Zdigits2 m + e))) with e by lia.
    rewrite Z.sub_diag, Z.pow_0_r, Z.div_1_r. repeat split; try assumption.
    intros _. destruct l as [ | []]; reflexivity.
  - replace (Z.max e (fexp F64.prec F64.emax (Zdigits2 m + e))) with (e + Zpos p) by lia.
    repeat split.
    + rewrite shr_iter_m by (rewrite Hrec; exact Hm). rewrite Hrec. f_equal. f_equal. lia.
    + intros Habs. lia.
  - replace (Z.max e (fexp F64.prec F64.emax (Zdigits2 m + e))) with e by lia.
    rewrite Z.sub_diag, Z.pow_0_r, Z.div_1_r. repeat split; try assumption.
    intros _. destruct l as [ | []]; reflexivity.
Qed.

Lemma round_nearest_even_range (m : Z) (l : location) :
  m <= round_nearest_even m l <= m + 1.
Proof. destruct l as [ | []]; cbn; try destruct (Z.even m); lia. Qed.

(** The steps of [binary_round_aux] on a mantissa that is not negative: the
    shift to [e1], the rounded mantissa [m1], the shift to [e2]. *)
Lemma binary_round_aux_spec (m e : Z) (l : location) :
  0 <= m ->
  let e1 := Z.max e (fexp F64.prec F64.emax (Zdigits2 m + e)) in
  exists m1 m2 e2,
    m / 2 ^ (e1 - e) <= m1 <= m / 2 ^ (e1 - e) + 1
    /\ (l = loc_Exact -> e1 = e -> m1 = m)
    /\ e2 = Z.max e1 (fexp F64.prec F64.emax (Zdigits2 m1 + e1))
    /\ m2 = m1 / 2 ^ (e2 - e1)
    /\ binary_round_aux F64.prec F64.emax false m e l = result_of m2 e2.
Proof.
  intros Hm. cbv zeta.
  destruct (shr_fexp_spec m e l Hm) as (He1 & Hm1 & Hl1).
  unfold binary_round_aux.
  destruct (shr_fexp F64.prec F64.emax m e l) as [mrs' e'] eqn:Hs1. cbn [fst snd] in *.
  subst e'.
  set (e1 := Z.max e (fexp F64.prec F64.emax (Zdigits2 m + e))) in *.
  set (m1 := round_nearest_even (shr_m mrs') (loc_of_shr_record mrs')).
  assert (Hr : shr_m mrs' <= m1 <= shr_m mrs' + 1) by apply round_nearest_even_range.
  assert (Hm1nn : 0 <= m1).
  { rewrite Hm1 in Hr. assert (0 <= m / 2 ^ (e1 - e)); [ | lia].
    apply Z.div_pos; [exact Hm | apply Z.pow_pos_nonneg; lia]. }
  destruct (shr_fexp_spec m1 e1 loc_Exact Hm1nn) as (He2 & Hm2 & _).
  destruct (shr_fexp F64.prec F64.emax m1 e1 loc_Exact) as [mrs'' e''] eqn:Hs2.
  cbn [fst snd] in *.
  exists m1, (shr_m mrs''), e''.
  split; [rewrite <- Hm1; exact Hr | ].
  split.
  { intros Hl Heq. unfold m1. rewrite (Hl1 Heq), Hl. cbn.
    rewrite Hm1, Heq, Z.sub_diag, Z.pow_0_r, Z.div_1_r. reflexivity. }
  split; [exact He2 | ].
  split; [rewrite Hm2, He2; reflexivity | ].
  unfold result_of. reflexivity.
Qed.

End Shifts.

(** *** Values, on real numbers *)

Section Values.

Local Open Scope R_scope.

Lemma bpow_pos (e : Z) : 0 < bpow e.
Proof. apply powerRZ_lt. lra. Qed.

Lemma bpow_add (a b : Z) : bpow (a + b) = bpow a * bpow b.
Proof. apply powerRZ_add. lra. Qed.

Lemma bpow_IZR (n : Z) : (0 <= n)%Z -> bpow n = IZR (2 ^ n).
Proof.
  intros Hn. unfold bpow. rewrite <- (Z2Nat.id n Hn) at 1.
  rewrite <- pow_powerRZ. rewrite pow_IZR. rewrite Z2Nat.id by exact Hn. reflexivity.
Qed.

Lemma bpow_le (a b : Z) : (a <= b)%Z -> bpow a <= bpow b.
Proof.
  intros Hab. replace b with (a + (b - a))%Z by lia. rewrite bpow_add.
  rewrite (bpow_IZR (b - a)) by lia.
  assert (1 <= IZR (2 ^ (b - a))).
  { apply IZR_le. pose proof (Z.pow_pos_nonneg 2 (b - a)). lia. }
  pose proof (bpow_pos a). nra.
Qed.

Lemma bpow_lt_inv (a b : Z) : bpow a < bpow b -> (a < b)%Z.
Proof.
  intros H. destruct (Z.lt_ge_cases a b) as [Hlt | Hge]; [exact Hlt | ].
  pose proof (bpow_le b a Hge). lra.
Qed.

Lemma bpow_max (a b : Z) : bpow (Z.max a b) <= bpow a + bpow b.
Proof.
  pose proof (bpow_pos a). pose proof (bpow_pos b).
  destruct (Z.max_spec a b) as [[_ ->] | [_ ->]]; lra.
Qed.

Lemma val_nonneg (m e : Z) : (0 <= m)%Z -> 0 <= val m e.
Proof.
  intros Hm. unfold val. apply Rmult_le_pos; [apply IZR_le; exact Hm | ].
  left. apply bpow_pos.
Qed.

Lemma val_le (m m' e : Z) : (m <= m')%Z -> val m e <= val m' e.
Proof.
  intros H. unfold val. apply Rmult_le_compat_r; [left; apply bpow_pos | apply IZR_le; exact H].
Qed.

Lemma val_succ (m e : Z) : val (m + 1) e = val m e + bpow e.
Proof. unfold val. rewrite plus_IZR. ring. Qed.

(** Shifting the mantissa right by [k] bits and raising the exponent by [k]
    loses less than one unit of the new last place. *)
Lemma val_shr (m e k : Z) :
  (0 <= k)%Z -> val (m / 2 ^ k) (e + k) <= val m e < val (m / 2 ^ k) (e + k) + bpow (e + k).
Proof.
  intros Hk. unfold val. rewrite bpow_add, (bpow_IZR k Hk).
  pose proof (bpow_pos e) as He.
  assert (Hp : (0 < 2 ^ k)%Z) by (apply Z.pow_pos_nonneg; lia).
  pose proof (Z.mul_div_le m (2 ^ k) Hp) as H1.
  pose proof (Z.mul_succ_div_gt m (2 ^ k) Hp) as H2.
  apply IZR_le in H1. apply IZR_lt in H2.
  rewrite mult_IZR in H1. rewrite mult_IZR, succ_IZR in H2.
  split; nra.
Qed.

Lemma digits2_lower (p : positive) : (2 ^ (Zpos (digits2_pos p) - 1) <= Zpos p)%Z.
Proof.
  induction p as [p IH | p IH | ]; cbn [digits2_pos].
  - rewrite Pos2Z.inj_succ. replace (Z.succ (Zpos (digits2_pos p)) - 1)%Z
      with (Z.succ (Zpos (digits2_pos p) - 1)) by lia.
    rewrite Z.pow_succ_r by lia. lia.
  - rewrite Pos2Z.inj_succ. replace (Z.succ (Zpos (digits2_pos p)) - 1)%Z
      with (Z.succ (Zpos (digits2_pos p) - 1)) by lia.
    rewrite Z.pow_succ_r by lia. lia.
  - cbn. lia.
Qed.

Lemma digits2_upper (p : positive) : (Zpos p < 2 ^ Zpos (digits2_pos p))%Z.
Proof.
  induction p as [p IH | p IH | ]; cbn [digits2_pos].
  - rewrite Pos2Z.inj_succ, Z.pow_succ_r by lia. lia.
  - rewrite Pos2Z.inj_succ, Z.pow_succ_r by lia. lia.
  - cbn. lia.
Qed.

Lemma bpow_neg (k : Z) : bpow (- k) = / bpow k.
Proof.
  pose proof (bpow_pos k) as Hk.
  assert (H : bpow (- k) * bpow k = 1).
  { rewrite <- bpow_add. replace (- k + k)%Z with 0%Z by lia. reflexivity. }
  apply Rmult_eq_reg_r with (r := bpow k); [ | lra].
  rewrite H. field. lra.
Qed.

Lemma eps_small : 0 < eps <= / 1000000000000.
Proof.
  split; [apply bpow_pos | ]. unfold eps.
  apply Rle_trans with (bpow (-40)); [apply bpow_le; lia | ].
  assert (H40 : bpow (-40) = / bpow 40) by exact (bpow_neg 40).
  rewrite H40, (bpow_IZR 40) by lia.
  change (2 ^ 40)%Z with 1099511627776%Z.
  apply Rinv_le_contravar; lra.
Qed.

Lemma eta_small : 0 < eta <= eps.
Proof. split; [apply bpow_pos | apply bpow_le; lia]. Qed.

(** One unit in the last place of the format at the magnitude of [m * 2^e]
    is at most the relative error [eps] times the value, or [eta]. *)
Lemma ulp_bound (m e : Z) :
  (0 < m)%Z ->
  bpow (fexp F64.prec F64.emax (Zdigits2 m + e)) <= val m e * eps + eta.
Proof.
  intros Hm. destruct m as [ | p | p]; try lia. cbn [Zdigits2].
  unfold fexp, emin, F64.prec, F64.emax.
  change (3 - 1024 - 53)%Z with (-1074)%Z.
  eapply Rle_trans; [apply bpow_max | ].
  apply Rplus_le_compat; [ | apply Rle_refl].
  replace (Zpos (digits2_pos p) + e - 53)%Z
    with ((Zpos (digits2_pos p) - 1) + (e + -52))%Z by lia.
  rewrite !bpow_add. unfold val, eps.
  pose proof (digits2_lower p) as Hd. apply IZR_le in Hd.
  rewrite <- bpow_IZR in Hd by (pose proof (Pos2Z.is_pos (digits2_pos p)); lia).
  pose proof (bpow_pos e). pose proof (bpow_pos (-52)).
  assert (0 < bpow e * bpow (-52)) by nra.
  nra.
Qed.

(** The value [binary_round_aux] ends with: at most one unit of the last
    place above the value it starts from, and within the relative error of
    the format when it starts from an exact value. *)
Lemma binary_round_aux_bounds (m e : Z) (l : location) :
  (0 <= m)%Z ->
  exists m2 e2,
    (0 <= m2)%Z
    /\ binary_round_aux F64.prec F64.emax false m e l = result_of m2 e2
    /\ val m2 e2 <= val m e + bpow (Z.max e (fexp F64.prec F64.emax (Zdigits2 m + e)))
    /\ (l = loc_Exact -> (0 < m)%Z ->
        val m e * (1 - 2 * eps) - 2 * eta <= val m2 e2 <= val m e * (1 + eps) + eta).
Proof.
  intros Hm.
  destruct (binary_round_aux_spec m e l Hm) as (m1 & m2 & e2 & Hm1 & Hex & He2 & Hm2 & Hres).
  cbv zeta in *.
  set (e1 := Z.max e (fexp F64.prec F64.emax (Zdigits2 m + e))) in *.
  assert (Hp1 : (0 < 2 ^ (e1 - e))%Z) by (apply Z.pow_pos_nonneg; lia).
  assert (Hm' : (0 <= m / 2 ^ (e1 - e))%Z) by (apply Z.div_pos; lia).
  assert (Hm1nn : (0 <= m1)%Z) by lia.
  assert (Hp2 : (0 < 2 ^ (e2 - e1))%Z) by (apply Z.pow_pos_nonneg; lia).
  assert (Hm2nn : (0 <= m2)%Z) by (subst m2; apply Z.div_pos; lia).
  (* the two shifts, read on the values *)
  pose proof (val_shr m e (e1 - e) ltac:(lia)) as Hs1.
  replace (e + (e1 - e))%Z with e1 in Hs1 by lia.
  pose proof (val_shr m1 e1 (e2 - e1) ltac:(lia)) as Hs2.
  replace (e1 + (e2 - e1))%Z with e2 in Hs2 by lia.
  rewrite <- Hm2 in Hs2.
  pose proof (val_le _ _ e1 (proj1 Hm1)) as Hlo.
  pose proof (val_le _ _ e1 (proj2 Hm1)) as Hhi. rewrite val_succ in Hhi.
  pose proof eps_small as Heps. pose proof eta_small as Heta.
  pose proof (bpow_pos e1) as Hb1. pose proof (bpow_pos e2) as Hb2.
  pose proof (val_nonneg m e Hm) as Hv.
  pose proof (val_nonneg m1 e1 Hm1nn) as Hv1.
  exists m2, e2. split; [exact Hm2nn | ]. split; [exact Hres | ].
  split; [lra | ].
  intros Hl Hmpos.
  pose proof (ulp_bound m e Hmpos) as Hu1.
  (* the first rounding *)
  assert (H1 : val m e * (1 - eps) - eta <= val m1 e1 <= val m e * (1 + eps) + eta).
  { destruct (Z.eq_dec e1 e) as [Heq | Hne].
    - rewrite (Hex Hl Heq), Heq. nra.
    - assert (He1 : e1 = fexp F64.prec F64.emax (Zdigits2 m + e)) by (unfold e1 in *; lia).
      rewrite <- He1 in Hu1. lra. }
  (* the second one *)
  assert (H2 : val m1 e1 * (1 - eps) - eta <= val m2 e2 <= val m1 e1).
  { split; [ | lra].
    destruct (Z.eq_dec e2 e1) as [Heq | Hne].
    - subst m2. rewrite Heq, Z.sub_diag, Z.pow_0_r, Z.div_1_r. nra.
    - assert (He2' : e2 = fexp F64.prec F64.emax (Zdigits2 m1 + e1)) by lia.
      destruct (Z.eq_dec m1 0) as [Hz | Hnz].
      + subst m1. unfold val in *. pose proof (val_nonneg m2 e2 Hm2nn). unfold val in *.
        rewrite Rmult_0_l in *. lra.
      + pose proof (ulp_bound m1 e1 ltac:(lia)) as Hu2. rewrite <- He2' in Hu2. lra. }
  split; [ | nra].
  assert (val m e * (1 - eps) * (1 - eps) >= val m e * (1 - 2 * eps)) by nra.
  nra.
Qed.

Lemma val_bpow_le (m e : Z) : (0 < m)%Z -> bpow e <= val m e.
Proof.
  intros Hm. unfold val. pose proof (bpow_pos e).
  assert (1 <= IZR m) by (apply IZR_le; lia). nra.
Qed.

(** Below the overflow threshold the result is a zero or a finite float of
    the value reached. *)
Lemma result_of_nonneg (m2 e2 : Z) :
  (0 <= m2)%Z -> val m2 e2 < bpow 972 ->
  is_nonneg (result_of m2 e2) = true /\ F2R (result_of m2 e2) = val m2 e2.
Proof.
  intros Hm Hv. destruct m2 as [ | p | p]; try lia.
  - cbn. unfold val. split; [reflexivity | ring].
  - assert (He : (e2 < 972)%Z).
    { apply bpow_lt_inv. eapply Rle_lt_trans; [apply (val_bpow_le (Zpos p) e2); lia | exact Hv]. }
    unfold result_of, F64.emax, F64.prec.
    replace (e2 <=? 1024 - 53)%Z with true by (symmetry; apply Z.leb_le; lia).
    split; reflexivity.
Qed.

Lemma bpow_900_972 : 1 <= bpow 900 /\ bpow 900 * 4 <= bpow 972.
Proof.
  split.
  - pose proof (bpow_le 0 900 ltac:(lia)) as H. rewrite (bpow_IZR 0) in H by lia. exact H.
  - replace 972%Z with (900 + 72)%Z by lia. rewrite bpow_add.
    pose proof (bpow_pos 900). assert (4 <= bpow 72); [ | nra].
    pose proof (bpow_le 2 72 ltac:(lia)) as H2. rewrite (bpow_IZR 2) in H2 by lia. exact H2.
Qed.

Lemma iter_xO (p d : positive) : Zpos (Pos.iter xO p d) = (Zpos p * 2 ^ Zpos d)%Z.
Proof.
  rewrite (Pos.iter_swap_gen _ _ Zpos xO (Z.mul 2)) by reflexivity.
  change (Pos.iter (Z.mul 2) (Zpos p) d) with (Z.shiftl (Zpos p) (Zpos d)).
  apply Z.shiftl_mul_pow2. lia.
Qed.

Lemma shl_align_val (mx : positive) (ex ex' : Z) :
  val (Zpos (fst (shl_align mx ex ex'))) (snd (shl_align mx ex ex')) = val (Zpos mx) ex.
Proof.
  unfold shl_align. destruct (ex' - ex)%Z as [ | d | d] eqn:Hd; cbn [fst snd]; try reflexivity.
  rewrite iter_xO. unfold val. rewrite mult_IZR, <- bpow_IZR by lia.
  replace (bpow ex) with (bpow (ex' + Zpos d)) by (f_equal; lia).
  rewrite bpow_add. ring.
Qed.

(** [float64(n)] for a positive integer: the relative error of one
    rounding. *)
Lemma of_int_bounds (n : Z) :
  (0 < n)%Z -> IZR n < bpow 900 ->
  is_nonneg (F64.of_int n) = true
  /\ IZR n * (1 - 2 * eps) - 2 * eta <= F2R (F64.of_int n) <= IZR n * (1 + eps) + eta.
Proof.
  intros Hn Hbig. destruct n as [ | p | p]; try lia.
  unfold F64.of_int, binary_normalize, binary_round.
  pose proof (shl_align_val p 0 (fexp F64.prec F64.emax (Zpos (digits2_pos p) + 0))) as Hal.
  destruct (shl_align p 0 (fexp F64.prec F64.emax (Zpos (digits2_pos p) + 0))) as [mz ez].
  cbn [fst snd] in Hal.
  assert (Hv : val (Zpos mz) ez = IZR (Zpos p)).
  { rewrite Hal. unfold val, bpow. cbn [powerRZ]. ring. }
  destruct (binary_round_aux_bounds (Zpos mz) ez loc_Exact ltac:(lia))
    as (m2 & e2 & Hm2 & Hres & _ & Hex).
  specialize (Hex eq_refl ltac:(lia)). rewrite Hv in Hex.
  pose proof eps_small. pose proof eta_small.
  assert (Hlt : val m2 e2 < bpow 972).
  { pose proof bpow_900_972 as [Hone Hfour].
    assert (0 < IZR (Zpos p)) by (apply IZR_lt; lia).
    assert (IZR (Zpos p) * eps <= IZR (Zpos p)) by nra. lra. }
  destruct (result_of_nonneg m2 e2 Hm2 Hlt) as [Hnn HF].
  rewrite Hres. split; [exact Hnn | ]. rewrite HF. exact Hex.
Qed.

(** The product of two floats that are not negative: the relative error of
    one rounding. *)
Lemma mul_bounds (a b : float64) :
  is_nonneg a = true -> is_nonneg b = true ->
  F2R a * F2R b < bpow 900 ->
  is_nonneg (F64.mul a b) = true
  /\ F2R (F64.mul a b) <= F2R a * F2R b * (1 + eps) + eta.
Proof.
  intros Ha Hb Hbig. pose proof eps_small. pose proof eta_small.
  assert (Hzero : forall v, 0 <= 0 * v * (1 + eps) + eta /\ 0 <= v * 0 * (1 + eps) + eta)
    by (intros v; split; nra).
  destruct a as [[ | ] | | | [ | ] ma ea]; try discriminate Ha;
    destruct b as [[ | ] | | | [ | ] mb eb]; try discriminate Hb;
    try (split; [reflexivity | apply Hzero]).
  cbn [F2R] in *. unfold F64.mul, SFmul. cbn [xorb].
  assert (Hv : val (Zpos (ma * mb)) (ea + eb) = val (Zpos ma) ea * val (Zpos mb) eb).
  { unfold val. rewrite Pos2Z.inj_mul, mult_IZR, bpow_add. ring. }
  destruct (binary_round_aux_bounds (Zpos (ma * mb)) (ea + eb) loc_Exact ltac:(lia))
    as (m2 & e2 & Hm2 & Hres & _ & Hex).
  specialize (Hex eq_refl ltac:(lia)). rewrite Hv in Hex.
  pose proof (val_nonneg (Zpos ma) ea ltac:(lia)).
  pose proof (val_nonneg (Zpos mb) eb ltac:(lia)).
  assert (Hlt : val m2 e2 < bpow 972).
  { pose proof bpow_900_972 as [Hone Hfour].
    assert (0 <= val (Zpos ma) ea * val (Zpos mb) eb) by nra.
    assert (val (Zpos ma) ea * val (Zpos mb) eb * eps
            <= val (Zpos ma) ea * val (Zpos mb) eb) by nra.
    lra. }
  destruct (result_of_nonneg m2 e2 Hm2 Hlt) as [Hnn HF].
  rewrite Hres. split; [exact Hnn | ]. rewrite HF. apply Hex.
Qed.

(** The integer part of a float that is not negative. *)
Lemma trunc_bound (p : float64) (k : Z) :
  is_nonneg p = true -> F2R p < IZR (k + 1) ->
  exists t, F64.trunc p = Some t /\ (0 <= t <= k)%Z.
Proof.
  intros Hp Hv. destruct p as [[ | ] | | | [ | ] m e]; try discriminate Hp.
  - exists 0%Z. split; [reflexivity | ]. cbn in Hv. apply lt_IZR in Hv. lia.
  - cbn [F64.trunc F2R] in *. exists (Z.shiftl (Zpos m) e). split; [reflexivity | ].
    assert (H0 : (0 <= Z.shiftl (Zpos m) e)%Z) by (apply Z.shiftl_nonneg; lia).
    split; [exact H0 | ].
    assert (Hle : IZR (Z.shiftl (Zpos m) e) <= val (Zpos m) e).
    { destruct (Z.le_gt_cases 0 e) as [He | He].
      - rewrite Z.shiftl_mul_pow2 by exact He. unfold val.
        rewrite mult_IZR, <- bpow_IZR by exact He. apply Rle_refl.
      - rewrite Z.shiftl_div_pow2 by lia.
        pose proof (val_shr (Zpos m) e (- e) ltac:(lia)) as Hs.
        replace (e + - e)%Z with 0%Z in Hs by lia.
        unfold val at 1 2 in Hs. unfold bpow at 1 2 in Hs. cbn [powerRZ] in Hs.
        rewrite Rmult_1_r in Hs. apply Hs. }
    assert (Hlt : IZR (Z.shiftl (Zpos m) e) < IZR (k + 1)) by lra.
    apply lt_IZR in Hlt. lia.
Qed.

Lemma val_lt_bpow_digits (p : positive) (e : Z) :
  val (Zpos p) e < bpow (Zpos (digits2_pos p) + e).
Proof.
  unfold val. rewrite bpow_add, (bpow_IZR (Zpos (digits2_pos p))) by lia.
  pose proof (digits2_upper p) as Hd. apply IZR_lt in Hd.
  pose proof (bpow_pos e). nra.
Qed.

(** The quotient of 500 by a float above 500: below one. *)
Lemma div_500_bound (x : float64) :
  is_nonneg x = true -> 5005 / 10 <= F2R x ->
  is_nonneg (F64.div f500 x) = true /\ F2R (F64.div f500 x) <= 9995 / 10000.
Proof.
  intros Hx Hv. pose proof eps_small as Heps. pose proof eta_small as Heta.
  destruct x as [[ | ] | | | [ | ] mx ex]; try discriminate Hx; cbn [F2R] in Hv; try lra.
  unfold F64.div, f500, SFdiv, SFdiv_core_binary. cbn [xorb].
  change (Zdigits2 (Zpos 8796093022208000)) with 53%Z. cbn [Zdigits2].
  set (dx := Zpos (digits2_pos mx)).
  set (e' := Z.min (fexp F64.prec F64.emax (53 + -44 - (dx + ex))) (-44 - ex)).
  set (s := (-44 - ex - e')%Z).
  assert (Hs : (0 <= s)%Z) by (unfold s, e'; lia).
  set (m' := match s with
             | 0%Z => Zpos 8796093022208000
             | Zpos _ => Z.shiftl (Zpos 8796093022208000) s
             | Zneg _ => 0%Z
             end).
  assert (Hm' : m' = (8796093022208000 * 2 ^ s)%Z).
  { unfold m'. clearbody s.
    destruct s as [ | p | p]; [reflexivity | apply Z.shiftl_mul_pow2; lia | lia]. }
  pose proof (Z_div_mod_eq_full m' (Zpos mx)) as Hdm.
  pose proof (Z.mul_div_le m' (Zpos mx) ltac:(lia)) as Hq.
  assert (Hq0 : (0 <= m' / Zpos mx)%Z).
  { apply Z.div_pos; [ | lia]. rewrite Hm'.
    pose proof (Z.pow_pos_nonneg 2 s ltac:(lia) Hs). lia. }
  unfold Z.div in Hq, Hq0.
  destruct (Z.div_eucl m' (Zpos mx)) as [q r] eqn:Hqr. cbn [fst] in Hq, Hq0.
  destruct (binary_round_aux_bounds q e' (new_location (Zpos mx) r) Hq0)
    as (m2 & e2 & Hm2 & Hres & Hup & _).
  (* the magnitude of the divisor *)
  assert (Hmag : (9 <= dx + ex)%Z).
  { pose proof (val_lt_bpow_digits mx ex) as Hd. fold dx in Hd.
    assert (Hb : bpow 8 < bpow (dx + ex)).
    { rewrite (bpow_IZR 8) by lia. change (2 ^ 8)%Z with 256%Z. lra. }
    apply bpow_lt_inv in Hb. lia. }
  assert (He' : (e' <= -53)%Z).
  { unfold e', fexp, emin, F64.prec, F64.emax. lia. }
  (* the quotient of the mantissas *)
  assert (Hquot : val q e' * val (Zpos mx) ex <= 500).
  { apply IZR_le in Hq. rewrite mult_IZR, Hm', mult_IZR, <- bpow_IZR in Hq by exact Hs.
    unfold val. unfold s in Hq.
    replace (-44 - ex - e')%Z with (-44 + (- ex + - e'))%Z in Hq by lia.
    rewrite !bpow_add in Hq.
    assert (H44 : IZR 8796093022208000 * bpow (-44) = 500).
    { assert (H : bpow (-44) = / bpow 44) by exact (bpow_neg 44).
      rewrite H, (bpow_IZR 44) by lia. change (2 ^ 44)%Z with 17592186044416%Z. field. }
    assert (Hex : bpow (- ex) * bpow ex = 1).
    { rewrite <- bpow_add. replace (- ex + ex)%Z with 0%Z by lia. apply (bpow_IZR 0). lia. }
    assert (Hee : bpow (- e') * bpow e' = 1).
    { rewrite <- bpow_add. replace (- e' + e')%Z with 0%Z by lia. apply (bpow_IZR 0). lia. }
    pose proof (bpow_pos ex). pose proof (bpow_pos e').
    pose proof (bpow_pos (- ex)). pose proof (bpow_pos (- e')).
    assert (Hstep : IZR (Zpos mx) * IZR q * (bpow e' * bpow ex)
                    <= IZR 8796093022208000 * (bpow (-44) * (bpow (- ex) * bpow (- e')))
                       * (bpow e' * bpow ex)).
    { apply Rmult_le_compat_r; [nra | exact Hq]. }
    replace (IZR 8796093022208000 * (bpow (-44) * (bpow (- ex) * bpow (- e')))
             * (bpow e' * bpow ex))
      with (IZR 8796093022208000 * bpow (-44)
            * ((bpow (- ex) * bpow ex) * (bpow (- e') * bpow e'))) in Hstep by ring.
    rewrite H44, Hex, Hee in Hstep. lra. }
  pose proof (val_nonneg q e' Hq0) as Hvq.
  assert (Hvq1 : val q e' <= 9991 / 10000).
  { assert (val q e' * (5005 / 10) <= 500) by nra. lra. }
  (* the error of the rounding *)
  assert (Herr : bpow (Z.max e' (fexp F64.prec F64.emax (Zdigits2 q + e'))) <= 3 * eps).
  { eapply Rle_trans; [apply bpow_max | ].
    assert (bpow e' <= eps) by (apply bpow_le; lia).
    assert (bpow (fexp F64.prec F64.emax (Zdigits2 q + e')) <= 2 * eps); [ | lra].
    destruct (Z.eq_dec q 0) as [-> | Hqnz].
    - cbn [Zdigits2]. transitivity eps; [ | lra]. apply bpow_le.
      unfold fexp, emin, F64.prec, F64.emax. lia.
    - pose proof (ulp_bound q e' ltac:(lia)). nra. }
  assert (Hlt : val m2 e2 < bpow 972).
  { pose proof bpow_900_972 as [Hone Hfour]. pose proof (bpow_pos 900). lra. }
  destruct (result_of_nonneg m2 e2 Hm2 Hlt) as [Hnn HF].
  rewrite Hres. split; [exact Hnn | ]. rewrite HF. lra.
Qed.

Lemma F2R_f65535 : F2R f65535 = 65535.
Proof.
  unfold f65535, F2R, val.
  assert (H : bpow (-37) = / bpow 37) by exact (bpow_neg 37).
  rewrite H, (bpow_IZR 37) by lia. change (2 ^ 37)%Z with 137438953472%Z. field.
Qed.

(** A float of the format between zero and one, by Go's comparisons. *)
Lemma unit_interval (t : float64) :
  valid_binary F64.prec F64.emax t = true ->
  F64.leb F64.zero t = true -> F64.leb t F64.one = true ->
  t = S754_zero true \/ (is_nonneg t = true /\ F2R t <= 1).
Proof.
  intros Hv H0 H1.
  destruct t as [s | s | | s m e].
  - destruct s; [left; reflexivity | right; split; [reflexivity | cbn [F2R]; lra]].
  - destruct s; [discriminate H0 | discriminate H1].
  - discriminate H0.
  - destruct s; [discriminate H0 | ].
    right. split; [reflexivity | ]. cbn [F2R].
    cbn [valid_binary] in Hv. unfold bounded, canonical_mantissa in Hv.
    apply andb_true_iff in Hv as [Hc _]. apply Z.eqb_eq in Hc.
    unfold fexp, emin, F64.prec, F64.emax in Hc.
    assert (Hd : (Zpos (digits2_pos m) <= 53)%Z) by lia.
    pose proof (val_lt_bpow_digits m e) as Hlt.
    unfold F64.leb, SFleb, F64.one in H1. cbn [SFcompare] in H1.
    destruct (Z.compare_spec e (-52)) as [He | He | He].
    + subst e. rewrite Pos.compare_cont_spec in H1. cbn [Pos.switch_Eq] in H1.
      assert (Hm : (Zpos m <= 4503599627370496)%Z).
      { apply Pos2Z.pos_le_pos. apply Pos.compare_le_iff.
        intros Hgt. rewrite Hgt in H1. discriminate H1. }
      unfold val. assert (Hb : bpow (-52) = / bpow 52) by exact (bpow_neg 52).
      rewrite Hb, (bpow_IZR 52) by lia. change (2 ^ 52)%Z with 4503599627370496%Z.
      apply IZR_le in Hm. lra.
    + assert (Hb : bpow (Zpos (digits2_pos m) + e) <= bpow 0) by (apply bpow_le; lia).
      rewrite (bpow_IZR 0) in Hb by lia. change (2 ^ 0)%Z with 1%Z in Hb. lra.
    + discriminate H1.
Qed.

End Values.

Lemma is_nonneg_F2R (x : float64) : is_nonneg x = true -> (0 <= F2R x)%R.
Proof.
  destruct x as [[ | ] | | | [ | ] m e]; try discriminate; intros _; cbn [F2R];
    try apply Rle_refl.
  apply val_nonneg. lia.
Qed.

(** The width after the second cap is at most 500. *)
Lemma scaled_width_le (undef : float64 -> Z) (W H : Z) :
  1 <= W <= 500 -> 501 <= H < 2 ^ 63 ->
  0 <= F64.to_int undef (F64.mul (F64.of_int W) (F64.div f500 (F64.of_int H))) <= 500.
Proof.
  intros HW HH.
  pose proof eps_small as Heps. pose proof eta_small as Heta.
  pose proof bpow_900_972 as [Hone _].
  assert (H63 : (bpow 63 <= bpow 900)%R) by (apply bpow_le; lia).
  rewrite (bpow_IZR 63) in H63 by lia.
  assert (HHr : (501 <= IZR H < IZR (2 ^ 63))%R) by (split; [apply IZR_le | apply IZR_lt]; lia).
  assert (HWr : (1 <= IZR W <= 500)%R) by (split; apply IZR_le; lia).
  destruct (of_int_bounds H ltac:(lia) ltac:(lra)) as [HxN [HxL _]].
  destruct (of_int_bounds W ltac:(lia) ltac:(lra)) as [HaN [_ HaU]].
  assert (Hx : (5005 / 10 <= F2R (F64.of_int H))%R) by nra.
  destruct (div_500_bound (F64.of_int H) HxN Hx) as [HsN HsU].
  pose proof (is_nonneg_F2R _ HsN) as Hs0.
  pose proof (is_nonneg_F2R _ HaN) as Ha0.
  assert (Ha : (F2R (F64.of_int W) <= 5001 / 10)%R) by nra.
  assert (Hprod : (F2R (F64.of_int W) * F2R (F64.div f500 (F64.of_int H)) <= 500)%R) by nra.
  destruct (mul_bounds (F64.of_int W) (F64.div f500 (F64.of_int H)) HaN HsN ltac:(nra))
    as [HpN HpU].
  destruct (trunc_bound _ 500 HpN) as (t & Ht & Hrange).
  { change (500 + 1) with 501.
    assert (0 <= F2R (F64.of_int W) * F2R (F64.div f500 (F64.of_int H)))%R by nra.
    nra. }
  unfold F64.to_int, F64.to_integer. rewrite Ht.
  replace ((- 2 ^ 63 <=? t) && (t <=? 2 ^ 63 - 1)) with true; [exact Hrange | ].
  symmetry. apply andb_true_iff. split; apply Z.leb_le; lia.
Qed.

(** A conversion to [int] gives an [int], whatever the float. *)
Lemma to_int_range (undef : float64 -> Z) (f : float64) :
  - 2 ^ 63 <= F64.to_int undef f < 2 ^ 63.
Proof.
  unfold F64.to_int, F64.to_integer.
  assert (Hmod : - 2 ^ 63 <= - 2 ^ 63 + (undef f - - 2 ^ 63) mod (2 ^ 63 - 1 - - 2 ^ 63 + 1)
                 < 2 ^ 63).
  { pose proof (Z.mod_pos_bound (undef f - - 2 ^ 63) (2 ^ 63 - 1 - - 2 ^ 63 + 1) ltac:(lia)).
    lia. }
  destruct (F64.trunc f) as [k | ]; [ | exact Hmod].
  destruct (Z.leb_spec (- 2 ^ 63) k); cbn [andb]; [ | exact Hmod].
  destruct (Z.leb_spec k (2 ^ 63 - 1)); [lia | exact Hmod].
Qed.

(** The float of a small integer has a small integer part. *)
Lemma floor_small (t : Z) :
  0 <= t <= 65535 -> exists u, F64.trunc (F64.of_int t) = Some u /\ 0 <= u <= 65535.
Proof.
  intros Ht. destruct (Z.eq_dec t 0) as [-> | Hnz].
  - exists 0. split; [reflexivity | lia].
  - pose proof eps_small as Heps. pose proof eta_small as Heta.
    pose proof (bpow_le 17 900 ltac:(lia)) as H17. rewrite (bpow_IZR 17) in H17 by lia.
    change (2 ^ 17)%Z with 131072%Z in H17.
    assert (Htr : (1 <= IZR t <= 65535)%R) by (split; apply IZR_le; lia).
    destruct (of_int_bounds t ltac:(lia) ltac:(lra)) as [HN [_ HU]].
    apply (trunc_bound _ 65535 HN). change (65535 + 1) with 65536. nra.
Qed.


End F64Bounds.

(** ** Options normalisation *)

Lemma clamp_code_spec (t : float64) :
  F64.Max F64.zero (F64.Min F64.one t)
  = match t with S754_zero true => F64.zero | _ => clamp01 t end.
Proof.
  destruct t as [s | s | | s m e];
    [destruct s; reflexivity | destruct s; reflexivity | reflexivity | ].
  destruct s; [reflexivity | ].
  unfold clamp01, F64.Min, F64.gtb, F64.ltb, SFltb.
  change (F64.IsInf F64.one true || F64.IsInf (S754_finite false m e) true) with false.
  change (F64.IsNaN F64.one || F64.IsNaN (S754_finite false m e)) with false.
  change (F64.eqb F64.one F64.zero) with false.
  change (SFcompare (S754_finite false m e) F64.zero) with (Some Gt).
  cbv iota beta. rewrite andb_false_l.
  destruct (SFcompare F64.one (S754_finite false m e)) as [[ | | ] | ]; reflexivity.
Qed.

Lemma SFcompare_antisym (x y : spec_float) :
  SFcompare x y = option_map CompOpp (SFcompare y x).
Proof.
  destruct x as [s1 | s1 | | s1 m1 e1], y as [s2 | s2 | | s2 m2 e2];
    try reflexivity; try (destruct s1; reflexivity); try (destruct s2; reflexivity);
    try (destruct s1, s2; reflexivity).
  assert (Hm : Pos.compare_cont Eq m1 m2 = CompOpp (Pos.compare_cont Eq m2 m1))
    by (rewrite Pos.compare_cont_antisym; reflexivity).
  cbn [SFcompare option_map].
  rewrite (Z.compare_antisym e1 e2), Hm.
  destruct s1, s2; try reflexivity;
    destruct (e1 ?= e2); try reflexivity;
    destruct (Pos.compare_cont Eq m2 m1); reflexivity.
Qed.

Lemma clamp01_in_range (t : float64) :
  F64.IsNaN t || (F64.leb F64.zero (clamp01 t) && F64.leb (clamp01 t) F64.one) = true.
Proof.
  unfold clamp01, F64.ltb, F64.gtb, F64.leb, SFltb, SFleb.
  destruct t as [s | s | | s m e]; try (destruct s; reflexivity); try reflexivity.
  destruct s; [reflexivity | ].
  change (SFcompare (S754_finite false m e) F64.zero) with (Some Gt). cbv iota.
  pose proof (SFcompare_antisym (S754_finite false m e) F64.one) as Ha.
  destruct (SFcompare F64.one (S754_finite false m e)) as [[ | | ] | ] eqn:Hc;
    try reflexivity; try discriminate Hc;
    cbn [F64.IsNaN orb]; rewrite Ha; reflexivity.
Qed.

(** C8. Normalisation replaces the threshold [t] by [clamp(t, 0, 1)] (the
    zero it yields for a negative zero is the positive one), which lies in
    [0, 1] for every [t] that is a number; it maps -1 to 0, 1.5 to 1 and 0.5
    to 0.5; it returns options and no error; an empty background colour
    becomes [#000000], an empty transparency colour becomes [#FFFFFF], any
    other colour string and the other fields are unchanged. *)
Theorem setDefaults_normalizes (o : Options) :
  let t := TransparencyThreshold o in
  let o' := setDefaults o in
  TransparencyThreshold o' = match t with S754_zero true => F64.zero | _ => clamp01 t end
  /\ F64.IsNaN t
     || (F64.leb F64.zero (TransparencyThreshold o')
         && F64.leb (TransparencyThreshold o') F64.one) = true
  /\ BackgroundColor o'
     = (if String.eqb (BackgroundColor o) "" then "#000000" else BackgroundColor o)
  /\ TransparencyColor o'
     = (if String.eqb (TransparencyColor o) "" then "#FFFFFF" else TransparencyColor o)
  /\ (TargetWidth o', Brightness o', Contrast o', Sharpen o')
     = (TargetWidth o, Brightness o, Contrast o, Sharpen o)
  /\ (let at_threshold x :=
        TransparencyThreshold
          (setDefaults (mkOptions (TargetWidth o) (Brightness o) (Contrast o) (Sharpen o)
                                  (BackgroundColor o) (TransparencyColor o) x)) in
      at_threshold (F64.of_int (-1)) = F64.zero
      /\ at_threshold (F64.of_ratio 3 2) = F64.one
      /\ at_threshold (F64.of_ratio 1 2) = F64.of_ratio 1 2).
Proof.
  cbv zeta. cbn [setDefaults TransparencyThreshold BackgroundColor TransparencyColor
                 TargetWidth Brightness Contrast Sharpen].
  rewrite clamp_code_spec.
  repeat split; try reflexivity.
  destruct (TransparencyThreshold o) as [[ | ] | s | | s m e] eqn:Ht;
    try reflexivity; rewrite <- Ht; apply clamp01_in_range.
Qed.

(** ** Effects of the stages *)

Lemma wi_ret {A : Type} (a : A) : worldIndependent (ret a).
Proof. exists (inr a), []. intros w. cbn. rewrite app_nil_r. split; reflexivity. Qed.

Lemma wi_fail {A : Type} (e : error) : worldIndependent (@fail A e).
Proof. exists (inl e), []. intros w. cbn. rewrite app_nil_r. split; reflexivity. Qed.

Lemma wi_emit (e : Event) : worldIndependent (emit e).
Proof. exists (inr tt), [e]. intros w. cbn. split; reflexivity. Qed.

Lemma wi_bind {A B : Type} (c : M A) (k : A -> M B) :
  worldIndependent c -> (forall a, worldIndependent (k a)) -> worldIndependent (bind c k).
Proof.
  intros (r & evs & Hc) Hk. destruct r as [e | a].
  - exists (inl e), evs. intros w. destruct (Hc w) as [Hr He]. unfold bind.
    destruct (c w) as [r' w']. cbn [fst snd] in *. subst r'. cbn. split; [reflexivity | exact He].
  - destruct (Hk a) as (r2 & evs2 & Hka).
    exists r2, (evs ++ evs2). intros w. destruct (Hc w) as [Hr He]. unfold bind.
    destruct (c w) as [r' w']. cbn [fst snd] in *. subst r'.
    destruct (Hka w') as [Hr2 He2]. split; [exact Hr2 | ].
    rewrite He2, He, app_assoc. reflexivity.
Qed.

Lemma wi_if {A : Type} (b : bool) (c1 c2 : M A) :
  worldIndependent c1 -> worldIndependent c2 -> worldIndependent (if b then c1 else c2).
Proof. destruct b; auto. Qed.

Lemma wi_events {A : Type} (c : M A) (w : World) :
  worldIndependent c -> exists evs, events (snd (c w)) = events w ++ evs.
Proof. intros (r & evs & H). exists evs. apply H. Qed.

Ltac wi_step :=
  first [ apply wi_ret | apply wi_fail | apply wi_emit
        | apply wi_bind; [ | intros ? ] | apply wi_if ].

Section Effects.

Variable undef : float64 -> Z.
Variable Decode : list Byte.byte -> option (option Image * string).
Variable Resize : Image -> Z -> Z -> Image.
Variables AdjustBrightness AdjustContrast SharpenImage : Image -> float64 -> Image.
Variable Image2ASCIIString : Image -> Z -> Z -> string.
Variable Parse : string -> option (slice (option StyledText)).
Variable svgo : SvgCall -> string.

Lemma wi_decodeImage (imageData : list Byte.byte) :
  worldIndependent (decodeImage Decode imageData).
Proof.
  unfold decodeImage. wi_step; [wi_step | ].
  destruct (Decode imageData) as [[[img | ] format] | ]; repeat wi_step.
Qed.

Lemma wi_when (b : bool) (c : Image -> M Image) (img : Image) :
  (forall i, worldIndependent (c i)) -> worldIndependent (when b c img).
Proof. intros H. unfold when. destruct b; [apply H | apply wi_ret]. Qed.

Lemma wi_processImage (img : Image) (opts : Options) :
  worldIndependent
    (processImage undef Resize AdjustBrightness AdjustContrast SharpenImage img opts).
Proof.
  unfold processImage.
  repeat first [ apply wi_when; intros ? | wi_step ].
Qed.

Lemma wi_convertToASCII (img : Image) (targetWidth : Z) :
  worldIndependent (convertToASCII undef Image2ASCIIString img targetWidth).
Proof.
  unfold convertToASCII.
  destruct (asciiDimensions undef (Bounds img) targetWidth) as [fw fh].
  repeat wi_step.
Qed.

Lemma wi_parseANSI (asciiString : string) :
  worldIndependent (parseANSI Parse asciiString).
Proof.
  unfold parseANSI. wi_step; [wi_step | ]. wi_step; [wi_step | ].
  destruct (Parse asciiString) as [[styledText | ] | ]; repeat wi_step.
Qed.

Lemma wi_renderToSVG (styledText : slice (option StyledText)) (backgroundColor : string) :
  worldIndependent (renderToSVG svgo styledText backgroundColor).
Proof.
  destruct styledText as [styledText | ]; [ | apply wi_fail].
  unfold renderToSVG.
  destruct (calculateSVGDimensions (splitStyledTextByLine styledText)) as [sw sh] eqn:Hd.
  eexists (inr _), [_]. intros w.
  unfold bind, poolGet, poolPut, emit, ret, Reset.
  destruct (bufferPool w); cbn; split; reflexivity.
Qed.

Lemma decodeImage_calls_Decode (imageData : list Byte.byte) (w : World) :
  exists evs, events (snd (decodeImage Decode imageData w)) = events w ++ CallDecode :: evs.
Proof.
  exists []. unfold decodeImage, bind, emit, fail, ret. cbn.
  destruct (Decode imageData) as [[[img | ] format] | ]; cbn; try reflexivity.
  destruct ((Dx (Bounds img) <=? 0) || (Dy (Bounds img) <=? 0)); reflexivity.
Qed.

Lemma bind_events_first {A B : Type} (c : M A) (k : A -> M B) (w : World) (e : Event) :
  (exists evs, events (snd (c w)) = events w ++ e :: evs) ->
  (forall a, worldIndependent (k a)) ->
  exists evs, events (snd (bind c k w)) = events w ++ e :: evs.
Proof.
  intros [evs Hc] Hk. unfold bind.
  destruct (c w) as [[err | a] w'] eqn:Hcw; cbn [snd] in *.
  - exists evs. exact Hc.
  - destruct (wi_events (k a) w' (Hk a)) as [evs' Hk']. exists (evs ++ evs').
    rewrite Hk', Hc, <- app_assoc. reflexivity.
Qed.

Lemma wi_afterDecode (opts : Options) (decoded : Image * string) :
  worldIndependent
    (let '(img, format) := decoded in
     emit (PrintDecoded format) ;;;
     processedImg <- processImage undef Resize AdjustBrightness AdjustContrast
                       SharpenImage img opts ;;
     asciiString <- convertToASCII undef Image2ASCIIString processedImg (TargetWidth opts) ;;
     styledText <- parseANSI Parse asciiString ;;
     svgString <- renderToSVG svgo styledText (BackgroundColor opts) ;;
     if len svgString >? MaxOutputSize then fail (ErrOutputTooLarge (len svgString))
     else ret svgString).
Proof.
  destruct decoded as [img format].
  apply wi_bind; [apply wi_emit | intros _ ].
  apply wi_bind; [apply wi_processImage | intros processedImg ].
  apply wi_bind; [apply wi_convertToASCII | intros asciiString ].
  apply wi_bind; [apply wi_parseANSI | intros styledText ].
  apply wi_bind; [apply wi_renderToSVG | intros svgString ].
  apply wi_if; [apply wi_fail | apply wi_ret].
Qed.

Lemma wi_ProcessImageToSVG (imageData : list Byte.byte) (opts : Options) :
  worldIndependent
    (ProcessImageToSVG undef Decode Resize AdjustBrightness AdjustContrast SharpenImage
                       Image2ASCIIString Parse svgo imageData opts).
Proof.
  unfold ProcessImageToSVG.
  destruct (validateInput imageData opts); [apply wi_fail | ].
  apply wi_bind; [apply wi_decodeImage | intros decoded; apply wi_afterDecode ].
Qed.

(** C7. The three checks of the entry point are made in this order: empty
    image bytes, bytes beyond 50 MiB, a target width that is not positive.
    When one fails the whole run returns its error and leaves the world as it
    was: nothing is decoded, transformed or printed.  When all pass, the
    first thing the run does is the call of the decoder. *)
Theorem validation_fail_fast (imageData : list Byte.byte) (opts : Options) (w : World) :
  let run := ProcessImageToSVG undef Decode Resize AdjustBrightness AdjustContrast
               SharpenImage Image2ASCIIString Parse svgo in
  validateInput imageData opts
  = (if llen imageData =? 0 then Some ErrImageDataEmpty
     else if llen imageData >? 50 * 1024 * 1024
          then Some (ErrImageDataTooLarge (llen imageData))
     else if TargetWidth opts <=? 0 then Some ErrTargetWidthNotPositive
     else None)
  /\ match validateInput imageData opts with
     | Some err => run imageData opts w = (inl err, w)
     | None => exists evs, events (snd (run imageData opts w)) = events w ++ CallDecode :: evs
     end.
Proof.
  split; [reflexivity | ].
  unfold ProcessImageToSVG.
  destruct (validateInput imageData opts) as [err | ]; [reflexivity | ].
  apply bind_events_first; [apply decodeImage_calls_Decode | ].
  intros decoded. apply wi_afterDecode.
Qed.

(** C9. The result of the pipeline, a document or an error, is a function of
    the image bytes and the options alone: it is the same in any two worlds,
    whatever the buffers of the pool hold, and so the same when the pipeline
    is run a second time after a first run; the events of the two runs are
    the same too. *)
Theorem pipeline_deterministic (imageData : list Byte.byte) (opts : Options)
        (w1 w2 : World) :
  let run := ProcessImageToSVG undef Decode Resize AdjustBrightness AdjustContrast
               SharpenImage Image2ASCIIString Parse svgo imageData opts in
  fst (run w1) = fst (run w2)
  /\ fst (run (snd (run w1))) = fst (run w1)
  /\ exists evs, events (snd (run w1)) = events w1 ++ evs
                 /\ events (snd (run w2)) = events w2 ++ evs.
Proof.
  cbv zeta.
  destruct (wi_ProcessImageToSVG imageData opts) as (r & evs & H).
  repeat split.
  - rewrite (proj1 (H w1)), (proj1 (H w2)). reflexivity.
  - rewrite !(proj1 (H _)). reflexivity.
  - exists evs. split; apply H.
Qed.

End Effects.

(** ** Canvas geometry *)

Lemma len_nonneg (s : string) : 0 <= len s.
Proof. unfold len. lia. Qed.

Lemma charCount_nonneg (line : list StyledText) : 0 <= charCount line.
Proof.
  unfold charCount.
  induction line as [ | run line IH]; cbn [fold_right]; [lia | ].
  pose proof (len_nonneg (Label run)). lia.
Qed.

Lemma lineLength_charCount (line : list StyledText) : lineLength line = charCount line.
Proof.
  unfold lineLength.
  enough (H : forall a, fold_left (fun n run => n + len (Label run)) line a
                        = a + charCount line) by (rewrite H; lia).
  unfold charCount.
  induction line as [ | run line IH]; intros a; cbn [fold_left fold_right]; [lia | ].
  rewrite IH. lia.
Qed.

Lemma maximum_nonneg (l : list Z) : 0 <= maximum l.
Proof. unfold maximum. induction l as [ | x l IH]; cbn [fold_right]; lia. Qed.

Lemma maxLineLengthOf_maximum (lines : list (list StyledText)) :
  maxLineLengthOf lines = maximum (map charCount lines).
Proof.
  unfold maxLineLengthOf.
  enough (H : forall a, 0 <= a ->
            fold_left (fun m line => if lineLength line >? m then lineLength line else m)
                      lines a
            = Z.max a (maximum (map charCount lines))).
  { rewrite H by lia. pose proof (maximum_nonneg (map charCount lines)). lia. }
  induction lines as [ | line lines IH]; intros a Ha; cbn [fold_left map maximum fold_right].
  - lia.
  - rewrite lineLength_charCount. pose proof (charCount_nonneg line).
    change (fold_right Z.max 0 (map charCount lines)) with (maximum (map charCount lines)).
    destruct (Z.gtb_spec (charCount line) a); rewrite IH by lia; lia.
Qed.

(** C5. The canvas is as wide as the longest line, counted in characters
    (the sum over the runs of the line), times the width of a glyph cell,
    plus the left and right padding, and as high as the number of lines times
    the line height plus the top and bottom padding; a width or height that
    would be zero or negative is replaced by one cell plus the padding, so
    both are positive.  A nil input of the renderer is an error and leaves
    the world as it was; an empty one gives the canvas of floor dimensions. *)
Theorem canvas_geometry (svgo : SvgCall -> string) (lines : list (list StyledText))
        (backgroundColor : string) (w : World) :
  let width := maximum (map charCount lines) * charWidth + paddingLeft + paddingRight in
  let height := llen lines * lineHeight + paddingTop + paddingBottom in
  calculateSVGDimensions lines
  = (if width <=? 0 then charWidth + paddingLeft + paddingRight else width,
     if height <=? 0 then lineHeight + paddingTop + paddingBottom else height)
  /\ 0 < fst (calculateSVGDimensions lines)
  /\ 0 < snd (calculateSVGDimensions lines)
  /\ renderToSVG svgo None backgroundColor w = (inl ErrStyledTextNil, w)
  /\ fst (renderToSVG svgo (Some []) backgroundColor w)
     = inr (written svgo EmptyString
              [SvgStart (charWidth + paddingLeft + paddingRight)
                        (lineHeight + paddingTop + paddingBottom);
               SvgRect 0 0 (charWidth + paddingLeft + paddingRight)
                       (lineHeight + paddingTop + paddingBottom)
                       ("fill:" ++ backgroundColor)%string;
               SvgEnd]).
Proof.
  cbv zeta.
  assert (Heq : calculateSVGDimensions lines
                = (if maximum (map charCount lines) * charWidth + paddingLeft + paddingRight <=? 0
                   then charWidth + paddingLeft + paddingRight
                   else maximum (map charCount lines) * charWidth + paddingLeft + paddingRight,
                   if llen lines * lineHeight + paddingTop + paddingBottom <=? 0
                   then lineHeight + paddingTop + paddingBottom
                   else llen lines * lineHeight + paddingTop + paddingBottom)).
  { unfold calculateSVGDimensions. rewrite maxLineLengthOf_maximum. reflexivity. }
  split; [exact Heq | ].
  rewrite Heq. cbn [fst snd].
  pose proof (maximum_nonneg (map charCount lines)) as Hm.
  assert (Hn : 0 <= llen lines) by (unfold llen; lia).
  unfold charWidth, lineHeight, paddingLeft, paddingRight, paddingTop, paddingBottom.
  repeat split.
  - destruct (Z.leb_spec (maximum (map charCount lines) * 16 + 1 + -6) 0); lia.
  - destruct (Z.leb_spec (llen lines * 16 + -2 + 2) 0); lia.
  - unfold renderToSVG, bind, poolGet, poolPut, emit, ret, Reset. cbn.
    destruct (bufferPool w); reflexivity.
Qed.

(** ** Rendering of runs *)

Lemma renderRun_fold (yPos : Z) (line : list StyledText) (calls : list SvgCall) (x : Z) :
  fold_left (renderRun yPos) line (calls, x)
  = (calls ++ lineTexts yPos x line, x + charCount line * charWidth).
Proof.
  revert calls x.
  induction line as [ | run line IH]; intros calls x.
  - cbn. rewrite app_nil_r. f_equal. lia.
  - cbn [fold_left lineTexts]. unfold charCount in *. cbn [fold_right].
    unfold renderRun at 2, drawn.
    destruct (String.eqb_spec (Label run) "") as [He | He].
    + rewrite IH, !He. change (len "") with 0.
      rewrite Z.mul_0_l, Z.add_0_r. cbn [negb andb app]. reflexivity.
    + destruct (String.eqb_spec (Label run) " ") as [Hs | Hs].
      * rewrite IH, !Hs. change (len " " * charWidth) with charWidth.
        cbn [negb andb app]. f_equal. change (len " ") with 1. lia.
      * rewrite IH. cbn [negb andb]. rewrite <- app_assoc. f_equal. lia.
Qed.

(** C3, as the code has it. The runs of a line are handled from left to
    right.  A run with an empty label changes nothing.  A run whose label is
    exactly one space moves the cursor by one cell and draws nothing.  Every
    other run, a run of several spaces too, draws one text element at the
    cursor, with the label of the run and the fill colour of the run
    ([#FFFFFF] when the run has no colour or an empty one), and moves the
    cursor by the length of the label times the cell width.  So the text
    element of a drawn run stands after the characters of all the runs
    before it. *)
Theorem renderLine_runs (yPos startX : Z) (before after : list StyledText)
        (run : StyledText) (calls : list SvgCall) (x : Z) :
  renderRun yPos (calls, x) run
  = (if String.eqb (Label run) "" then (calls, x)
     else if String.eqb (Label run) " " then (calls, x + charWidth)
     else (calls ++ [SvgText x yPos (Label run)
                       ("fill:"
                        ++ match FgCol run with
                           | Some col => if String.eqb (Hex col) "" then "#FFFFFF" else Hex col
                           | None => "#FFFFFF"
                           end
                        ++ "; font-family:monospace; font-size:16px; dominant-baseline:text-before-edge")%string],
           x + len (Label run) * charWidth))
  /\ renderLine (before ++ run :: after) yPos startX
     = renderLine before yPos startX
       ++ (if drawn run
           then [SvgText (startX + charCount before * charWidth) yPos (Label run)
                         (textStyle (textColorOf run))]
           else [])
       ++ renderLine after yPos (startX + charCount (before ++ [run]) * charWidth)
  /\ snd (fold_left (renderRun yPos) (before ++ run :: after) ([], startX))
     = startX + charCount (before ++ run :: after) * charWidth.
Proof.
  split; [reflexivity | ].
  unfold renderLine. rewrite !renderRun_fold. cbn [fst snd app].
  split; [ | reflexivity].
  assert (Happ : forall l x0, lineTexts yPos x0 (before ++ l)
                 = lineTexts yPos x0 before
                   ++ lineTexts yPos (x0 + charCount before * charWidth) l).
  { intros l. unfold charCount. induction before as [ | b before' IH]; intros x0.
    - cbn. f_equal. lia.
    - cbn [app lineTexts fold_right]. rewrite IH, <- app_assoc. do 3 f_equal. lia. }
  rewrite Happ. f_equal. cbn [lineTexts]. do 2 f_equal.
  unfold charCount. rewrite fold_right_app. cbn [fold_right].
  assert (Hs : forall l a, fold_right (fun r n => len (Label r) + n) a l
                           = fold_right (fun r n => len (Label r) + n) 0 l + a).
  { induction l as [ | r l IH]; intros a; cbn [fold_right]; [lia | rewrite IH; lia]. }
  rewrite (Hs before (len (Label run) + 0)). lia.
Qed.

(** C3, as it is stated, fails: a run of two spaces is space-only, yet the
    code draws a text element for it. *)
Lemma renderLine_draws_spaces :
  let run := mkStyledText "  " None None 0 0 0 0 in
  spaceOnly (Label run) = true
  /\ renderLine [run] 0 1 = [SvgText 1 0 "  " (textStyle "#FFFFFF")].
Proof. split; reflexivity. Qed.

(** C10. The style of the background rectangle is the text [fill:] followed
    by the background colour as it was given: the second call on the canvas
    draws the rectangle over the whole canvas with this style, and the
    document returned is what the canvas wrote for its calls.  Nothing parses
    the colour: [#abc] stays [#abc] though as a transparency colour it is
    read as [#aabbcc], and a text that is no colour stays as it is though as
    a transparency colour it is replaced by white. *)
Theorem background_verbatim (svgo : SvgCall -> string)
        (styledText : list (option StyledText)) (backgroundColor : string) (w : World) :
  let dims := calculateSVGDimensions (splitStyledTextByLine styledText) in
  fst (renderToSVG svgo (Some styledText) backgroundColor w)
  = inr (written svgo EmptyString (svgCalls styledText backgroundColor))
  /\ firstn 2 (svgCalls styledText backgroundColor)
     = [SvgStart (fst dims) (snd dims);
        SvgRect 0 0 (fst dims) (snd dims) ("fill:" ++ backgroundColor)%string]
  /\ nth 1 (svgCalls styledText "#abc") SvgEnd
     = SvgRect 0 0 (fst dims) (snd dims) "fill:#abc"
  /\ substituteColor "#abc" = substituteColor "#aabbcc"
  /\ nth 1 (svgCalls styledText "no colour") SvgEnd
     = SvgRect 0 0 (fst dims) (snd dims) "fill:no colour"
  /\ substituteColor "no colour" = White.
Proof.
  cbv zeta. unfold svgCalls.
  destruct (calculateSVGDimensions (splitStyledTextByLine styledText)) as [sw sh] eqn:Hd.
  repeat split.
  unfold renderToSVG, bind, poolGet, poolPut, emit, ret, Reset, svgCalls.
  rewrite Hd. destruct (bufferPool w); reflexivity.
Qed.

(** ** Line splitting *)

Lemma sapp_nil_r (s : string) : (s ++ "")%string = s.
Proof. induction s as [ | c s IH]; cbn; [reflexivity | rewrite IH; reflexivity]. Qed.

Lemma sapp_assoc (a b c : string) : ((a ++ b) ++ c)%string = (a ++ (b ++ c))%string.
Proof. induction a as [ | x a IH]; cbn; [reflexivity | rewrite IH; reflexivity]. Qed.

Lemma SplitLines_not_nil (s : string) : SplitLines s <> [].
Proof.
  destruct s as [ | c s]; cbn; [discriminate | ].
  destruct (Ascii.eqb c newline); [discriminate | ].
  destruct (SplitLines s); discriminate.
Qed.

Lemma SplitLines_no_newline (s : string) :
  Forall (fun p => hasNewline p = false) (SplitLines s).
Proof.
  induction s as [ | c s IH]; cbn [SplitLines].
  - constructor; [reflexivity | constructor].
  - destruct (Ascii.eqb c newline) eqn:Hc.
    + constructor; [reflexivity | exact IH].
    + destruct (SplitLines s) as [ | p ps].
      * constructor; [cbn; rewrite Hc; reflexivity | constructor].
      * inversion IH as [ | ? ? Hp Hps]; subst.
        constructor; [cbn; rewrite Hc; exact Hp | exact Hps].
Qed.

Lemma joinLines_cons (c : ascii) (p : string) (ps : list string) :
  joinLines (String c p :: ps) = String c (joinLines (p :: ps)).
Proof. destruct ps; reflexivity. Qed.

Lemma joinLines_SplitLines (s : string) : joinLines (SplitLines s) = s.
Proof.
  induction s as [ | c s IH]; cbn [SplitLines]; [reflexivity | ].
  pose proof (SplitLines_not_nil s) as Hne.
  destruct (Ascii.eqb_spec c newline) as [Hc | Hc].
  - subst c. destruct (SplitLines s) as [ | p ps]; [congruence | ].
    cbn [joinLines append] in *. rewrite IH. reflexivity.
  - destruct (SplitLines s) as [ | p ps]; [congruence | ].
    rewrite joinLines_cons, IH. reflexivity.
Qed.

Lemma SplitLines_line (a s : string) :
  hasNewline a = false -> SplitLines (a ++ String newline s) = a :: SplitLines s.
Proof.
  induction a as [ | c a IH]; intros Ha.
  - reflexivity.
  - cbn in Ha. apply orb_false_iff in Ha as [Hc Ha].
    cbn [append SplitLines]. rewrite Hc, (IH Ha). reflexivity.
Qed.

Lemma SplitLines_last (a : string) : hasNewline a = false -> SplitLines a = [a].
Proof.
  induction a as [ | c a IH]; intros Ha; [reflexivity | ].
  cbn in Ha. apply orb_false_iff in Ha as [Hc Ha].
  cbn [SplitLines]. rewrite Hc, (IH Ha). reflexivity.
Qed.

Lemma hasNewline_app (a b : string) :
  hasNewline (a ++ b) = hasNewline a || hasNewline b.
Proof.
  induction a as [ | c a IH]; cbn; [reflexivity | rewrite IH, orb_assoc; reflexivity].
Qed.

Lemma lineText_app (l1 l2 : list StyledText) :
  lineText (l1 ++ l2) = (lineText l1 ++ lineText l2)%string.
Proof.
  unfold lineText. induction l1 as [ | r l1 IH]; cbn [app fold_right]; [reflexivity | ].
  rewrite IH, sapp_assoc. reflexivity.
Qed.

Lemma linesText_snoc (lines : list (list StyledText)) (l : list StyledText) (tail : string) :
  linesText (lines ++ [l]) tail = linesText lines (lineText l ++ String newline tail).
Proof. unfold linesText. rewrite fold_right_app. reflexivity. Qed.

Lemma linesText_tail (lines : list (list StyledText)) (t1 t2 : string) :
  linesText lines (t1 ++ t2) = (linesText lines t1 ++ t2)%string.
Proof.
  unfold linesText. induction lines as [ | l lines IH]; cbn [fold_right]; [reflexivity | ].
  rewrite IH, sapp_assoc. reflexivity.
Qed.

Lemma lineText_addPart (block : StyledText) (cur : list StyledText) (part : string) :
  lineText (addPart block cur part) = (lineText cur ++ part)%string.
Proof.
  unfold addPart. destruct (String.eqb_spec part "") as [-> | Hp].
  - rewrite sapp_nil_r. reflexivity.
  - rewrite lineText_app. cbn. rewrite sapp_nil_r. reflexivity.
Qed.

Lemma splitParts_eq (block : StyledText) (part : string) (rest : list string)
      (lines : list (list StyledText)) (cur : list StyledText) :
  splitParts block (part :: rest) (lines, cur)
  = match rest with
    | [] => (lines, addPart block cur part)
    | _ :: _ => splitParts block rest (lines ++ [addPart block cur part], [])
    end.
Proof. reflexivity. Qed.

Lemma splitParts_text (block : StyledText) (parts : list string) :
  forall lines cur,
    scannedText (splitParts block parts (lines, cur))
    = (scannedText (lines, cur) ++ joinLines parts)%string.
Proof.
  unfold scannedText.
  induction parts as [ | p rest IH]; intros lines cur.
  - cbn [splitParts joinLines fst snd]. rewrite sapp_nil_r. reflexivity.
  - rewrite splitParts_eq. destruct rest as [ | q rest].
    + cbn [fst snd joinLines]. rewrite lineText_addPart, linesText_tail. reflexivity.
    + rewrite IH. cbn [fst snd]. rewrite linesText_snoc, lineText_addPart.
      change (lineText []) with EmptyString.
      change (joinLines (p :: q :: rest))
        with (p ++ String newline (joinLines (q :: rest)))%string.
      rewrite <- !linesText_tail, !sapp_assoc. reflexivity.
Qed.

Lemma fold_splitBlock_text (styledText : list (option StyledText)) :
  forall st, scannedText (fold_left splitBlock styledText st)
             = (scannedText st ++ blocksText styledText)%string.
Proof.
  induction styledText as [ | block bs IH]; intros st; cbn [fold_left blocksText fold_right].
  - rewrite sapp_nil_r. reflexivity.
  - rewrite IH. destruct block as [b | ]; cbn [splitBlock]; [ | reflexivity].
    destruct st as [lines cur].
    rewrite splitParts_text, joinLines_SplitLines, sapp_assoc. reflexivity.
Qed.

Section Fragments.

Variable styledText : list (option StyledText).

Lemma addPart_fragments (block : StyledText) (cur : list StyledText) (part : string) :
  In (Some block) styledText -> hasNewline part = false ->
  Forall (fragmentOf styledText) cur -> Forall (fragmentOf styledText) (addPart block cur part).
Proof.
  intros Hin Hnl Hcur. unfold addPart.
  destruct (String.eqb_spec part "") as [-> | Hp]; [exact Hcur | ].
  apply Forall_app. split; [exact Hcur | ].
  constructor; [ | constructor].
  repeat split; cbn; try assumption. exists block. repeat split; assumption.
Qed.

Lemma splitParts_fragments (block : StyledText) (parts : list string) :
  In (Some block) styledText -> Forall (fun p => hasNewline p = false) parts ->
  forall lines cur,
    Forall (Forall (fragmentOf styledText)) lines -> Forall (fragmentOf styledText) cur ->
    Forall (Forall (fragmentOf styledText)) (fst (splitParts block parts (lines, cur)))
    /\ Forall (fragmentOf styledText) (snd (splitParts block parts (lines, cur))).
Proof.
  intros Hin. induction parts as [ | p rest IH]; intros Hparts lines cur Hl Hc.
  - split; assumption.
  - inversion Hparts as [ | ? ? Hp Hrest]; subst.
    rewrite splitParts_eq. destruct rest as [ | q rest].
    + split; [exact Hl | apply addPart_fragments; assumption].
    + apply IH; [exact Hrest | | constructor].
      apply Forall_app. split; [exact Hl | ].
      constructor; [apply addPart_fragments; assumption | constructor].
Qed.

Lemma fold_splitBlock_fragments (blocks : list (option StyledText)) :
  (forall b, In b blocks -> In b styledText) ->
  forall st,
    Forall (Forall (fragmentOf styledText)) (fst st) -> Forall (fragmentOf styledText) (snd st) ->
    Forall (Forall (fragmentOf styledText)) (fst (fold_left splitBlock blocks st))
    /\ Forall (fragmentOf styledText) (snd (fold_left splitBlock blocks st)).
Proof.
  induction blocks as [ | block bs IH]; intros Hsub st Hl Hc; cbn [fold_left].
  - split; assumption.
  - assert (Hsub' : forall b, In b bs -> In b styledText)
      by (intros b Hb; apply Hsub; right; exact Hb).
    destruct block as [b | ]; cbn [splitBlock]; [ | apply IH; assumption].
    destruct st as [lines cur]. cbn [fst snd] in *.
    destruct (splitParts_fragments b (SplitLines (Label b))
                (Hsub (Some b) (or_introl eq_refl)) (SplitLines_no_newline _)
                lines cur Hl Hc) as [Hl' Hc'].
    apply IH; assumption.
Qed.

Lemma fragments_lineText (line : list StyledText) :
  Forall (fragmentOf styledText) line -> hasNewline (lineText line) = false.
Proof.
  unfold lineText. induction 1 as [ | r line Hr _ IH]; cbn [fold_right]; [reflexivity | ].
  rewrite hasNewline_app, IH. destruct Hr as (_ & Hnl & _). rewrite Hnl. reflexivity.
Qed.

Lemma fragments_lineText_empty (line : list StyledText) :
  Forall (fragmentOf styledText) line -> lineText line = EmptyString -> line = [].
Proof.
  intros Hf Ht. destruct line as [ | r line]; [reflexivity | ].
  inversion Hf as [ | ? ? (Hne & _) _]; subst.
  unfold lineText in Ht. cbn [fold_right] in Ht.
  destruct (Label r); [congruence | discriminate].
Qed.

Lemma SplitLines_scannedText (lines : list (list StyledText)) (cur : list StyledText) :
  Forall (Forall (fragmentOf styledText)) lines -> Forall (fragmentOf styledText) cur ->
  SplitLines (scannedText (lines, cur)) = map lineText lines ++ [lineText cur].
Proof.
  unfold scannedText, linesText. cbn [fst snd]. intros Hl Hc.
  induction Hl as [ | l lines Hline _ IH]; cbn [fold_right map app].
  - apply SplitLines_last, fragments_lineText, Hc.
  - rewrite SplitLines_line by (apply fragments_lineText, Hline). rewrite IH. reflexivity.
Qed.

End Fragments.

Lemma withoutEmptyLast_snoc (parts : list string) (p : string) :
  withoutEmptyLast (parts ++ [p]) = if String.eqb p "" then parts else parts ++ [p].
Proof.
  induction parts as [ | q parts IH]; [reflexivity | ].
  cbn [app]. destruct (parts ++ [p]) as [ | x xs] eqn:Hx.
  - destruct parts; discriminate.
  - change (withoutEmptyLast (q :: x :: xs)) with (q :: withoutEmptyLast (x :: xs)).
    rewrite IH. destruct (String.eqb p ""); reflexivity.
Qed.

Lemma renderLines_fold (lines : list (list StyledText)) (calls : list SvgCall) (yPos : Z) :
  fold_left (fun st line =>
               let '(calls, yPos) := st in
               (calls ++ renderLine line yPos paddingLeft, yPos + lineHeight))
            lines (calls, yPos)
  = (calls ++ linesTexts yPos lines, yPos + llen lines * lineHeight).
Proof.
  revert calls yPos. unfold llen.
  induction lines as [ | line lines IH]; intros calls yPos.
  - cbn. rewrite app_nil_r. f_equal. lia.
  - cbn [fold_left linesTexts]. rewrite IH. unfold renderLine.
    rewrite renderRun_fold. cbn [fst app]. rewrite <- app_assoc.
    f_equal. cbn [List.length]. lia.
Qed.

(** C4. The texts of the lines are the parts of the whole text of the blocks
    between its newlines, so a label holding newlines is split at each of
    them, the text before a newline ends the current line and the text after
    it begins a new one; the last part is a line of its own when it is not
    empty, with or without a newline at the end of the text.  Every run of a
    line is a fragment of a block: not empty, free of newlines, with the
    colours and style of its block.  A part between two newlines that is
    empty gives an empty line, and the renderer gives every line, empty or
    not, its own row: each line is drawn one line height below the line
    before it. *)
Theorem split_by_line (styledText : list (option StyledText)) :
  let lines := splitStyledTextByLine styledText in
  map lineText lines = withoutEmptyLast (SplitLines (blocksText styledText))
  /\ Forall (Forall (fragmentOf styledText)) lines
  /\ renderLines lines = (linesTexts paddingTop lines, paddingTop + llen lines * lineHeight)
  /\ (let block s := Some (mkStyledText s None None 0 0 0 0) in
      let run s := mkStyledText s None None 0 0 0 0 in
      let example := [block (String "a" (String newline EmptyString));
                      block (String newline (String "b" EmptyString))] in
      splitStyledTextByLine example = [[run "a"]; []; [run "b"]]
      /\ fst (renderLines (splitStyledTextByLine example))
         = [SvgText paddingLeft paddingTop "a" (textStyle "#FFFFFF");
            SvgText paddingLeft (paddingTop + 2 * lineHeight) "b" (textStyle "#FFFFFF")]).
Proof.
  cbv zeta. split; [ | split; [ | split; [ | split; reflexivity]]].
  - unfold splitStyledTextByLine.
    pose proof (fold_splitBlock_text styledText ([], [])) as Ht.
    destruct (fold_splitBlock_fragments styledText styledText (fun b H => H) ([], [])
                (Forall_nil _) (Forall_nil _)) as [Hl Hc].
    destruct (fold_left splitBlock styledText ([], [])) as [lines cur].
    cbn [fst snd] in Hl, Hc.
    change (scannedText ([], [])) with EmptyString in Ht. cbn [append] in Ht.
    rewrite <- Ht, (SplitLines_scannedText styledText lines cur Hl Hc), withoutEmptyLast_snoc.
    destruct cur as [ | r cur].
    + reflexivity.
    + replace (llen (r :: cur) >? 0) with true
        by (symmetry; apply Z.gtb_lt; unfold llen; cbn [List.length]; lia).
      rewrite map_app. cbn [map].
      destruct (String.eqb_spec (lineText (r :: cur)) "") as [He | He]; [ | reflexivity].
      apply (fragments_lineText_empty styledText _ Hc) in He. discriminate He.
  - unfold splitStyledTextByLine.
    destruct (fold_splitBlock_fragments styledText styledText (fun b H => H) ([], [])
                (Forall_nil _) (Forall_nil _)) as [Hl Hc].
    destruct (fold_left splitBlock styledText ([], [])) as [lines cur].
    cbn [fst snd] in Hl, Hc.
    destruct (llen cur >? 0); [ | exact Hl].
    apply Forall_app. split; [exact Hl | constructor; [exact Hc | constructor]].
  - unfold renderLines. rewrite renderLines_fold. reflexivity.
Qed.

(** ** Transparency compositing *)

Lemma existsb_range (lo hi x : Z) :
  existsb (Z.eqb x) (range lo hi) = (lo <=? x) && (x <? hi).
Proof.
  unfold range.
  destruct (existsb (Z.eqb x) (map (fun i => lo + Z.of_nat i) (seq 0 (Z.to_nat (hi - lo)))))
    eqn:He.
  - apply existsb_exists in He as (v & Hv & Hx). apply Z.eqb_eq in Hx. subst v.
    apply in_map_iff in Hv as (i & Hi & Hin). apply in_seq in Hin.
    symmetry. apply andb_true_iff. split; [apply Z.leb_le | apply Z.ltb_lt]; lia.
  - symmetry. apply not_true_is_false. intros Hc.
    apply andb_true_iff in Hc as [H1 H2]. apply Z.leb_le in H1. apply Z.ltb_lt in H2.
    assert (Hex : existsb (Z.eqb x) (map (fun i => lo + Z.of_nat i)
                                         (seq 0 (Z.to_nat (hi - lo)))) = true).
    { apply existsb_exists. exists x. split; [ | apply Z.eqb_refl].
      apply in_map_iff. exists (Z.to_nat (x - lo)). split; [lia | ].
      apply in_seq. lia. }
    congruence.
Qed.

Section Loops.

(** The colour the loops hand to [Set] at each point. *)
Variable c : Z -> Z -> Color.

Lemma inner_loop (y : Z) (xs : list Z) :
  forall p,
    let p' := fold_left (fun result x => RGBA_Set result x y (c x y)) xs p in
    Rect p' = Rect p
    /\ forall x' y', Pix p' x' y'
                     = if (y' =? y) && existsb (Z.eqb x') xs && inRect x' y' (Rect p)
                       then rgbaModel (c x' y') else Pix p x' y'.
Proof.
  induction xs as [ | x xs IH]; intros p; cbn zeta; cbn [fold_left existsb].
  - split; [reflexivity | ]. intros x' y'. rewrite andb_false_r. reflexivity.
  - destruct (IH (RGBA_Set p x y (c x y))) as [HR HP]. cbn zeta in HR, HP.
    assert (HRs : Rect (RGBA_Set p x y (c x y)) = Rect p)
      by (unfold RGBA_Set; destruct (inRect x y (Rect p)); reflexivity).
    split; [rewrite HR; exact HRs | ].
    intros x' y'. rewrite HP, HRs. unfold RGBA_Set.
    destruct (Z.eqb_spec y' y) as [-> | Hy]; cbn [andb].
    + destruct (Z.eqb_spec x' x) as [-> | Hx]; cbn [orb andb].
      * destruct (existsb (Z.eqb x) xs); cbn [andb];
          destruct (inRect x y (Rect p)) eqn:Hin; cbn [Pix]; try reflexivity.
        rewrite !Z.eqb_refl. reflexivity.
      * destruct (existsb (Z.eqb x') xs); cbn [andb];
          destruct (inRect x' y (Rect p)); try reflexivity;
          destruct (inRect x y (Rect p)); cbn [Pix]; try reflexivity;
          rewrite (proj2 (Z.eqb_neq x' x) Hx); reflexivity.
    + destruct (inRect x y (Rect p)); cbn [Pix]; try reflexivity.
      rewrite (proj2 (Z.eqb_neq y' y) Hy), andb_false_r. reflexivity.
Qed.

Lemma outer_loop (xs ys : list Z) :
  forall p,
    let p' := fold_left
                (fun result y =>
                   fold_left (fun result x => RGBA_Set result x y (c x y)) xs result)
                ys p in
    Rect p' = Rect p
    /\ forall x' y', Pix p' x' y'
                     = if existsb (Z.eqb y') ys && existsb (Z.eqb x') xs
                          && inRect x' y' (Rect p)
                       then rgbaModel (c x' y') else Pix p x' y'.
Proof.
  induction ys as [ | y ys IH]; intros p; cbn zeta; cbn [fold_left existsb].
  - split; reflexivity.
  - destruct (inner_loop y xs p) as [HRi HPi]. cbn zeta in HRi, HPi.
    destruct (IH (fold_left (fun result x => RGBA_Set result x y (c x y)) xs p))
      as [HR HP]. cbn zeta in HR, HP.
    split; [rewrite HR; exact HRi | ].
    intros x' y'. rewrite HP, HRi, HPi.
    destruct (Z.eqb_spec y' y) as [-> | Hy]; cbn [orb andb].
    + destruct (existsb (Z.eqb y) ys); cbn [andb];
        destruct (existsb (Z.eqb x') xs); cbn [andb]; try reflexivity.
      destruct (inRect x' y (Rect p)); reflexivity.
    + reflexivity.
Qed.

End Loops.

(** Every point of the bounds is set once, to the converted colour of the
    body of the loops. *)
Lemma handleTransparency_At (undef : float64 -> Z) (img : Image) (colorStr : string)
      (threshold : float64) (x y : Z) :
  inRect x y (Bounds img) = true ->
  RGBA_At (handleTransparency undef img colorStr threshold) x y
  = rgbaModel (compositeColor undef (substituteColor colorStr)
                              (alphaThresholdOf undef threshold) (At img x y)).
Proof.
  intros Hin. unfold handleTransparency, RGBA_At.
  destruct (outer_loop
              (fun x y => compositeColor undef (substituteColor colorStr)
                                         (alphaThresholdOf undef threshold) (At img x y))
              (range (MinX (Bounds img)) (MaxX (Bounds img)))
              (range (MinY (Bounds img)) (MaxY (Bounds img)))
              (NewRGBA (Bounds img))) as [HR HP].
  cbn zeta in HR, HP. rewrite HR, HP. cbn [NewRGBA Rect]. rewrite Hin.
  rewrite !existsb_range.
  unfold inRect in Hin.
  apply andb_true_iff in Hin as [Hin Hy2]. apply andb_true_iff in Hin as [Hin Hy1].
  apply andb_true_iff in Hin as [Hx1 Hx2].
  rewrite Hx1, Hx2, Hy1, Hy2. reflexivity.
Qed.

(** *** The substitute colour *)

Ltac each_byte c :=
  let b0 := fresh in let b1 := fresh in let b2 := fresh in let b3 := fresh in
  let b4 := fresh in let b5 := fresh in let b6 := fresh in let b7 := fresh in
  destruct c as [b0 b1 b2 b3 b4 b5 b6 b7];
  destruct b0, b1, b2, b3, b4, b5, b6, b7.

Lemma hexDigit_spec (c : ascii) :
  hexDigit c = if isHexDigit c then Some (hexValue c) else None.
Proof. each_byte c; reflexivity. Qed.

Lemma hexValue_bound (c : ascii) :
  isHexDigit c = true -> 0 <= hexValue c < 16.
Proof.
  intros H.
  assert (Hb : negb (isHexDigit c) || ((0 <=? hexValue c) && (hexValue c <? 16)) = true)
    by (each_byte c; reflexivity).
  rewrite H in Hb. cbn [negb orb] in Hb.
  apply andb_true_iff in Hb as [H0 H1]. apply Z.leb_le in H0. apply Z.ltb_lt in H1. lia.
Qed.

Lemma hex_not_sign (c : ascii) : isHexDigit c = true -> isSign c = false.
Proof.
  intros H.
  assert (Hb : negb (isHexDigit c) || negb (isSign c) = true) by (each_byte c; reflexivity).
  rewrite H in Hb. cbn [negb orb] in Hb. apply negb_true_iff in Hb. exact Hb.
Qed.

Lemma parseUintDigits_one (acc : Z) (c : ascii) :
  0 <= acc < 256 ->
  parseUintDigits acc (String c EmptyString)
  = if isHexDigit c then Some (acc * 16 + hexValue c) else None.
Proof.
  intros Hacc. cbn [parseUintDigits]. rewrite hexDigit_spec.
  destruct (isHexDigit c) eqn:Hc; [ | reflexivity].
  pose proof (hexValue_bound c Hc).
  destruct (Z.geb_spec (acc * 16 + hexValue c) (2 ^ 64)); [lia | reflexivity].
Qed.

Lemma parseUintDigits_two (c0 c1 : ascii) :
  parseUintDigits 0 (String c0 (String c1 EmptyString))
  = if isHexDigit c0 && isHexDigit c1 then Some (16 * hexValue c0 + hexValue c1) else None.
Proof.
  cbn [parseUintDigits]. rewrite hexDigit_spec.
  destruct (isHexDigit c0) eqn:H0; [ | reflexivity].
  pose proof (hexValue_bound c0 H0).
  destruct (Z.geb_spec (0 * 16 + hexValue c0) (2 ^ 64)); [lia | ].
  rewrite hexDigit_spec. cbn [andb].
  destruct (isHexDigit c1) eqn:Hc1; [ | reflexivity].
  pose proof (hexValue_bound c1 Hc1).
  destruct (Z.geb_spec ((0 * 16 + hexValue c0) * 16 + hexValue c1) (2 ^ 64)); [lia | ].
  f_equal. lia.
Qed.

(** Two hexadecimal digits parse to their value. *)
Lemma ParseInt16_hex (c0 c1 : ascii) :
  isHexDigit c0 = true -> isHexDigit c1 = true ->
  ParseInt16 (String c0 (String c1 EmptyString)) = Some (16 * hexValue c0 + hexValue c1).
Proof.
  intros H0 H1. pose proof (hex_not_sign c0 H0) as Hs.
  unfold isSign in Hs. apply orb_false_iff in Hs as [Hp Hm].
  unfold ParseInt16. rewrite Hp, Hm. cbn [orb negb andb].
  unfold ParseUint16. rewrite parseUintDigits_two, H0, H1. cbn [andb].
  pose proof (hexValue_bound c0 H0). pose proof (hexValue_bound c1 H1).
  destruct (Z.geb_spec (16 * hexValue c0 + hexValue c1) (2 ^ 63)); [lia | reflexivity].
Qed.


Lemma substring_all (s : string) : substring 0 (String.length s) s = s.
Proof. induction s as [ | c s IH]; cbn; [reflexivity | rewrite IH; reflexivity]. Qed.

Lemma prefix_nil (s : string) : String.prefix EmptyString s = true.
Proof. destruct s; reflexivity. Qed.

Lemma TrimPrefix_hash (s : string) : TrimPrefix (String "#" s) "#" = s.
Proof.
  unfold TrimPrefix. cbn [String.prefix].
  destruct (ascii_dec "#" "#") as [_ | Hne]; [ | congruence].
  rewrite prefix_nil. cbn [String.length substring Nat.sub].
  rewrite Nat.sub_0_r. apply substring_all.
Qed.

Lemma parseHexColor_three (h0 h1 h2 : ascii) :
  parseHexColor (String "#" (String h0 (String h1 (String h2 EmptyString))))
  = parseHexColor
      (String "#" (String h0 (String h0 (String h1 (String h1 (String h2 (String h2
         EmptyString))))))).
Proof. unfold parseHexColor. rewrite !TrimPrefix_hash. reflexivity. Qed.

Lemma parseHexColor_six (d0 d1 d2 d3 d4 d5 : ascii) :
  isHexDigit d0 && isHexDigit d1 && isHexDigit d2
  && isHexDigit d3 && isHexDigit d4 && isHexDigit d5 = true ->
  parseHexColor
    (String "#" (String d0 (String d1 (String d2 (String d3 (String d4 (String d5
       EmptyString)))))))
  = Some (CRGBA (mkRGBA8 (16 * hexValue d0 + hexValue d1) (16 * hexValue d2 + hexValue d3)
                         (16 * hexValue d4 + hexValue d5) 255)).
Proof.
  intros H. repeat (apply andb_true_iff in H as [H ?]).
  unfold parseHexColor. rewrite TrimPrefix_hash.
  cbn [expand3 len String.length substring].
  change (negb (Z.of_nat 6 =? 6)) with false. cbv iota.
  rewrite !ParseInt16_hex by assumption.
  pose proof (hexValue_bound d0 H). pose proof (hexValue_bound d1 H4).
  pose proof (hexValue_bound d2 H3). pose proof (hexValue_bound d3 H2).
  pose proof (hexValue_bound d4 H1). pose proof (hexValue_bound d5 H0).
  unfold uint8. rewrite !Z.mod_small by lia. reflexivity.
Qed.


Lemma substituteColor_opaque (s : string) : A (rgbaModel (substituteColor s)) = 255.
Proof.
  unfold substituteColor, parseHexColor.
  destruct (negb (len (expand3 (TrimPrefix s "#")) =? 6)); [reflexivity | ].
  destruct (ParseInt16 _); [ | reflexivity].
  destruct (ParseInt16 _); [ | reflexivity].
  destruct (ParseInt16 _); reflexivity.
Qed.

(** *** The pixels *)

Lemma lor_shiftl_8 (v : Z) : inByte v = true -> Z.lor v (Z.shiftl v 8) = 257 * v.
Proof.
  intros Hv. unfold inByte in Hv. apply andb_true_iff in Hv as [H0 H1].
  apply Z.leb_le in H0. apply Z.leb_le in H1.
  assert (Hall : forallb (fun v => Z.lor v (Z.shiftl v 8) =? 257 * v) (range 0 256) = true)
    by (vm_compute; reflexivity).
  rewrite forallb_forall in Hall. apply Z.eqb_eq. apply Hall.
  assert (Hex : existsb (Z.eqb v) (range 0 256) = true).
  { rewrite existsb_range. apply andb_true_iff. split; [apply Z.leb_le | apply Z.ltb_lt]; lia. }
  apply existsb_exists in Hex as (u & Hu & Heq). apply Z.eqb_eq in Heq. subst u. exact Hu.
Qed.

Lemma high_byte (v : Z) : in16 v = true -> uint8 (Z.shiftr v 8) = v / 256.
Proof.
  intros Hv. unfold in16 in Hv. apply andb_true_iff in Hv as [H0 H1].
  apply Z.leb_le in H0. apply Z.leb_le in H1.
  unfold uint8. rewrite Z.shiftr_div_pow2 by lia. change (2 ^ 8) with 256.
  apply Z.mod_small. split; [apply Z.div_pos; lia | ].
  apply Z.div_lt_upper_bound; lia.
Qed.

(** A colour whose alpha is at least 65535 converts to its high bytes, with
    full alpha. *)
Lemma rgbaModel_opaque (c : Color) :
  wfColor c = true ->
  let '(r, g, b, a) := Color_RGBA c in
  65535 <= a -> rgbaModel c = mkRGBA8 (r / 256) (g / 256) (b / 256) 255.
Proof.
  assert (Hdiv : forall v, inByte v = true -> 257 * v / 256 = v).
  { intros v Hv. unfold inByte in Hv. apply andb_true_iff in Hv as [H0 H1].
    apply Z.leb_le in H0. apply Z.leb_le in H1.
    symmetry. apply Z.div_unique with (r := v); lia. }
  intros Hwf. destruct c as [[cr cg cb ca] | y | r g b a]; cbn [wfColor R G B A] in Hwf.
  - do 3 (apply andb_true_iff in Hwf as [Hwf ?]).
    cbn [Color_RGBA R G B A]. rewrite !lor_shiftl_8 by assumption. intros Ha.
    rewrite !Hdiv by assumption. cbn [rgbaModel]. f_equal.
    unfold inByte in H. apply andb_true_iff in H as [_ H]. apply Z.leb_le in H. lia.
  - cbn [Color_RGBA rgbaModel]. intros _. rewrite !high_byte by assumption. reflexivity.
  - do 3 (apply andb_true_iff in Hwf as [Hwf ?]).
    cbn [Color_RGBA rgbaModel]. intros Ha. rewrite !high_byte by assumption.
    f_equal. unfold in16 in H. apply andb_true_iff in H as [_ H]. apply Z.leb_le in H.
    assert (a = 65535) by lia. subst a. reflexivity.
Qed.




(** ** Run extraction *)

(** C6, as the code has it. The extractor fails with the empty-input error
    exactly for the empty string, and then the parser is not called; for any
    other string it calls the parser and fails with the parse error exactly
    when the parser returns an error, with an error of its own when the
    parser returns a nil slice without an error, and with the too-many error
    exactly when the slice has more than 100000 elements; otherwise it
    returns the slice, the same below and above 30000 elements, where it
    only adds a warning on the console. *)
Theorem parseANSI_results (Parse : string -> option (slice (option StyledText)))
        (asciiString : string) (w : World) :
  parseANSI Parse asciiString w
  = if String.eqb asciiString "" then (inl ErrASCIIStringEmpty, w)
    else
      let called := mkWorld (bufferPool w) (events w ++ [CallParse]) in
      match Parse asciiString with
      | None => (inl ErrParseANSI, called)
      | Some None => (inl ErrStyledTextNilAfterParsing, called)
      | Some (Some styledText) =>
          if llen styledText >? 100000
          then (inl (ErrTooManyStyledElements (llen styledText)), called)
          else (inr (Some styledText),
                mkWorld (bufferPool w)
                        (events called
                         ++ if llen styledText >? 30000
                            then [ConsoleWarnManyStyledElements (llen styledText)]
                            else []))
      end.
Proof.
  unfold parseANSI.
  destruct (String.eqb asciiString ""); [reflexivity | ].
  unfold bind, emit, fail, ret. cbn [bufferPool events].
  destruct (Parse asciiString) as [[styledText | ] | ]; try reflexivity.
  unfold maxStyledElements.
  destruct (llen styledText >? 100000); [reflexivity | ].
  destruct (llen styledText >? 30000); cbn [bufferPool events];
    rewrite ?app_nil_r; destruct w; reflexivity.
Qed.

(** C6, as it is stated, fails: for a stream that is one escape sequence
    and no text, a parser that returns no error and a nil slice, which has no
    element at all, makes the extractor fail, and with none of the three
    errors of the claim. *)
Lemma parseANSI_nil_slice_fails :
  let Parse := fun _ : string => Some (@None (list (option StyledText))) in
  let stream := String "027"%char "[0m" in
  parseANSI Parse stream (mkWorld [] [])
  = (inl ErrStyledTextNilAfterParsing, mkWorld [] [CallParse]).
Proof. reflexivity. Qed.


(** ** The glyph grid *)

(** C2, as the code has it. For every image and every positive target
    width, the height is the product of the target width and of the quotient
    of the image height by the image width, computed on floats and truncated
    toward zero, and at least 1.  Then, when the width is over 500, the width
    becomes 500 and the height is multiplied by the float [500 / width] and
    truncated; then, when the height is over 500, the height becomes 500 and
    the width is multiplied by the float [500 / height] and truncated.  Both
    final dimensions are at most 500.  An image of 200 by 100 at target width
    100 gives height 50 and the grid 100 by 50; at target width 1000 it gives
    height 500 before the cap and the grid 500 by 250; and at target width
    1000 the first cap always gives width 500 and the height times the float
    [500 / 1000]. *)
Theorem glyph_grid (undef : float64 -> Z) (bounds : Rectangle) (targetWidth : Z) :
  0 < targetWidth ->
  let aspectRatio := F64.div (F64.of_int (Dy bounds)) (F64.of_int (Dx bounds)) in
  let h0 := Z.max 1 (F64.to_int undef (F64.mul (F64.of_int targetWidth) aspectRatio)) in
  let afterWidth :=
    if targetWidth >? 500
    then (500, F64.to_int undef (F64.mul (F64.of_int h0)
                                         (F64.div f500 (F64.of_int targetWidth))))
    else (targetWidth, h0) in
  let afterHeight :=
    if snd afterWidth >? 500
    then (F64.to_int undef (F64.mul (F64.of_int (fst afterWidth))
                                    (F64.div f500 (F64.of_int (snd afterWidth)))), 500)
    else afterWidth in
  initialFixedHeight undef bounds targetWidth = h0
  /\ asciiDimensions undef bounds targetWidth = afterHeight
  /\ fst (asciiDimensions undef bounds targetWidth) <= 500
  /\ snd (asciiDimensions undef bounds targetWidth) <= 500
  /\ (let image := mkRect 0 0 200 100 in
      initialFixedHeight undef image 100 = 50
      /\ asciiDimensions undef image 100 = (100, 50)
      /\ initialFixedHeight undef image 1000 = 500
      /\ asciiDimensions undef image 1000 = (500, 250))
  /\ (forall h : Z,
        capWidth undef (1000, h)
        = (500, F64.to_int undef (F64.mul (F64.of_int h) (F64.of_ratio 500 1000)))).
Proof.
  intros Htw. cbv zeta.
  assert (Hh0 : initialFixedHeight undef bounds targetWidth
                = Z.max 1 (F64.to_int undef
                             (F64.mul (F64.of_int targetWidth)
                                      (F64.div (F64.of_int (Dy bounds))
                                               (F64.of_int (Dx bounds)))))).
  { unfold initialFixedHeight.
    destruct (Z.ltb_spec (F64.to_int undef
                            (F64.mul (F64.of_int targetWidth)
                                     (F64.div (F64.of_int (Dy bounds))
                                              (F64.of_int (Dx bounds))))) 1); lia. }
  set (h0 := Z.max 1 (F64.to_int undef
                        (F64.mul (F64.of_int targetWidth)
                                 (F64.div (F64.of_int (Dy bounds))
                                          (F64.of_int (Dx bounds)))))) in *.
  assert (Hdims : asciiDimensions undef bounds targetWidth
                  = (let afterWidth :=
                       if targetWidth >? 500
                       then (500, F64.to_int undef
                                    (F64.mul (F64.of_int h0)
                                             (F64.div f500 (F64.of_int targetWidth))))
                       else (targetWidth, h0) in
                     if snd afterWidth >? 500
                     then (F64.to_int undef
                             (F64.mul (F64.of_int (fst afterWidth))
                                      (F64.div f500 (F64.of_int (snd afterWidth)))), 500)
                     else afterWidth)).
  { unfold asciiDimensions. rewrite Hh0. unfold capWidth, MaxASCIIDimension.
    destruct (targetWidth >? 500); unfold capHeight, MaxASCIIDimension; cbn [fst snd];
      reflexivity. }
  split; [exact Hh0 | ]. split; [exact Hdims | ].
  assert (Hle : fst (asciiDimensions undef bounds targetWidth) <= 500
                /\ snd (asciiDimensions undef bounds targetWidth) <= 500).
  { rewrite Hdims. cbv zeta.
    assert (Hh0r : - 2 ^ 63 <= h0 < 2 ^ 63).
    { pose proof (F64Bounds.to_int_range undef
                    (F64.mul (F64.of_int targetWidth)
                             (F64.div (F64.of_int (Dy bounds)) (F64.of_int (Dx bounds))))).
      unfold h0. lia. }
    destruct (Z.gtb_spec targetWidth 500) as [Hbig | Hsmall]; cbn [fst snd].
    - pose proof (F64Bounds.to_int_range undef
                    (F64.mul (F64.of_int h0) (F64.div f500 (F64.of_int targetWidth)))) as Hr.
      set (h1 := F64.to_int undef
                   (F64.mul (F64.of_int h0) (F64.div f500 (F64.of_int targetWidth)))) in *.
      destruct (Z.gtb_spec h1 500) as [Hh | Hh]; cbn [fst snd].
      + pose proof (F64Bounds.scaled_width_le undef 500 h1 ltac:(lia) ltac:(lia)). lia.
      + lia.
    - destruct (Z.gtb_spec h0 500) as [Hh | Hh]; cbn [fst snd].
      + pose proof (F64Bounds.scaled_width_le undef targetWidth h0 ltac:(lia) ltac:(lia)). lia.
      + lia. }
  split; [apply Hle | ]. split; [apply Hle | ].
  split; [repeat split; reflexivity | ].
  intros h. reflexivity.
Qed.

(** The theorem at the image of 200 by 100 with target width 1000. *)
Lemma glyph_grid_witness :
  fst (asciiDimensions (fun _ => 0) (mkRect 0 0 200 100) 1000) <= 500.
Proof.
  exact (proj1 (proj2 (proj2 (glyph_grid (fun _ => 0) (mkRect 0 0 200 100) 1000 eq_refl)))).
Defined.

(** C2, as it is stated, fails in two places.  For an image of 3 by 2 at
    target width 4 the product is 2.67: rounding gives 3, the code gives 2,
    for it truncates.  For a square image at target width 574 the grid before
    the cap is 574 by 574; scaling both by the ratio that brings 574 to 500
    gives 500 by 500, the code gives 500 by 499, for the float product
    [574 * (500 / 574)] lies just under 500 and is truncated. *)
Lemma glyph_grid_claim_fails :
  (specTargetHeight 3 2 4 = 3
   /\ initialFixedHeight (fun _ => 0) (mkRect 0 0 3 2) 4 = 2)
  /\ (initialFixedHeight (fun _ => 0) (mkRect 0 0 1 1) 574 = 574
      /\ specCapped (574, 574) = (500, 500)
      /\ asciiDimensions (fun _ => 0) (mkRect 0 0 1 1) 574 = (500, 499)).
Proof. repeat split; reflexivity. Qed.

(** ** Numbers in messages *)

Lemma get_nth_error (s : string) (i : nat) :
  String.get i s = nth_error (list_ascii_of_string s) i.
Proof.
  revert i. induction s as [ | c s IH]; intros [ | i]; cbn; try reflexivity. apply IH.
Qed.

Lemma split_at {A : Type} (pre post : list A) (m : A) :
  firstn (List.length pre) (pre ++ m :: post) = pre
  /\ skipn (S (List.length pre)) (pre ++ m :: post) = post.
Proof.
  induction pre as [ | x pre [IH1 IH2]]; [split; reflexivity | ].
  cbn [List.length app firstn skipn]. rewrite IH1. split; [reflexivity | exact IH2].
Qed.

Lemma setByte_mid (pre post : list ascii) (m c : ascii) :
  setByte (pre ++ m :: post) (Z.of_nat (List.length pre)) c = Some (pre ++ c :: post).
Proof.
  unfold setByte, llen. rewrite length_app. cbn [List.length].
  replace ((0 <=? Z.of_nat (List.length pre))
           && (Z.of_nat (List.length pre) <? Z.of_nat (List.length pre + S (List.length post))))
    with true by (symmetry; apply andb_true_iff; split; [apply Z.leb_le | apply Z.ltb_lt]; lia).
  rewrite Nat2Z.id. destruct (split_at pre post m) as [-> ->]. reflexivity.
Qed.

Lemma list_snoc {A : Type} (l : list A) (n : nat) :
  List.length l = S n -> exists l' x, l = l' ++ [x] /\ List.length l' = n.
Proof.
  intros H. destruct (exists_last (l := l)) as (l' & x & ->).
  - intros ->. discriminate H.
  - exists l', x. split; [reflexivity | ]. rewrite length_app in H. cbn in H. lia.
Qed.

Lemma firstn_S_nth {A : Type} (l : list A) (i : nat) (d : A) :
  nth_error l i = Some d -> firstn (S i) l = firstn i l ++ [d].
Proof.
  revert i. induction l as [ | x l IH]; intros [ | i] H; cbn in H; try discriminate.
  - injection H as ->. reflexivity.
  - cbn [firstn app]. f_equal. apply IH. exact H.
Qed.

Lemma formatLoop_spec (in_ : string) (i : nat) :
  forall (k j : Z) (out pre mid post : list ascii),
    (i < List.length (list_ascii_of_string in_))%nat ->
    out = pre ++ mid ++ post ->
    List.length mid = List.length (groupRev k (rev (firstn (S i) (list_ascii_of_string in_)))) ->
    j = Z.of_nat (List.length pre + List.length mid) - 1 ->
    formatLoop in_ i j k out
    = Some (pre ++ rev (groupRev k (rev (firstn (S i) (list_ascii_of_string in_)))) ++ post).
Proof.
  remember (list_ascii_of_string in_) as ds eqn:Hds0.
  induction i as [ | i IH]; intros k j out pre mid post Hi Hout Hlen Hj.
  - destruct ds as [ | d0 ds']; [cbn in Hi; lia | ].
    cbn [firstn rev app groupRev List.length] in *.
    destruct mid as [ | m [ | ]]; try discriminate Hlen.
    cbn [formatLoop]. unfold byteAt. cbn [Z.of_nat Z.ltb Z.compare Z.to_nat].
    rewrite get_nth_error, <- Hds0. cbn [nth_error].
    subst out j. cbn [app List.length]. replace (Z.of_nat (List.length pre + 1) - 1)
      with (Z.of_nat (List.length pre)) by lia.
    rewrite setByte_mid. reflexivity.
  - destruct (nth_error ds (S i)) as [d | ] eqn:Hd;
      [ | apply nth_error_None in Hd; lia].
    rewrite (firstn_S_nth ds (S i) d Hd) in *. rewrite rev_app_distr in *.
    cbn [rev app] in *.
    assert (Hr : exists x r', rev (firstn (S i) ds) = x :: r').
    { destruct (rev (firstn (S i) ds)) as [ | x r'] eqn:Hr; [ | eauto].
      apply (f_equal (@List.length ascii)) in Hr. rewrite length_rev, length_firstn in Hr.
      cbn [List.length] in Hr. lia. }
    destruct Hr as (x & r' & Hr).
    cbn [formatLoop]. unfold byteAt.
    replace (Z.of_nat (S i) <? 0) with false by (symmetry; apply Z.ltb_ge; lia).
    rewrite Nat2Z.id, get_nth_error, <- Hds0, Hd.
    cbn [groupRev] in Hlen |- *. rewrite Hr in Hlen |- *. rewrite <- Hr in Hlen |- *.
    destruct (k + 1 =? 3) eqn:Hk.
    + cbn [List.length] in Hlen.
      destruct (list_snoc mid _ Hlen) as (mid1 & m1 & -> & Hlen1).
      destruct (list_snoc mid1 _ Hlen1) as (mid2 & m2 & -> & Hlen2).
      subst out. rewrite !length_app in Hj. cbn [List.length] in Hj.
      replace (pre ++ ((mid2 ++ [m2]) ++ [m1]) ++ post)
        with ((pre ++ mid2 ++ [m2]) ++ m1 :: post)
        by (rewrite <- !app_assoc; reflexivity).
      replace j with (Z.of_nat (List.length (pre ++ mid2 ++ [m2])))
        by (rewrite !length_app; cbn [List.length]; lia).
      rewrite setByte_mid.
      replace ((pre ++ mid2 ++ [m2]) ++ d :: post)
        with ((pre ++ mid2) ++ m2 :: d :: post)
        by (rewrite <- !app_assoc; reflexivity).
      replace (Z.of_nat (List.length (pre ++ mid2 ++ [m2])) - 1)
        with (Z.of_nat (List.length (pre ++ mid2)))
        by (rewrite !length_app; cbn [List.length]; lia).
      rewrite setByte_mid.
      rewrite (IH 0 _ _ pre mid2 (","%char :: d :: post)%list); try lia.
      * cbn [rev]. rewrite <- !app_assoc. reflexivity.
      * rewrite <- app_assoc. reflexivity.
      * rewrite !length_app. lia.
    + cbn [List.length] in Hlen.
      destruct (list_snoc mid _ Hlen) as (mid1 & m1 & -> & Hlen1).
      subst out. rewrite !length_app in Hj. cbn [List.length] in Hj.
      replace (pre ++ (mid1 ++ [m1]) ++ post)
        with ((pre ++ mid1) ++ m1 :: post)
        by (rewrite <- !app_assoc; reflexivity).
      replace j with (Z.of_nat (List.length (pre ++ mid1)))
        by (rewrite !length_app; cbn [List.length]; lia).
      rewrite setByte_mid.
      rewrite (IH (k + 1) _ _ pre mid1 (d :: post)%list); try lia.
      * cbn [rev]. rewrite <- !app_assoc. reflexivity.
      * rewrite <- app_assoc. reflexivity.
      * rewrite !length_app. lia.
Qed.

Lemma groupRev_cons (k : Z) (d x : ascii) (r : list ascii) :
  groupRev k (d :: x :: r)
  = if k + 1 =? 3 then d :: ","%char :: groupRev 0 (x :: r) else d :: groupRev (k + 1) (x :: r).
Proof. reflexivity. Qed.

Lemma length_groupRev (r : list ascii) :
  forall k, 0 <= k <= 2 -> r <> [] ->
    llen (groupRev k r) = llen r + (llen r - 1 + k) / 3.
Proof.
  unfold llen.
  induction r as [ | d r IH]; intros k Hk Hne; [contradiction | ].
  destruct r as [ | x r'].
  - cbn [groupRev List.length]. change (Z.of_nat 1) with 1.
    replace (1 - 1 + k) with k by lia. rewrite Z.div_small by lia. lia.
  - rewrite groupRev_cons. destruct (Z.eqb_spec (k + 1) 3) as [H3 | H3].
    + change (List.length (d :: ","%char :: groupRev 0 (x :: r')))
        with (S (S (List.length (groupRev 0 (x :: r'))))).
      change (List.length (d :: x :: r')) with (S (List.length (x :: r'))).
      rewrite !Nat2Z.inj_succ, (IH 0) by (try lia; discriminate).
      replace (Z.succ (Z.of_nat (List.length (x :: r'))) - 1 + k)
        with ((Z.of_nat (List.length (x :: r')) - 1 + 0) + 1 * 3) by lia.
      rewrite Z.div_add by lia. lia.
    + change (List.length (d :: groupRev (k + 1) (x :: r')))
        with (S (List.length (groupRev (k + 1) (x :: r')))).
      change (List.length (d :: x :: r')) with (S (List.length (x :: r'))).
      rewrite !Nat2Z.inj_succ, (IH (k + 1)) by (try lia; discriminate).
      replace (Z.succ (Z.of_nat (List.length (x :: r'))) - 1 + k)
        with (Z.of_nat (List.length (x :: r')) - 1 + (k + 1)) by lia.
      lia.
Qed.

Lemma filter_groupRev (r : list ascii) :
  forall k, Forall (fun c => isComma c = false) r ->
    filter (fun c => negb (isComma c)) (groupRev k r) = r.
Proof.
  induction r as [ | d r IH]; intros k Hr; [reflexivity | ].
  inversion Hr as [ | ? ? Hd Hr']; subst.
  destruct r as [ | x r'].
  - cbn. rewrite Hd. reflexivity.
  - rewrite groupRev_cons. destruct (k + 1 =? 3).
    + cbn [filter]. rewrite Hd. cbn [negb]. change (isComma ","%char) with true.
      cbn [negb]. rewrite IH by exact Hr'. reflexivity.
    + cbn [filter]. rewrite Hd. cbn [negb]. rewrite IH by exact Hr'. reflexivity.
Qed.

Lemma nth_groupRev (r : list ascii) :
  forall k p, 0 <= k <= 2 -> Forall (fun c => isComma c = false) r ->
    (p < List.length (groupRev k r))%nat ->
    (nth_error (groupRev k r) p = Some ","%char <-> (Z.of_nat p + k) mod 4 = 3).
Proof.
  assert (Hcomma : forall c, isComma c = false -> Some c = Some ","%char -> False).
  { intros c Hc Heq. injection Heq as ->. discriminate Hc. }
  induction r as [ | d r IH]; intros k p Hk Hr Hp; [cbn in Hp; lia | ].
  inversion Hr as [ | ? ? Hd Hr']; subst.
  destruct r as [ | x r'].
  - cbn [groupRev List.length] in *. assert (p = 0%nat) by lia. subst p.
    cbn [nth_error Z.of_nat]. rewrite Z.mod_small by lia.
    split; [intros H; exfalso; exact (Hcomma d Hd H) | lia].
  - rewrite groupRev_cons in *. destruct (Z.eqb_spec (k + 1) 3) as [H3 | H3].
    + destruct p as [ | [ | p]].
      * cbn [nth_error Z.of_nat]. rewrite Z.mod_small by lia.
        split; [intros H; exfalso; exact (Hcomma d Hd H) | lia].
      * cbn [nth_error]. replace (Z.of_nat 1 + k) with 3 by lia.
        split; reflexivity.
      * cbn [nth_error]. cbn [List.length] in Hp.
        rewrite (IH 0 p) by (try lia; assumption).
        replace (Z.of_nat (S (S p)) + k) with (Z.of_nat p + 0 + 1 * 4) by lia.
        rewrite Z.mod_add by lia. reflexivity.
    + destruct p as [ | p].
      * cbn [nth_error Z.of_nat]. rewrite Z.mod_small by lia.
        split; [intros H; exfalso; exact (Hcomma d Hd H) | lia].
      * cbn [nth_error]. cbn [List.length] in Hp.
        rewrite (IH (k + 1) p) by (try lia; assumption).
        replace (Z.of_nat (S p) + k) with (Z.of_nat p + (k + 1)) by lia. reflexivity.
Qed.

(** The loop on any digits string that is not empty. *)
Lemma formatLoop_group (in_ : string) :
  in_ <> EmptyString ->
  let out := repeat zero (Z.to_nat (len in_ + Z.quot (len in_ - 1) 3)) in
  formatLoop in_ (Z.to_nat (len in_ - 1)) (llen out - 1) 0 out
  = Some (rev (groupRev 0 (rev (list_ascii_of_string in_)))).
Proof.
  intros Hne. cbv zeta.
  assert (Hlen : len in_ = llen (list_ascii_of_string in_)).
  { unfold len, llen. f_equal. clear Hne.
    induction in_ as [ | c s IH]; cbn; [reflexivity | rewrite IH; reflexivity]. }
  assert (Hpos : 1 <= len in_).
  { destruct in_; [contradiction | ]. unfold len. cbn [String.length]. lia. }
  set (ds := list_ascii_of_string in_) in *.
  assert (Hds : ds <> []).
  { intros H. rewrite H in Hlen. unfold llen in Hlen. cbn in Hlen. lia. }
  assert (Hrev : rev ds <> []).
  { intros H. apply (f_equal (@rev ascii)) in H. rewrite rev_involutive in H. exact (Hds H). }
  pose proof (length_groupRev (rev ds) 0 ltac:(lia) Hrev) as Hg.
  unfold llen in Hg, Hlen. rewrite length_rev in Hg. rewrite <- Hlen in Hg. fold (len in_) in Hg.
  rewrite Z.quot_div_nonneg by lia.
  set (N := len in_ + (len in_ - 1) / 3) in *.
  replace (len in_ - 1 + 0) with (len in_ - 1) in Hg by lia. fold N in Hg.
  assert (Hfirst : firstn (S (Z.to_nat (len in_ - 1))) ds = ds).
  { apply firstn_all2. unfold len in *. lia. }
  rewrite (formatLoop_spec in_ (Z.to_nat (len in_ - 1)) 0 _ _ [] (repeat zero (Z.to_nat N)) []).
  - fold ds. rewrite Hfirst. cbn [app]. rewrite app_nil_r. reflexivity.
  - fold ds. unfold len in *. lia.
  - rewrite app_nil_r. reflexivity.
  - fold ds. rewrite Hfirst, repeat_length. lia.
  - unfold llen. cbn [List.length]. rewrite !repeat_length. lia.
Qed.

Lemma uint_digits (d : Decimal.uint) :
  Forall (fun c => isDigit c = true) (list_ascii_of_string (NilEmpty.string_of_uint d)).
Proof. induction d; cbn; constructor; try reflexivity; assumption. Qed.

Lemma Itoa_nonneg_digits (n : Z) :
  0 <= n ->
  Itoa n <> EmptyString
  /\ Forall (fun c => isDigit c = true) (list_ascii_of_string (Itoa n)).
Proof.
  intros Hn. unfold Itoa. destruct n as [ | p | p]; [ | | lia].
  - split; [discriminate | repeat constructor].
  - cbn [Z.to_int NilZero.string_of_int]. unfold NilZero.string_of_uint.
    pose proof (uint_digits (Pos.to_uint p)) as Hd.
    destruct (Pos.to_uint p); (split; [discriminate | first [exact Hd | repeat constructor]]).
Qed.

Lemma Itoa_negative (n : Z) : n < 0 -> Itoa n = String "-" (Itoa (- n)).
Proof. intros Hn. destruct n as [ | p | p]; try lia. reflexivity. Qed.

Lemma digit_not_comma (c : ascii) : isDigit c = true -> isComma c = false.
Proof.
  unfold isDigit, isComma. intros H. destruct (Ascii.eqb_spec c ","%char) as [-> | ]; [ | reflexivity].
  discriminate H.
Qed.

Lemma len_list (s : string) : len s = llen (list_ascii_of_string s).
Proof.
  unfold len, llen. f_equal.
  induction s as [ | c s IH]; cbn; [reflexivity | rewrite IH; reflexivity].
Qed.

(** What [formatNumber] returns: the digits of [|n|], grouped from the
    right, after the sign. *)
Lemma formatNumber_grouped (n : Z) :
  formatNumber n
  = Some ((if n <? 0 then String "-" else fun s => s)
            (string_of_list_ascii
               (rev (groupRev 0 (rev (list_ascii_of_string (Itoa (Z.abs n)))))))).
Proof.
  unfold formatNumber.
  assert (Hin : (if n <? 0 then substring 1 (String.length (Itoa n) - 1) (Itoa n) else Itoa n)
                = Itoa (Z.abs n)).
  { destruct (Z.ltb_spec n 0) as [Hneg | Hpos].
    - rewrite (Itoa_negative n Hneg).
      replace (String.length (String "-" (Itoa (- n))) - 1)%nat
        with (String.length (Itoa (- n))) by (cbn [String.length]; lia).
      change (substring 1 (String.length (Itoa (- n))) (String "-" (Itoa (- n))))
        with (substring 0 (String.length (Itoa (- n))) (Itoa (- n))).
      rewrite substring_all. f_equal. lia.
    - f_equal. lia. }
  rewrite Hin.
  destruct (Itoa_nonneg_digits (Z.abs n) ltac:(lia)) as [Hne _].
  assert (Hpos : 1 <= len (Itoa (Z.abs n))).
  { destruct (Itoa (Z.abs n)); [contradiction | ]. unfold len. cbn [String.length]. lia. }
  replace (len (Itoa (Z.abs n)) - 1 <? 0) with false by (symmetry; apply Z.ltb_ge; lia).
  rewrite (formatLoop_group (Itoa (Z.abs n)) Hne).
  destruct (n <? 0); reflexivity.
Qed.

Lemma In_groupRev (r : list ascii) :
  forall k c, In c (groupRev k r) -> c = ","%char \/ In c r.
Proof.
  induction r as [ | d r IH]; intros k c Hc; [contradiction | ].
  destruct r as [ | x r'].
  - right. exact Hc.
  - rewrite groupRev_cons in Hc. destruct (k + 1 =? 3).
    + destruct Hc as [-> | [<- | Hc]]; [right; left; reflexivity | left; reflexivity | ].
      destruct (IH _ _ Hc) as [-> | Hin]; [left; reflexivity | right; right; exact Hin].
    + destruct Hc as [-> | Hc]; [right; left; reflexivity | ].
      destruct (IH _ _ Hc) as [-> | Hin]; [left; reflexivity | right; right; exact Hin].
Qed.

(** X1. [formatNumber] never indexes out of range, and erasing the commas of
    its result gives back the decimal representation of [n]; the result is
    longer than that representation by one comma for every full group of
    three digits before the last. *)
Theorem formatNumber_erase_commas (n : Z) :
  exists s, formatNumber n = Some s
    /\ withoutCommas s = Itoa n
    /\ len s = len (Itoa n) + (len (Itoa (Z.abs n)) - 1) / 3.
Proof.
  rewrite formatNumber_grouped. eexists. split; [reflexivity | ].
  destruct (Itoa_nonneg_digits (Z.abs n) ltac:(lia)) as [Hne Hdig].
  set (ds := list_ascii_of_string (Itoa (Z.abs n))) in *.
  assert (Hnc : Forall (fun c => isComma c = false) (rev ds)).
  { apply Forall_rev. eapply Forall_impl; [ | exact Hdig]. apply digit_not_comma. }
  assert (Hds : rev ds <> []).
  { intros H. apply (f_equal (@rev ascii)) in H. rewrite rev_involutive in H. cbn in H.
    apply Hne. rewrite <- (string_of_list_ascii_of_string (Itoa (Z.abs n))). fold ds.
    rewrite H. reflexivity. }
  assert (Hbody : withoutCommas (string_of_list_ascii (rev (groupRev 0 (rev ds))))
                  = Itoa (Z.abs n)).
  { unfold withoutCommas. rewrite list_ascii_of_string_of_list_ascii.
    rewrite <- (rev_involutive (filter _ _)), <- filter_rev, rev_involutive.
    rewrite (filter_groupRev (rev ds) 0 Hnc), rev_involutive.
    apply string_of_list_ascii_of_string. }
  assert (Hlen : len (string_of_list_ascii (rev (groupRev 0 (rev ds))))
                 = len (Itoa (Z.abs n)) + (len (Itoa (Z.abs n)) - 1) / 3).
  { rewrite len_list, list_ascii_of_string_of_list_ascii. unfold llen. rewrite length_rev.
    pose proof (length_groupRev (rev ds) 0 ltac:(lia) Hds) as Hg. unfold llen in Hg.
    rewrite Hg, length_rev. rewrite len_list. fold ds. unfold llen.
    replace (Z.of_nat (List.length ds) - 1 + 0) with (Z.of_nat (List.length ds) - 1) by lia.
    reflexivity. }
  destruct (Z.ltb_spec n 0) as [Hneg | Hpos].
  - rewrite (Itoa_negative n Hneg). replace (- n) with (Z.abs n) by lia. split.
    + unfold withoutCommas in *. cbn [list_ascii_of_string filter].
      change (isComma "-"%char) with false. cbn [negb string_of_list_ascii].
      f_equal. exact Hbody.
    + unfold len in *. cbn [String.length]. rewrite !Nat2Z.inj_succ. lia.
  - replace (Z.abs n) with n in * by lia. split; [exact Hbody | exact Hlen].
Qed.

Lemma groupRev_last (r : list ascii) :
  forall k, r <> [] -> exists g c, groupRev k r = g ++ [c] /\ In c r.
Proof.
  induction r as [ | d r IH]; intros k Hne; [contradiction | ].
  destruct r as [ | x r'].
  - exists [], d. split; [reflexivity | left; reflexivity].
  - rewrite groupRev_cons.
    destruct (k + 1 =? 3).
    + destruct (IH 0 ltac:(discriminate)) as (g & c & Hg & Hin).
      exists (d :: ","%char :: g), c. rewrite Hg. split; [reflexivity | right; exact Hin].
    + destruct (IH (k + 1) ltac:(discriminate)) as (g & c & Hg & Hin).
      exists (d :: g), c. rewrite Hg. split; [reflexivity | right; exact Hin].
Qed.

(** X2. The result for a number that is not negative, read from its last
    byte: every fourth byte is a comma and every other byte a decimal digit,
    so the digits stand in groups of three; and its first byte is a digit:
    the result never begins with a comma. *)
Theorem formatNumber_groups_of_three (n : Z) :
  0 <= n ->
  exists s, formatNumber n = Some s
    /\ (forall (p : nat) (c : ascii),
          nth_error (rev (list_ascii_of_string s)) p = Some c ->
          if Z.of_nat p mod 4 =? 3 then c = ","%char else isDigit c = true)
    /\ exists (c : ascii) (rest : string), s = String c rest /\ isDigit c = true.
Proof.
  intros Hn. rewrite formatNumber_grouped.
  replace (n <? 0) with false by (symmetry; apply Z.ltb_ge; lia).
  eexists. split; [reflexivity | ].
  destruct (Itoa_nonneg_digits (Z.abs n) ltac:(lia)) as [Hne Hdig].
  assert (Hds : rev (list_ascii_of_string (Itoa (Z.abs n))) <> []).
  { destruct (Itoa (Z.abs n)) as [ | c0 s0]; [contradiction | ].
    cbn [list_ascii_of_string rev]. intros H. apply app_eq_nil in H as [_ H]. discriminate H. }
  set (ds := list_ascii_of_string (Itoa (Z.abs n))) in *.
  split.
  - intros p c Hp. rewrite list_ascii_of_string_of_list_ascii, rev_involutive in Hp.
    assert (Hnc : Forall (fun c => isComma c = false) (rev ds)).
    { apply Forall_rev. eapply Forall_impl; [ | exact Hdig]. apply digit_not_comma. }
    assert (Hlt : (p < List.length (groupRev 0 (rev ds)))%nat).
    { apply nth_error_Some. rewrite Hp. discriminate. }
    pose proof (nth_groupRev (rev ds) 0 p ltac:(lia) Hnc Hlt) as Hiff.
    rewrite Z.add_0_r in Hiff.
    destruct (Z.eqb_spec (Z.of_nat p mod 4) 3) as [H3 | H3].
    + apply Hiff in H3. rewrite Hp in H3. injection H3 as ->. reflexivity.
    + destruct (In_groupRev (rev ds) 0 c (nth_error_In _ _ Hp)) as [-> | Hin].
      * exfalso. apply H3. apply Hiff. exact Hp.
      * apply in_rev in Hin. rewrite Forall_forall in Hdig. apply Hdig. exact Hin.
  - destruct (groupRev_last (rev ds) 0 Hds) as (g & c & Hg & Hin).
    rewrite Hg, rev_unit. cbn [string_of_list_ascii].
    exists c, (string_of_list_ascii (rev g)). split; [reflexivity | ].
    apply in_rev in Hin. rewrite Forall_forall in Hdig. apply Hdig. exact Hin.
Qed.

Lemma formatNumber_groups_of_three_witness :
  exists s, formatNumber 5000000 = Some s
    /\ (forall (p : nat) (c : ascii),
          nth_error (rev (list_ascii_of_string s)) p = Some c ->
          if Z.of_nat p mod 4 =? 3 then c = ","%char else isDigit c = true)
    /\ exists (c : ascii) (rest : string), s = String c rest /\ isDigit c = true.
Proof. apply (formatNumber_groups_of_three 5000000). lia. Defined.

(** X3. A negative [int] other than the least one is formatted as its
    negation after a minus sign.  At the least [int], whose negation wraps
    around to itself, the result is still one minus sign before the grouped
    digits of [2^63]. *)
Theorem formatNumber_negative (n : Z) :
  - 2 ^ 63 <= n < 0 ->
  if n =? - 2 ^ 63
  then negInt n = n /\ formatNumber n = Some "-9,223,372,036,854,775,808"
  else negInt n = - n
       /\ 0 < negInt n < 2 ^ 63
       /\ formatNumber n = option_map (String "-") (formatNumber (negInt n))
       /\ formatNumber (negInt n) <> None.
Proof.
  intros Hn. destruct (Z.eqb_spec n (- 2 ^ 63)) as [-> | Hmin].
  - split; vm_compute; reflexivity.
  - assert (Hneg : negInt n = - n).
    { unfold negInt. rewrite Z.mod_small by lia. lia. }
    rewrite Hneg. split; [reflexivity | ]. split; [lia | ].
    rewrite !formatNumber_grouped.
    replace (n <? 0) with true by (symmetry; apply Z.ltb_lt; lia).
    replace (- n <? 0) with false by (symmetry; apply Z.ltb_ge; lia).
    replace (Z.abs (- n)) with (Z.abs n) by lia.
    split; [reflexivity | discriminate].
Qed.

Lemma formatNumber_negative_witness :
  negInt (-1234) = 1234
  /\ 0 < negInt (-1234) < 2 ^ 63
  /\ formatNumber (-1234) = option_map (String "-") (formatNumber (negInt (-1234)))
  /\ formatNumber (negInt (-1234)) <> None.
Proof. exact (formatNumber_negative (-1234) ltac:(lia)). Defined.

(** ** Normalisation, again *)

(** X4. Normalising options that are normalised changes nothing. *)
Theorem setDefaults_idempotent (o : Options) :
  setDefaults (setDefaults o) = setDefaults o.
Proof.
  unfold setDefaults.
  cbn [TargetWidth Brightness Contrast Sharpen BackgroundColor TransparencyColor
       TransparencyThreshold].
  f_equal.
  - destruct (String.eqb_spec (BackgroundColor o) "") as [He | He]; [reflexivity | ].
    destruct (String.eqb_spec (BackgroundColor o) ""); [contradiction | reflexivity].
  - destruct (String.eqb_spec (TransparencyColor o) "") as [He | He]; [reflexivity | ].
    destruct (String.eqb_spec (TransparencyColor o) ""); [contradiction | reflexivity].
  - rewrite !clamp_code_spec.
    destruct (TransparencyThreshold o) as [[ | ] | [ | ] | | [ | ] m e]; try reflexivity.
    assert (Hlt : F64.ltb (S754_finite false m e) F64.zero = false) by reflexivity.
    unfold clamp01. rewrite Hlt.
    destruct (F64.gtb (S754_finite false m e) F64.one) eqn:Hg; [reflexivity | ].
    rewrite Hlt, Hg. reflexivity.
Qed.

(** ** The colour string *)

Lemma TrimPrefix_cons (c : ascii) (s : string) :
  TrimPrefix (String c s) "#" = if Ascii.eqb c "#" then s else String c s.
Proof.
  destruct (Ascii.eqb_spec c "#") as [-> | Hne]; [apply TrimPrefix_hash | ].
  unfold TrimPrefix. cbn [String.prefix].
  destruct (ascii_dec "#" c) as [Heq | _]; [congruence | reflexivity].
Qed.



Lemma upper_hexDigit (c : ascii) : hexDigit (upper c) = hexDigit c.
Proof. each_byte c; reflexivity. Qed.

Lemma upper_eqb (c : ascii) :
  Ascii.eqb (upper c) "#" = Ascii.eqb c "#"
  /\ Ascii.eqb (upper c) "+" = Ascii.eqb c "+"
  /\ Ascii.eqb (upper c) "-" = Ascii.eqb c "-".
Proof. each_byte c; repeat split; reflexivity. Qed.

Lemma ToUpper_length (s : string) : String.length (ToUpper s) = String.length s.
Proof. induction s as [ | c s IH]; cbn; [reflexivity | rewrite IH; reflexivity]. Qed.

Lemma ToUpper_substring (s : string) : forall i n, substring i n (ToUpper s) = ToUpper (substring i n s).
Proof.
  induction s as [ | c s IH]; intros i n.
  - destruct i, n; reflexivity.
  - destruct i as [ | i].
    + destruct n as [ | n]; [reflexivity | ]. cbn [ToUpper substring]. rewrite IH. reflexivity.
    + cbn [ToUpper substring]. apply IH.
Qed.

Lemma ToUpper_parseUintDigits (s : string) :
  forall acc, parseUintDigits acc (ToUpper s) = parseUintDigits acc s.
Proof.
  induction s as [ | c s IH]; intros acc; [reflexivity | ].
  cbn [ToUpper parseUintDigits]. rewrite upper_hexDigit.
  destruct (hexDigit c); [ | reflexivity].
  destruct (acc * 16 + z >=? 2 ^ 64); [reflexivity | apply IH].
Qed.

Lemma ToUpper_ParseUint16 (s : string) : ParseUint16 (ToUpper s) = ParseUint16 s.
Proof.
  destruct s as [ | c s]; [reflexivity | ].
  unfold ParseUint16. cbn [ToUpper].
  exact (ToUpper_parseUintDigits (String c s) 0).
Qed.

Lemma ToUpper_ParseInt16 (s : string) : ParseInt16 (ToUpper s) = ParseInt16 s.
Proof.
  destruct s as [ | c s]; [reflexivity | ].
  unfold ParseInt16. cbn [ToUpper].
  destruct (upper_eqb c) as (_ & -> & ->).
  destruct (Ascii.eqb c "+" || Ascii.eqb c "-").
  - rewrite ToUpper_ParseUint16. reflexivity.
  - change (String (upper c) (ToUpper s)) with (ToUpper (String c s)).
    rewrite ToUpper_ParseUint16. reflexivity.
Qed.

(** X6. The colour string is read without regard to the case of its
    letters. *)
Theorem parseHexColor_case_insensitive (s : string) :
  parseHexColor (ToUpper s) = parseHexColor s.
Proof.
  unfold parseHexColor.
  assert (Htrim : TrimPrefix (ToUpper s) "#" = ToUpper (TrimPrefix s "#")).
  { destruct s as [ | c s]; [reflexivity | ].
    cbn [ToUpper]. rewrite !TrimPrefix_cons. destruct (upper_eqb c) as (-> & _ & _).
    destruct (Ascii.eqb c "#"); reflexivity. }
  rewrite Htrim. generalize (TrimPrefix s "#"). clear s Htrim. intros hex.
  assert (Hexp : expand3 (ToUpper hex) = ToUpper (expand3 hex)).
  { destruct hex as [ | c0 [ | c1 [ | c2 [ | c3 hex]]]]; reflexivity. }
  rewrite Hexp. generalize (expand3 hex). clear hex Hexp. intros hex.
  unfold len. rewrite ToUpper_length.
  destruct (negb (Z.of_nat (String.length hex) =? 6)); [reflexivity | ].
  rewrite !ToUpper_substring, !ToUpper_ParseInt16. reflexivity.
Qed.

Lemma hexClass_isHexDigit (c : ascii) : hexClass c = isHexDigit c.
Proof. each_byte c; reflexivity. Qed.

(** X7. A colour text the page accepts is a colour for the library: three
    digits give the colour with each digit doubled, six digits the colour
    they spell, and never the white fallback. *)
Theorem accepted_color_text_parses (s : string) :
  colorTextAccepted s = true ->
  exists r g b,
    parseHexColor s = Some (CRGBA (mkRGBA8 r g b 255))
    /\ (0 <= r <= 255 /\ 0 <= g <= 255 /\ 0 <= b <= 255)
    /\ match s with
       | String _ (String h0 (String h1 (String h2 EmptyString))) =>
           (r, g, b) = (17 * hexValue h0, 17 * hexValue h1, 17 * hexValue h2)
       | String _ (String d0 (String d1 (String d2 (String d3 (String d4 (String d5 _)))))) =>
           (r, g, b) = (16 * hexValue d0 + hexValue d1, 16 * hexValue d2 + hexValue d3,
                        16 * hexValue d4 + hexValue d5)
       | _ => False
       end.
Proof.
  intros Hacc. unfold colorTextAccepted in Hacc.
  destruct s as [ | c s]; [discriminate Hacc | ].
  destruct (Ascii.eqb_spec c "#") as [-> | Hne].
  2:{ exfalso. revert Hacc. each_byte c; try discriminate. congruence. }
  apply andb_true_iff in Hacc as [Hall Hlen].
  destruct s as [ | c0 [ | c1 [ | c2 [ | c3 [ | c4 [ | c5 [ | c6 s]]]]]]];
    unfold len in Hlen; cbn [String.length] in Hlen;
    try (exfalso; apply orb_true_iff in Hlen as [H | H]; apply Z.eqb_eq in H; lia).
  - cbn [allChars] in Hall. rewrite !hexClass_isHexDigit in Hall.
    repeat (apply andb_true_iff in Hall as [? Hall]).
    rewrite parseHexColor_three.
    rewrite (parseHexColor_six c0 c0 c1 c1 c2 c2)
      by (repeat (apply andb_true_iff; split); assumption).
    pose proof (hexValue_bound c0 ltac:(assumption)).
    pose proof (hexValue_bound c1 ltac:(assumption)).
    pose proof (hexValue_bound c2 ltac:(assumption)).
    do 3 eexists. split; [reflexivity | ]. split; [lia | ]. f_equal; [f_equal | ]; lia.
  - cbn [allChars] in Hall. rewrite !hexClass_isHexDigit in Hall.
    repeat (apply andb_true_iff in Hall as [? Hall]).
    rewrite (parseHexColor_six c0 c1 c2 c3 c4 c5)
      by (repeat (apply andb_true_iff; split); assumption).
    pose proof (hexValue_bound c0 ltac:(assumption)).
    pose proof (hexValue_bound c1 ltac:(assumption)).
    pose proof (hexValue_bound c2 ltac:(assumption)).
    pose proof (hexValue_bound c3 ltac:(assumption)).
    pose proof (hexValue_bound c4 ltac:(assumption)).
    pose proof (hexValue_bound c5 ltac:(assumption)).
    do 3 eexists. split; [reflexivity | ]. split; [lia | reflexivity].
Qed.

Lemma accepted_color_text_parses_witness :
  exists r g b, parseHexColor "#Fa0" = Some (CRGBA (mkRGBA8 r g b 255)).
Proof.
  destruct (accepted_color_text_parses "#Fa0" eq_refl) as (r & g & b & H & _).
  exists r, g, b. exact H.
Defined.

(** ** Transparency compositing, again *)

Lemma handleTransparency_Rect (undef : float64 -> Z) (img : Image) (colorStr : string)
      (threshold : float64) :
  Rect (handleTransparency undef img colorStr threshold) = Bounds img.
Proof.
  unfold handleTransparency.
  destruct (outer_loop
              (fun x y => compositeColor undef (substituteColor colorStr)
                                         (alphaThresholdOf undef threshold) (At img x y))
              (range (MinX (Bounds img)) (MaxX (Bounds img)))
              (range (MinY (Bounds img)) (MaxY (Bounds img)))
              (NewRGBA (Bounds img))) as [HR _].
  cbn zeta in HR. rewrite HR. reflexivity.
Qed.

(** X8. The composited image has the bounds of the image it is made from,
    and no pixel outside them. *)
Theorem handleTransparency_bounds (undef : float64 -> Z) (img : Image) (colorStr : string)
        (threshold : float64) :
  let result := handleTransparency undef img colorStr threshold in
  Rect result = Bounds img
  /\ Bounds (asImage result) = Bounds img
  /\ forall x y, inRect x y (Bounds img) = false -> RGBA_At result x y = mkRGBA8 0 0 0 0.
Proof.
  cbv zeta. pose proof (handleTransparency_Rect undef img colorStr threshold) as HR.
  split; [exact HR | ]. split; [exact HR | ].
  intros x y Hout. unfold RGBA_At. rewrite HR, Hout. reflexivity.
Qed.

Lemma blend_onto_nothing (undef : float64 -> Z) (v : Z) :
  0 <= v <= 255 -> blendChannel undef 0 (257 * v) 0 = v.
Proof.
  intros Hv.
  assert (Hall : forallb (fun v => blendChannel undef 0 (257 * v) 0 =? v) (range 0 256) = true)
    by (vm_compute; reflexivity).
  rewrite forallb_forall in Hall. apply Z.eqb_eq. apply Hall.
  assert (Hex : existsb (Z.eqb v) (range 0 256) = true).
  { rewrite existsb_range. apply andb_true_iff. split; [apply Z.leb_le | apply Z.ltb_lt]; lia. }
  apply existsb_exists in Hex as (u & Hu & Heq). apply Z.eqb_eq in Heq. subst u. exact Hu.
Qed.

(** The substitute colour is white or a colour of 8 bits per channel at
    full alpha. *)
Lemma substituteColor_cases (s : string) :
  substituteColor s = White
  \/ exists r g b, substituteColor s = CRGBA (mkRGBA8 r g b 255)
                   /\ 0 <= r <= 255 /\ 0 <= g <= 255 /\ 0 <= b <= 255.
Proof.
  unfold substituteColor, parseHexColor.
  destruct (negb (len (expand3 (TrimPrefix s "#")) =? 6)); [left; reflexivity | ].
  destruct (ParseInt16 _) as [r | ]; [ | left; reflexivity].
  destruct (ParseInt16 _) as [g | ]; [ | left; reflexivity].
  destruct (ParseInt16 _) as [b | ]; [ | left; reflexivity].
  right. exists (uint8 r), (uint8 g), (uint8 b). split; [reflexivity | ].
  unfold uint8.
  pose proof (Z.mod_pos_bound r 256 ltac:(lia)).
  pose proof (Z.mod_pos_bound g 256 ltac:(lia)).
  pose proof (Z.mod_pos_bound b 256 ltac:(lia)). lia.
Qed.

(** X9. A fully transparent pixel becomes the substitute colour, exactly,
    for every threshold: below the threshold by replacement, and at a
    threshold of zero by a blend that gives the same bytes. *)
Theorem transparent_pixel_substituted (undef : float64 -> Z) (img : Image)
        (colorStr : string) (threshold : float64) (x y : Z) :
  inRect x y (Bounds img) = true ->
  Color_RGBA (At img x y) = (0, 0, 0, 0) ->
  RGBA_At (handleTransparency undef img colorStr threshold) x y
  = rgbaModel (substituteColor colorStr).
Proof.
  intros Hin Hpix. rewrite (handleTransparency_At undef img colorStr threshold x y Hin).
  unfold compositeColor. rewrite Hpix.
  destruct (0 <? alphaThresholdOf undef threshold); [reflexivity | ].
  change (0 <? 65535) with true. cbv iota.
  destruct (substituteColor_cases colorStr) as [-> | (r & g & b & -> & Hr & Hg & Hb)].
  - assert (H255 : blendChannel undef 0 65535 0 = 255)
      by exact (blend_onto_nothing undef 255 ltac:(lia)).
    unfold White. cbn [Color_RGBA]. rewrite H255. reflexivity.
  - cbn [Color_RGBA rgbaModel R G B A].
    assert (Hb8 : forall v, 0 <= v <= 255 -> inByte v = true)
      by (intros v Hv; unfold inByte; apply andb_true_iff; split; apply Z.leb_le; lia).
    rewrite !lor_shiftl_8 by (apply Hb8; assumption).
    rewrite !blend_onto_nothing by assumption. reflexivity.
Qed.

Lemma transparent_pixel_substituted_witness :
  RGBA_At (handleTransparency (fun _ => 0)
             (mkImage (mkRect 0 0 2 2) (fun _ _ => COther 0 0 0 0)) "#1e90ff" F64.zero) 1 1
  = rgbaModel (substituteColor "#1e90ff").
Proof.
  exact (transparent_pixel_substituted (fun _ => 0)
           (mkImage (mkRect 0 0 2 2) (fun _ _ => COther 0 0 0 0)) "#1e90ff" F64.zero 1 1
           eq_refl eq_refl).
Defined.

(** X10. Compositing an image that was composited changes nothing. *)
Theorem handleTransparency_idempotent (undef : float64 -> Z) (img : Image)
        (colorStr : string) (threshold : float64) :
  (forall x y, inRect x y (Bounds img) = true -> wfColor (At img x y) = true) ->
  let once := handleTransparency undef img colorStr threshold in
  let twice := handleTransparency undef (asImage once) colorStr threshold in
  Rect twice = Rect once /\ forall x y, RGBA_At twice x y = RGBA_At once x y.
Proof.
  intros Hwf. cbv zeta.
  pose proof (handleTransparency_Rect undef img colorStr threshold) as HR1.
  pose proof (handleTransparency_Rect undef
                (asImage (handleTransparency undef img colorStr threshold)) colorStr threshold)
    as HR2.
  cbn [asImage Bounds] in HR2.
  split; [exact HR2 | ].
  intros x y. destruct (inRect x y (Bounds img)) eqn:Hin.
  2:{ unfold RGBA_At. rewrite HR2, HR1, Hin. reflexivity. }
  rewrite (handleTransparency_At undef _ colorStr threshold x y)
    by (cbn [asImage Bounds]; rewrite HR1; exact Hin).
  cbn [asImage At].
  set (p := RGBA_At (handleTransparency undef img colorStr threshold) x y).
  assert (Hp : A p = 255
               /\ (65535 < alphaThresholdOf undef threshold ->
                   p = rgbaModel (substituteColor colorStr))).
  { unfold p. rewrite (handleTransparency_At undef img colorStr threshold x y Hin).
    unfold compositeColor. specialize (Hwf x y Hin).
    pose proof (rgbaModel_opaque (At img x y) Hwf) as Hop.
    assert (Ha : let '(_, _, _, a) := Color_RGBA (At img x y) in 0 <= a <= 65535).
    { destruct (At img x y) as [[cr cg cb ca] | yy | r g b a]; cbn [wfColor R G B A] in Hwf;
        cbn [Color_RGBA R G B A].
      - do 3 (apply andb_true_iff in Hwf as [Hwf ?]).
        rewrite lor_shiftl_8 by assumption.
        unfold inByte in *. repeat match goal with
                                   | H : _ && _ = true |- _ => apply andb_true_iff in H as [? ?]
                                   | H : (_ <=? _) = true |- _ => apply Z.leb_le in H
                                   end. lia.
      - lia.
      - do 3 (apply andb_true_iff in Hwf as [Hwf ?]).
        unfold in16 in *. repeat match goal with
                                 | H : _ && _ = true |- _ => apply andb_true_iff in H as [? ?]
                                 | H : (_ <=? _) = true |- _ => apply Z.leb_le in H
                                 end. lia. }
    destruct (Color_RGBA (At img x y)) as [[[r g] b] a].
    destruct (Z.ltb_spec a (alphaThresholdOf undef threshold)) as [Hlt | Hge].
    - split; [apply substituteColor_opaque | reflexivity].
    - destruct (Color_RGBA (substituteColor colorStr)) as [[[tr tg] tb] ta].
      destruct (Z.ltb_spec a 65535) as [Hlt2 | Hge2].
      + split; [reflexivity | lia].
      + split; [rewrite Hop by lia; reflexivity | lia]. }
  destruct Hp as [HA Hsub].
  unfold compositeColor. destruct p as [pr pg pb pa] eqn:Hpeq. cbn [A] in HA. subst pa.
  cbn [Color_RGBA R G B A]. change (Z.lor 255 (Z.shiftl 255 8)) with 65535.
  destruct (Z.ltb_spec 65535 (alphaThresholdOf undef threshold)) as [Hlt | Hge].
  - symmetry. apply Hsub. exact Hlt.
  - change (65535 <? 65535) with false. cbv iota.
    destruct (Color_RGBA (substituteColor colorStr)) as [[[tr tg] tb] ta]. reflexivity.
Qed.

Lemma handleTransparency_idempotent_witness :
  let once := handleTransparency (fun _ => 0) halfOpaqueImage "#abc" (F64.of_ratio 1 4) in
  let twice := handleTransparency (fun _ => 0) (asImage once) "#abc" (F64.of_ratio 1 4) in
  Rect twice = Rect once /\ forall x y, RGBA_At twice x y = RGBA_At once x y.
Proof.
  apply (handleTransparency_idempotent (fun _ => 0) halfOpaqueImage "#abc" (F64.of_ratio 1 4)).
  intros x y _. reflexivity.
Defined.

(** ** Lines and rendering, again *)

(** X11. A nil block and a block with an empty label are passed over: the
    lines are those of the sequence without it. *)
Theorem split_skips_empty_blocks (before after : list (option StyledText))
        (fg bg : option Col) (style mode offset length : Z) :
  splitStyledTextByLine (before ++ None :: after) = splitStyledTextByLine (before ++ after)
  /\ splitStyledTextByLine
       (before ++ Some (mkStyledText "" fg bg style mode offset length) :: after)
     = splitStyledTextByLine (before ++ after).
Proof.
  unfold splitStyledTextByLine. rewrite !fold_left_app. cbn [fold_left].
  destruct (fold_left splitBlock before ([], [])) as [lines cur].
  split; reflexivity.
Qed.

Lemma addPart_plain (block : StyledText) (cur : list StyledText) (part : string) :
  addPart (plain block) (map plain cur) part = map plain (addPart block cur part).
Proof.
  unfold addPart. destruct (String.eqb part ""); [reflexivity | ].
  rewrite map_app. reflexivity.
Qed.

Lemma splitParts_plain (block : StyledText) (parts : list string) :
  forall lines cur,
    splitParts (plain block) parts (map (map plain) lines, map plain cur)
    = (map (map plain) (fst (splitParts block parts (lines, cur))),
       map plain (snd (splitParts block parts (lines, cur)))).
Proof.
  induction parts as [ | part rest IH]; intros lines cur; [reflexivity | ].
  cbn [splitParts]. rewrite addPart_plain.
  destruct rest as [ | p2 rest]; [reflexivity | ].
  replace (map (map plain) lines ++ [map plain (addPart block cur part)])
    with (map (map plain) (lines ++ [addPart block cur part]))
    by (rewrite map_app; reflexivity).
  change (@nil StyledText) with (map plain []) at 1.
  apply IH.
Qed.

Lemma fold_splitBlock_plain (styledText : list (option StyledText)) :
  forall lines cur,
    fold_left splitBlock (map (option_map plain) styledText)
              (map (map plain) lines, map plain cur)
    = (map (map plain) (fst (fold_left splitBlock styledText (lines, cur))),
       map plain (snd (fold_left splitBlock styledText (lines, cur)))).
Proof.
  induction styledText as [ | block rest IH]; intros lines cur; [reflexivity | ].
  cbn [map fold_left]. destruct block as [block | ]; cbn [option_map splitBlock].
  - change (Label (plain block)) with (Label block).
    rewrite splitParts_plain.
    destruct (splitParts block (SplitLines (Label block)) (lines, cur)) as [lines' cur'].
    cbn [fst snd]. apply IH.
  - apply IH.
Qed.

Lemma splitStyledTextByLine_plain (styledText : list (option StyledText)) :
  splitStyledTextByLine (map (option_map plain) styledText)
  = map (map plain) (splitStyledTextByLine styledText).
Proof.
  unfold splitStyledTextByLine.
  pose proof (fold_splitBlock_plain styledText [] []) as H. cbn [map] in H. rewrite H.
  destruct (fold_left splitBlock styledText ([], [])) as [lines cur]. cbn [fst snd].
  unfold llen. rewrite length_map.
  destruct (Z.of_nat (List.length cur) >? 0); [ | reflexivity].
  rewrite map_app. reflexivity.
Qed.

Lemma charCount_plain (line : list StyledText) : charCount (map plain line) = charCount line.
Proof.
  unfold charCount. induction line as [ | run line IH]; [reflexivity | ].
  cbn [map fold_right]. rewrite IH. reflexivity.
Qed.

Lemma lineTexts_plain (line : list StyledText) :
  forall yPos x, lineTexts yPos x (map plain line) = lineTexts yPos x line.
Proof.
  induction line as [ | run line IH]; intros yPos x; [reflexivity | ].
  cbn [map lineTexts]. rewrite IH.
  change (Label (plain run)) with (Label run).
  replace (drawn (plain run)) with (drawn run) by reflexivity.
  replace (textColorOf (plain run)) with (textColorOf run)
    by (unfold textColorOf, plain; cbn [FgCol]; destruct (FgCol run); reflexivity).
  reflexivity.
Qed.

Lemma linesTexts_plain (lines : list (list StyledText)) :
  forall yPos, linesTexts yPos (map (map plain) lines) = linesTexts yPos lines.
Proof.
  induction lines as [ | line lines IH]; intros yPos; [reflexivity | ].
  cbn [map linesTexts]. rewrite IH, lineTexts_plain. reflexivity.
Qed.

(** X12. The renderer reads nothing of a block but its label and the
    hexadecimal text of its foreground colour: background colours, styles
    and the other fields of the blocks do not reach the document. *)
Theorem render_reads_label_and_foreground (svgo : SvgCall -> string)
        (styledText : list (option StyledText)) (backgroundColor : string) (w : World) :
  svgCalls (map (option_map plain) styledText) backgroundColor
  = svgCalls styledText backgroundColor
  /\ fst (renderToSVG svgo (Some (map (option_map plain) styledText)) backgroundColor w)
     = fst (renderToSVG svgo (Some styledText) backgroundColor w).
Proof.
  assert (Hcalls : svgCalls (map (option_map plain) styledText) backgroundColor
                   = svgCalls styledText backgroundColor).
  { unfold svgCalls. rewrite splitStyledTextByLine_plain.
    set (lines := splitStyledTextByLine styledText).
    assert (Hdims : calculateSVGDimensions (map (map plain) lines)
                    = calculateSVGDimensions lines).
    { unfold calculateSVGDimensions. rewrite !maxLineLengthOf_maximum.
      unfold llen. rewrite length_map, map_map.
      rewrite (map_ext (fun l => charCount (map plain l)) charCount charCount_plain).
      reflexivity. }
    rewrite Hdims. destruct (calculateSVGDimensions lines) as [sw sh].
    unfold renderLines. rewrite !renderLines_fold. cbn [fst app].
    rewrite linesTexts_plain. reflexivity. }
  split; [exact Hcalls | ].
  unfold renderToSVG.
  rewrite Hcalls, splitStyledTextByLine_plain.
  set (lines := splitStyledTextByLine styledText).
  assert (Hdims : calculateSVGDimensions (map (map plain) lines) = calculateSVGDimensions lines).
  { unfold calculateSVGDimensions. rewrite !maxLineLengthOf_maximum.
    unfold llen. rewrite length_map, map_map.
    rewrite (map_ext (fun l => charCount (map plain l)) charCount charCount_plain).
    reflexivity. }
  rewrite Hdims. destruct (calculateSVGDimensions lines) as [sw sh].
  unfold bind, poolGet, poolPut, emit, ret, Reset.
  destruct (bufferPool w); reflexivity.
Qed.

Lemma charCount_app (a b : list StyledText) : charCount (a ++ b) = charCount a + charCount b.
Proof.
  unfold charCount. induction a as [ | r a IH]; cbn [app fold_right]; [lia | rewrite IH; lia].
Qed.

Lemma lineTexts_In (line : list StyledText) :
  forall yPos x0 x y t style,
    In (SvgText x y t style) (lineTexts yPos x0 line) ->
    y = yPos
    /\ exists before run after,
         line = before ++ run :: after /\ drawn run = true /\ t = Label run
         /\ x = x0 + charCount before * charWidth.
Proof.
  induction line as [ | r line IH]; intros yPos x0 x y t style Hin; [contradiction | ].
  cbn [lineTexts] in Hin. apply in_app_or in Hin as [Hin | Hin].
  - destruct (drawn r) eqn:Hd; [ | contradiction].
    destruct Hin as [Heq | []]. injection Heq as <- <- <- _.
    split; [reflexivity | ]. exists [], r, line. repeat split; try assumption.
    unfold charCount. cbn. lia.
  - destruct (IH _ _ _ _ _ _ Hin) as (Hy & before & run & after & -> & Hd & Ht & Hx).
    split; [exact Hy | ]. exists (r :: before), run, after. repeat split; try assumption.
    rewrite Hx. change (r :: before) with ([r] ++ before). rewrite charCount_app.
    unfold charCount at 2. cbn [fold_right]. lia.
Qed.

Lemma linesTexts_In (lines : list (list StyledText)) :
  forall yPos x y t style,
    In (SvgText x y t style) (linesTexts yPos lines) ->
    exists i line,
      nth_error lines i = Some line /\ y = yPos + Z.of_nat i * lineHeight
      /\ In (SvgText x y t style) (lineTexts y paddingLeft line).
Proof.
  induction lines as [ | line lines IH]; intros yPos x y t style Hin; [contradiction | ].
  cbn [linesTexts] in Hin. apply in_app_or in Hin as [Hin | Hin].
  - destruct (lineTexts_In _ _ _ _ _ _ _ Hin) as [-> _].
    exists 0%nat, line. repeat split; [cbn; lia | exact Hin].
  - destruct (IH _ _ _ _ _ Hin) as (i & l & Hnth & Hy & Hl).
    exists (S i), l. repeat split; [exact Hnth | rewrite Hy; lia | exact Hl].
Qed.




(** ** The colour string, exactly *)

Lemma ParseInt16_pair (c0 c1 : ascii) :
  ParseInt16 (String c0 (String c1 EmptyString))
  = if pairParses c0 c1 then Some (pairValue c0 c1) else None.
Proof.
  unfold pairParses, pairValue.
  destruct (isHexDigit c0) eqn:H0.
  - pose proof (hex_not_sign c0 H0) as Hs. rewrite Hs. cbn [orb andb].
    unfold isSign in Hs. apply orb_false_iff in Hs as [Hp Hm]. rewrite Hp, Hm.
    destruct (isHexDigit c1) eqn:H1; [apply ParseInt16_hex; assumption | ].
    unfold ParseInt16. rewrite Hp, Hm. cbn [orb].
    unfold ParseUint16. rewrite parseUintDigits_two, H0, H1. reflexivity.
  - cbn [orb]. unfold ParseInt16, isSign.
    destruct (Ascii.eqb c0 "+") eqn:Hp; destruct (Ascii.eqb c0 "-") eqn:Hm; cbn [orb andb negb].
    + apply Ascii.eqb_eq in Hp. apply Ascii.eqb_eq in Hm. congruence.
    + unfold ParseUint16. rewrite parseUintDigits_one by lia.
      destruct (isHexDigit c1) eqn:H1; [ | reflexivity].
      pose proof (hexValue_bound c1 H1).
      destruct (Z.geb_spec (0 * 16 + hexValue c1) (2 ^ 63)); [lia | ].
      f_equal.
    + unfold ParseUint16. rewrite parseUintDigits_one by lia.
      destruct (isHexDigit c1) eqn:H1; [ | reflexivity].
      pose proof (hexValue_bound c1 H1).
      destruct (Z.gtb_spec (0 * 16 + hexValue c1) (2 ^ 63)); [lia | ].
      f_equal.
    + unfold ParseUint16. rewrite parseUintDigits_two, H0. reflexivity.
Qed.

(** X14. The strings that are colours, exactly.  After one leading [#] is
    removed, a string of three bytes is a colour when the three are
    hexadecimal digits, and a string of six bytes when each of its three
    pairs is two digits or a sign and a digit; no other string is.  The
    channels are the numbers of the pairs, reduced to a byte, at full
    alpha. *)
Theorem parseHexColor_exactly (s : string) :
  parseHexColor s
  = match TrimPrefix s "#" with
    | String h0 (String h1 (String h2 EmptyString)) =>
        if isHexDigit h0 && isHexDigit h1 && isHexDigit h2
        then Some (CRGBA (mkRGBA8 (17 * hexValue h0) (17 * hexValue h1) (17 * hexValue h2) 255))
        else None
    | String c0 (String c1 (String c2 (String c3 (String c4 (String c5 EmptyString))))) =>
        if pairParses c0 c1 && pairParses c2 c3 && pairParses c4 c5
        then Some (CRGBA (mkRGBA8 (pairValue c0 c1 mod 256) (pairValue c2 c3 mod 256)
                                  (pairValue c4 c5 mod 256) 255))
        else None
    | _ => None
    end.
Proof.
  unfold parseHexColor. generalize (TrimPrefix s "#"). clear s. intros hex.
  destruct hex as [ | c0 [ | c1 [ | c2 [ | c3 [ | c4 [ | c5 [ | c6 hex]]]]]]];
    try reflexivity.
  - cbn [expand3 len String.length substring].
    match goal with |- (if ?b then _ else _) = _ => change b with false end. cbv iota.
    rewrite !ParseInt16_pair. unfold pairParses, pairValue.
    destruct (isHexDigit c0) eqn:H0; cbn [orb andb].
    2:{ destruct (isSign c0); reflexivity. }
    destruct (isHexDigit c1) eqn:H1; cbn [orb andb].
    2:{ destruct (isSign c1); reflexivity. }
    destruct (isHexDigit c2) eqn:H2; cbn [orb andb].
    2:{ destruct (isSign c2); reflexivity. }
    pose proof (hex_not_sign c0 H0) as Hs0. pose proof (hex_not_sign c1 H1) as Hs1.
    pose proof (hex_not_sign c2 H2) as Hs2. unfold isSign in Hs0, Hs1, Hs2.
    apply orb_false_iff in Hs0 as [Hp0 Hm0]. apply orb_false_iff in Hs1 as [Hp1 Hm1].
    apply orb_false_iff in Hs2 as [Hp2 Hm2].
    rewrite Hp0, Hm0, Hp1, Hm1, Hp2, Hm2. cbv iota.
    pose proof (hexValue_bound c0 H0). pose proof (hexValue_bound c1 H1).
    pose proof (hexValue_bound c2 H2).
    unfold uint8. rewrite !Z.mod_small by lia. do 3 f_equal; lia.
  - cbn [expand3 len String.length substring].
    match goal with |- (if ?b then _ else _) = _ => change b with false end. cbv iota.
    rewrite !ParseInt16_pair.
    destruct (pairParses c0 c1); [ | reflexivity].
    destruct (pairParses c2 c3); [ | reflexivity].
    destruct (pairParses c4 c5); reflexivity.
  - cbn [expand3]. unfold len. cbn [String.length].
    replace (negb (Z.of_nat (S (S (S (S (S (S (S (String.length hex)))))))) =? 6)) with true;
      [reflexivity | ].
    symmetry. apply negb_true_iff. apply Z.eqb_neq. lia.
Qed.

(** ** Text elements *)

(** X15. Every text element of the document is a piece of one line in the
    colour of a block of the input: its text is not empty, is not a single
    space and holds no newline, and its fill colour is the foreground colour
    of a block ([#FFFFFF] when that block has none). *)
Theorem text_elements_are_fragments (styledText : list (option StyledText))
        (backgroundColor : string) (x y : Z) (t style : string) :
  In (SvgText x y t style) (svgCalls styledText backgroundColor) ->
  t <> EmptyString /\ t <> " " /\ hasNewline t = false
  /\ exists block, In (Some block) styledText /\ style = textStyle (textColorOf block).
Proof.
  intros Hin. unfold svgCalls in Hin.
  destruct (fold_splitBlock_fragments styledText styledText (fun b H => H) ([], [])
              (Forall_nil _) (Forall_nil _)) as [Hl Hc].
  assert (Hfrag : Forall (Forall (fragmentOf styledText)) (splitStyledTextByLine styledText)).
  { unfold splitStyledTextByLine.
    destruct (fold_left splitBlock styledText ([], [])) as [lines cur].
    cbn [fst snd] in Hl, Hc. destruct (llen cur >? 0); [ | exact Hl].
    apply Forall_app. split; [exact Hl | constructor; [exact Hc | constructor]]. }
  set (lines := splitStyledTextByLine styledText) in *.
  destruct (calculateSVGDimensions lines) as [sw sh].
  cbn [app] in Hin. destruct Hin as [Hin | [Hin | Hin]]; try discriminate Hin.
  apply in_app_or in Hin as [Hin | [Hin | []]]; [ | discriminate Hin].
  unfold renderLines in Hin. rewrite renderLines_fold in Hin. cbn [fst app] in Hin.
  destruct (linesTexts_In _ _ _ _ _ _ Hin) as (i & line & Hnth & _ & Hl').
  assert (Hline : Forall (fragmentOf styledText) line).
  { rewrite Forall_forall in Hfrag. apply Hfrag. exact (nth_error_In _ _ Hnth). }
  assert (Hrun : exists run, In run line /\ drawn run = true /\ t = Label run
                             /\ style = textStyle (textColorOf run)).
  { clear - Hl'. revert Hl'. generalize paddingLeft.
    induction line as [ | r line IH]; intros x0 Hl'; [contradiction | ].
    cbn [lineTexts] in Hl'. apply in_app_or in Hl' as [Hl' | Hl'].
    - destruct (drawn r) eqn:Hd; [ | contradiction].
      destruct Hl' as [Heq | []]. injection Heq as _ <- <-.
      exists r. repeat split; [left; reflexivity | exact Hd].
    - destruct (IH _ Hl') as (run & Hr & Hrest). exists run. split; [right; exact Hr | exact Hrest]. }
  destruct Hrun as (run & Hr & Hd & -> & ->).
  rewrite Forall_forall in Hline. destruct (Hline run Hr) as (Hne & Hnl & block & Hb & Hfg & _).
  unfold drawn in Hd. apply andb_true_iff in Hd as [_ Hsp].
  repeat split; try assumption.
  - intros Heq. rewrite Heq in Hsp. discriminate Hsp.
  - exists block. split; [exact Hb | ]. unfold textColorOf. rewrite Hfg. reflexivity.
Qed.

Lemma text_elements_are_fragments_witness :
  "ab" <> EmptyString /\ "ab" <> " " /\ hasNewline "ab" = false.
Proof.
  destruct (text_elements_are_fragments [Some (mkStyledText "ab" None None 0 0 0 0)]
              "#000000" 1 (-2) "ab" (textStyle "#FFFFFF"))
    as (H1 & H2 & H3 & _); [cbn; right; right; left; reflexivity | ].
  repeat split; assumption.
Defined.

(** ** The pipeline as a whole *)

Lemma bind_inr {A B : Type} (c : M A) (k : A -> M B) (w w' : World) (b : B) :
  bind c k w = (inr b, w') -> exists a w1, c w = (inr a, w1) /\ k a w1 = (inr b, w').
Proof.
  unfold bind. destruct (c w) as [[e | a] w1]; [discriminate | ].
  intros H. exists a, w1. split; [reflexivity | exact H].
Qed.

Lemma bind_inl {A B : Type} (c : M A) (k : A -> M B) (w w' : World) (e : error) :
  bind c k w = (inl e, w') ->
  c w = (inl e, w') \/ exists a w1, c w = (inr a, w1) /\ k a w1 = (inl e, w').
Proof.
  unfold bind. destruct (c w) as [[e1 | a] w1].
  - intros H. injection H as -> ->. left. reflexivity.
  - intros H. right. exists a, w1. split; [reflexivity | exact H].
Qed.

(** Both dimensions of the grid are at most 500 for a positive target
    width. *)
Lemma asciiDimensions_le (undef : float64 -> Z) (bounds : Rectangle) (targetWidth : Z) :
  0 < targetWidth ->
  fst (asciiDimensions undef bounds targetWidth) <= 500
  /\ snd (asciiDimensions undef bounds targetWidth) <= 500.
Proof.
  intros Htw. unfold asciiDimensions.
  set (h0 := initialFixedHeight undef bounds targetWidth).
  assert (Hh0 : 1 <= h0 < 2 ^ 63).
  { unfold h0, initialFixedHeight.
    pose proof (F64Bounds.to_int_range undef
                  (F64.mul (F64.of_int targetWidth)
                           (F64.div (F64.of_int (Dy bounds)) (F64.of_int (Dx bounds))))) as Hr.
    destruct (Z.ltb_spec (F64.to_int undef
                            (F64.mul (F64.of_int targetWidth)
                                     (F64.div (F64.of_int (Dy bounds))
                                              (F64.of_int (Dx bounds))))) 1); lia. }
  unfold capWidth, MaxASCIIDimension.
  destruct (Z.gtb_spec targetWidth 500) as [Hbig | Hsmall].
  - pose proof (F64Bounds.to_int_range undef
                  (F64.mul (F64.of_int h0) (F64.div f500 (F64.of_int targetWidth)))) as Hr.
    set (h1 := F64.to_int undef
                 (F64.mul (F64.of_int h0) (F64.div f500 (F64.of_int targetWidth)))) in *.
    unfold capHeight, MaxASCIIDimension.
    destruct (Z.gtb_spec h1 500) as [Hh | Hh]; cbn [fst snd]; [ | lia].
    pose proof (F64Bounds.scaled_width_le undef 500 h1 ltac:(lia) ltac:(lia)). lia.
  - unfold capHeight, MaxASCIIDimension.
    destruct (Z.gtb_spec h0 500) as [Hh | Hh]; cbn [fst snd]; [ | lia].
    pose proof (F64Bounds.scaled_width_le undef targetWidth h0 ltac:(lia) ltac:(lia)). lia.
Qed.

Section Whole.

Variable undef : float64 -> Z.
Variable Decode : list Byte.byte -> option (option Image * string).
Variable Resize : Image -> Z -> Z -> Image.
Variables AdjustBrightness AdjustContrast SharpenImage : Image -> float64 -> Image.
Variable Image2ASCIIString : Image -> Z -> Z -> string.
Variable Parse : string -> option (slice (option StyledText)).
Variable svgo : SvgCall -> string.

Lemma decodeImage_inr (imageData : list Byte.byte) (w w' : World) (img : Image)
      (format : string) :
  decodeImage Decode imageData w = (inr (img, format), w') ->
  Decode imageData = Some (Some img, format) /\ 0 < Dx (Bounds img) /\ 0 < Dy (Bounds img).
Proof.
  unfold decodeImage, bind, emit, fail, ret.
  destruct (Decode imageData) as [[[i | ] f] | ]; try discriminate.
  destruct (Z.leb_spec (Dx (Bounds i)) 0) as [Hx | Hx]; cbn [orb]; [discriminate | ].
  destruct (Z.leb_spec (Dy (Bounds i)) 0) as [Hy | Hy]; [discriminate | ].
  intros Heq. injection Heq as -> -> _. repeat split; lia.
Qed.

Lemma decodeImage_inl (imageData : list Byte.byte) (w w' : World) (e : error) :
  decodeImage Decode imageData w = (inl e, w') ->
  e = ErrDecodeFailed \/ e = ErrDecodedImageNil \/ exists dx dy, e = ErrInvalidDimensions dx dy.
Proof.
  unfold decodeImage, bind, emit, fail, ret.
  destruct (Decode imageData) as [[[i | ] f] | ].
  - destruct ((Dx (Bounds i) <=? 0) || (Dy (Bounds i) <=? 0)); [ | discriminate].
    intros H. injection H as <- _. right. right. eauto.
  - intros H. injection H as <- _. right. left. reflexivity.
  - intros H. injection H as <- _. left. reflexivity.
Qed.

(** [processImage] returns no error, and what it returns is a composited
    image. *)
Lemma processImage_composited (img : Image) (opts : Options) (w : World) :
  exists filtered w',
    processImage undef Resize AdjustBrightness AdjustContrast SharpenImage img opts w
    = (inr (asImage (handleTransparency undef filtered (TransparencyColor opts)
                                        (TransparencyThreshold opts))), w').
Proof.
  unfold processImage, when, bind, emit, ret.
  destruct ((Dx (Bounds img) >? 1024) || (Dy (Bounds img) >? 1024));
    destruct (negb (F64.eqb (Brightness opts) F64.zero));
    destruct (negb (F64.eqb (Contrast opts) F64.zero));
    destruct (negb (F64.eqb (Sharpen opts) F64.zero));
    cbn [fst snd]; eexists; eexists; reflexivity.
Qed.

Lemma convertToASCII_inr (img : Image) (targetWidth : Z) (w w' : World) (s : string) :
  convertToASCII undef Image2ASCIIString img targetWidth w = (inr s, w') ->
  s = Image2ASCIIString img (fst (asciiDimensions undef (Bounds img) targetWidth))
                        (snd (asciiDimensions undef (Bounds img) targetWidth))
  /\ 1 <= len s <= MaxASCIIChars.
Proof.
  unfold convertToASCII.
  destruct (asciiDimensions undef (Bounds img) targetWidth) as [fw fh]. cbn [fst snd].
  unfold bind, emit, fail, ret.
  destruct (String.eqb_spec (Image2ASCIIString img fw fh) "") as [He | Hne]; [discriminate | ].
  destruct (Z.gtb_spec (len (Image2ASCIIString img fw fh)) MaxASCIIChars) as [Hbig | Hok];
    [discriminate | ].
  assert (Hlen : 1 <= len (Image2ASCIIString img fw fh)).
  { destruct (Image2ASCIIString img fw fh); [contradiction | ].
    unfold len. cbn [String.length]. lia. }
  destruct (len (Image2ASCIIString img fw fh) >? 3000000);
    [ | destruct (len (Image2ASCIIString img fw fh) >? 1000000)];
    intros H; injection H as <- _; (split; [reflexivity | lia]).
Qed.

Lemma convertToASCII_inl (img : Image) (targetWidth : Z) (w w' : World) (e : error) :
  convertToASCII undef Image2ASCIIString img targetWidth w = (inl e, w') ->
  e = ErrConversionFailed \/ exists n, e = ErrASCIITooLarge n.
Proof.
  unfold convertToASCII.
  destruct (asciiDimensions undef (Bounds img) targetWidth) as [fw fh].
  unfold bind, emit, fail, ret.
  destruct (String.eqb (Image2ASCIIString img fw fh) "").
  - intros H. injection H as <- _. left. reflexivity.
  - destruct (len (Image2ASCIIString img fw fh) >? MaxASCIIChars).
    + intros H. injection H as <- _. right. eauto.
    + destruct (len (Image2ASCIIString img fw fh) >? 3000000);
        [ | destruct (len (Image2ASCIIString img fw fh) >? 1000000)]; discriminate.
Qed.

Lemma parseANSI_inr (asciiString : string) (w w' : World) (st : slice (option StyledText)) :
  parseANSI Parse asciiString w = (inr st, w') ->
  exists styledText, st = Some styledText /\ Parse asciiString = Some (Some styledText)
                     /\ llen styledText <= maxStyledElements.
Proof.
  unfold parseANSI. destruct (String.eqb asciiString ""); [discriminate | ].
  unfold bind, emit, fail, ret.
  destruct (Parse asciiString) as [[styledText | ] | ]; try discriminate.
  destruct (Z.gtb_spec (llen styledText) maxStyledElements) as [Hbig | Hok]; [discriminate | ].
  destruct (llen styledText >? 30000); intros Heq; injection Heq as <- _;
    exists styledText; repeat split; lia.
Qed.

Lemma parseANSI_inl (asciiString : string) (w w' : World) (e : error) :
  asciiString <> EmptyString ->
  parseANSI Parse asciiString w = (inl e, w') ->
  e = ErrParseANSI \/ e = ErrStyledTextNilAfterParsing
  \/ exists n, e = ErrTooManyStyledElements n.
Proof.
  intros Hne. unfold parseANSI.
  destruct (String.eqb_spec asciiString ""); [contradiction | ].
  unfold bind, emit, fail, ret.
  destruct (Parse asciiString) as [[styledText | ] | ].
  - destruct (llen styledText >? maxStyledElements).
    + intros H. injection H as <- _. right. right. eauto.
    + destruct (llen styledText >? 30000); discriminate.
  - intros H. injection H as <- _. right. left. reflexivity.
  - intros H. injection H as <- _. left. reflexivity.
Qed.

Lemma renderToSVG_some (styledText : list (option StyledText)) (backgroundColor : string)
      (w : World) :
  exists w', renderToSVG svgo (Some styledText) backgroundColor w
             = (inr (written svgo EmptyString (svgCalls styledText backgroundColor)), w').
Proof.
  unfold renderToSVG.
  destruct (calculateSVGDimensions (splitStyledTextByLine styledText)) as [sw sh].
  unfold bind, poolGet, poolPut, emit, ret, Reset.
  destruct (bufferPool w); eexists; reflexivity.
Qed.

(** X16. What a run that returns a document went through: the bytes and the
    target width passed the checks of the entry; the decoder gave an image
    of positive width and height; the converter was handed a composited
    image and a grid of at most 500 by 500, and gave between 1 and 5000000
    bytes; the parser gave at most 100000 blocks for them; and the document
    is what the canvas wrote for these blocks on the normalised background
    colour, at most 10 MiB of it. *)
Theorem pipeline_success (imageData : list Byte.byte) (opts : Options) (w w' : World)
        (svg : string) :
  ProcessImageToSVG undef Decode Resize AdjustBrightness AdjustContrast SharpenImage
                    Image2ASCIIString Parse svgo imageData opts w = (inr svg, w') ->
  (0 < llen imageData <= MaxImageSize /\ 0 < TargetWidth opts)
  /\ exists img format filtered fixedWidth fixedHeight styledText,
       Decode imageData = Some (Some img, format)
       /\ (0 < Dx (Bounds img) /\ 0 < Dy (Bounds img))
       /\ (fixedWidth, fixedHeight) = asciiDimensions undef (Bounds filtered) (TargetWidth opts)
       /\ (fixedWidth <= 500 /\ fixedHeight <= 500)
       /\ (let normalised := setDefaults opts in
           let processed :=
             asImage (handleTransparency undef filtered (TransparencyColor normalised)
                                         (TransparencyThreshold normalised)) in
           let asciiString := Image2ASCIIString processed fixedWidth fixedHeight in
           1 <= len asciiString <= MaxASCIIChars
           /\ Parse asciiString = Some (Some styledText)
           /\ llen styledText <= 100000
           /\ svg = written svgo EmptyString
                      (svgCalls styledText (BackgroundColor normalised))
           /\ len svg <= MaxOutputSize).
Proof.
  unfold ProcessImageToSVG. intros Hrun.
  assert (Hval : validateInput imageData opts = None)
    by (destruct (validateInput imageData opts); [discriminate Hrun | reflexivity]).
  rewrite Hval in Hrun.
  assert (Hchecks : 0 < llen imageData <= MaxImageSize /\ 0 < TargetWidth opts).
  { unfold validateInput in Hval.
    destruct (Z.eqb_spec (llen imageData) 0); [discriminate Hval | ].
    destruct (Z.gtb_spec (llen imageData) MaxImageSize); [discriminate Hval | ].
    destruct (Z.leb_spec (TargetWidth opts) 0); [discriminate Hval | ].
    unfold llen in *. lia. }
  split; [exact Hchecks | ].
  apply bind_inr in Hrun as ([img format] & w1 & Hdec & Hrun).
  apply decodeImage_inr in Hdec as (Hdec & Hdx & Hdy).
  apply bind_inr in Hrun as (_ & w2 & _ & Hrun).
  apply bind_inr in Hrun as (processed & w3 & Hproc & Hrun).
  destruct (processImage_composited img (setDefaults opts) w2) as (filtered & w3' & Hproc').
  assert (Hp : asImage (handleTransparency undef filtered
                                          (TransparencyColor (setDefaults opts))
                                          (TransparencyThreshold (setDefaults opts)))
               = processed) by congruence.
  subst processed. clear Hproc Hproc'.
  apply bind_inr in Hrun as (asciiString & w4 & Hconv & Hrun).
  apply convertToASCII_inr in Hconv as (Hascii & Hlen).
  apply bind_inr in Hrun as (st & w5 & Hparse & Hrun).
  apply parseANSI_inr in Hparse as (styledText & -> & Hparse & Hcount).
  apply bind_inr in Hrun as (svgString & w6 & Hrender & Hrun).
  destruct (renderToSVG_some styledText (BackgroundColor (setDefaults opts)) w5)
    as (w6' & Hrender').
  assert (Hs : written svgo EmptyString
                       (svgCalls styledText (BackgroundColor (setDefaults opts))) = svgString)
    by congruence.
  subst svgString. clear Hrender Hrender'.
  destruct (Z.gtb_spec (len (written svgo EmptyString
                               (svgCalls styledText (BackgroundColor (setDefaults opts)))))
                       MaxOutputSize) as [Hbig | Hok]; [discriminate Hrun | ].
  assert (Hsvg : written svgo EmptyString
                         (svgCalls styledText (BackgroundColor (setDefaults opts))) = svg)
    by (unfold ret in Hrun; congruence).
  subst svg. clear Hrun.
  change (Bounds (asImage (handleTransparency undef filtered
                             (TransparencyColor (setDefaults opts))
                             (TransparencyThreshold (setDefaults opts)))))
    with (Rect (handleTransparency undef filtered (TransparencyColor (setDefaults opts))
                                   (TransparencyThreshold (setDefaults opts)))) in Hascii.
  pose proof (handleTransparency_Rect undef filtered (TransparencyColor (setDefaults opts))
                                      (TransparencyThreshold (setDefaults opts))) as HR.
  rewrite HR in Hascii.
  change (TargetWidth (setDefaults opts)) with (TargetWidth opts) in Hascii.
  exists img, format, filtered,
    (fst (asciiDimensions undef (Bounds filtered) (TargetWidth opts))),
    (snd (asciiDimensions undef (Bounds filtered) (TargetWidth opts))), styledText.
  split; [exact Hdec | ]. split; [split; assumption | ].
  split; [destruct (asciiDimensions undef (Bounds filtered) (TargetWidth opts)); reflexivity | ].
  split; [apply asciiDimensions_le; lia | ].
  cbv zeta. rewrite <- Hascii.
  repeat split; try assumption; try lia.
Qed.

(** Once the checks of the entry have passed, an error comes from the
    decoder, the converter, the parser or the limit on the document. *)
Lemma errors_after_validation (imageData : list Byte.byte) (opts : Options)
      (w w' : World) (e : error) :
  validateInput imageData opts = None ->
  ProcessImageToSVG undef Decode Resize AdjustBrightness AdjustContrast SharpenImage
                    Image2ASCIIString Parse svgo imageData opts w = (inl e, w') ->
  raisedByStage e = true.
Proof.
  unfold ProcessImageToSVG. intros Hval Hrun. rewrite Hval in Hrun.
  apply bind_inl in Hrun as [Hdec | ([img format] & w1 & _ & Hrun)].
  { apply decodeImage_inl in Hdec as [-> | [-> | (dx & dy & ->)]]; reflexivity. }
  apply bind_inl in Hrun as [Hemit | (_ & w2 & _ & Hrun)]; [discriminate Hemit | ].
  destruct (processImage_composited img (setDefaults opts) w2) as (filtered & w3 & Hproc).
  apply bind_inl in Hrun as [Hp | (processed & w3' & _ & Hrun)];
    [rewrite Hproc in Hp; discriminate Hp | ].
  apply bind_inl in Hrun as [Hconv | (asciiString & w4 & Hconv & Hrun)].
  { apply convertToASCII_inl in Hconv as [-> | (n & ->)]; reflexivity. }
  apply convertToASCII_inr in Hconv as (_ & Hlen).
  assert (Hne : asciiString <> EmptyString).
  { intros ->. unfold len in Hlen. cbn in Hlen. lia. }
  apply bind_inl in Hrun as [Hparse | (st & w5 & Hparse & Hrun)].
  { apply (parseANSI_inl _ _ _ _ Hne) in Hparse as [-> | [-> | (n & ->)]]; reflexivity. }
  apply parseANSI_inr in Hparse as (styledText & -> & _ & _).
  destruct (renderToSVG_some styledText (BackgroundColor (setDefaults opts)) w5)
    as (w6 & Hrender).
  apply bind_inl in Hrun as [Hr | (svgString & w6' & _ & Hrun)];
    [rewrite Hrender in Hr; discriminate Hr | ].
  destruct (len svgString >? MaxOutputSize); [ | discriminate Hrun].
  unfold fail in Hrun. assert (He : e = ErrOutputTooLarge (len svgString)) by congruence.
  rewrite He. reflexivity.
Qed.

(** X17. Two checks of the stages never fail in a run of the pipeline: the
    extractor is never handed an empty string, for the converter stage
    fails on it first, and the renderer is never handed a nil slice, for
    the extractor fails on it first. *)
Theorem pipeline_unreachable_errors (imageData : list Byte.byte) (opts : Options)
        (w w' : World) (e : error) :
  ProcessImageToSVG undef Decode Resize AdjustBrightness AdjustContrast SharpenImage
                    Image2ASCIIString Parse svgo imageData opts w = (inl e, w') ->
  e <> ErrASCIIStringEmpty /\ e <> ErrStyledTextNil.
Proof.
  intros Hrun.
  destruct (validateInput imageData opts) as [err | ] eqn:Hval.
  - unfold ProcessImageToSVG in Hrun. rewrite Hval in Hrun.
    assert (He : e = err) by (unfold fail in Hrun; congruence). subst e.
    unfold validateInput in Hval.
    destruct (llen imageData =? 0); [injection Hval as <-; split; discriminate | ].
    destruct (llen imageData >? MaxImageSize); [injection Hval as <-; split; discriminate | ].
    destruct (TargetWidth opts <=? 0); [injection Hval as <-; split; discriminate | ].
    discriminate Hval.
  - pose proof (errors_after_validation imageData opts w w' e Hval Hrun) as Hst.
    split; intros ->; discriminate Hst.
Qed.

End Whole.

Lemma pipeline_unreachable_errors_witness :
  let run := ProcessImageToSVG (fun _ => 0) (fun _ => None) (fun i _ _ => i) (fun i _ => i)
               (fun i _ => i) (fun i _ => i) (fun _ _ _ => EmptyString) (fun _ => None)
               (fun _ => EmptyString) [Byte.x00]
               (mkOptions 10 F64.zero F64.zero F64.zero "" "" F64.zero) in
  ErrDecodeFailed <> ErrASCIIStringEmpty /\ ErrDecodeFailed <> ErrStyledTextNil.
Proof.
  cbv zeta.
  exact (pipeline_unreachable_errors (fun _ => 0) (fun _ => None) (fun i _ _ => i)
           (fun i _ => i) (fun i _ => i) (fun i _ => i) (fun _ _ _ => EmptyString)
           (fun _ => None) (fun _ => EmptyString) [Byte.x00]
           (mkOptions 10 F64.zero F64.zero F64.zero "" "" F64.zero)
           (mkWorld [] []) (mkWorld [] [CallDecode]) ErrDecodeFailed eq_refl).
Defined.

Lemma pipeline_success_witness :
  0 < llen [Byte.x00] <= MaxImageSize /\ 0 < 10.
Proof.
  set (run := ProcessImageToSVG (fun _ => 0)
                (fun _ => Some (Some halfOpaqueImage, "png")) (fun i _ _ => i)
                (fun i _ => i) (fun i _ => i) (fun i _ => i) (fun _ _ _ => "a")
                (fun _ => Some (Some [Some (mkStyledText "a" None None 0 0 0 0)]))
                (fun _ => "x") [Byte.x00]
                (mkOptions 10 F64.zero F64.zero F64.zero "" "" F64.zero) (mkWorld [] [])).
  assert (Hrun : run = (inr "xxxx", snd run)) by (vm_compute; reflexivity).
  exact (proj1 (pipeline_success (fun _ => 0)
                  (fun _ => Some (Some halfOpaqueImage, "png")) (fun i _ _ => i)
                  (fun i _ => i) (fun i _ => i) (fun i _ => i) (fun _ _ _ => "a")
                  (fun _ => Some (Some [Some (mkStyledText "a" None None 0 0 0 0)]))
                  (fun _ => "x") [Byte.x00]
                  (mkOptions 10 F64.zero F64.zero F64.zero "" "" F64.zero)
                  (mkWorld [] []) (snd run) "xxxx" Hrun)).
Defined.

(** ** Rounding errors, again: quotients, sums and differences *)

Module F64More.

Import F64Bounds.

Section MoreValues.

Local Open Scope R_scope.

(** The quotient of a float that is not negative by a float that is at
    least one half: at most [Q * (1 + 2 * eps) + 3 * eta] for a [Q] that is
    at most the exact quotient. *)
Lemma div_bounds (a x : float64) :
  is_nonneg a = true -> is_nonneg x = true ->
  / 2 <= F2R x -> F2R a < bpow 900 ->
  is_nonneg (F64.div a x) = true
  /\ exists Q, 0 <= Q /\ Q * F2R x <= F2R a
               /\ F2R (F64.div a x) <= Q * (1 + 2 * eps) + 3 * eta.
Proof.
  intros Ha Hx Hhalf Hbig. pose proof eps_small as Heps. pose proof eta_small as Heta.
  destruct x as [[ | ] | | | [ | ] mx ex]; try discriminate Hx; cbn [F2R] in Hhalf; try lra.
  destruct a as [[ | ] | | | [ | ] ma ea]; try discriminate Ha.
  { split; [reflexivity | ]. exists 0. cbn [F64.div SFdiv xorb F2R]. repeat split; lra. }
  cbn [F2R] in Hbig |- *.
  unfold F64.div, SFdiv, SFdiv_core_binary. cbn [xorb Zdigits2].
  set (da := Zpos (digits2_pos ma)). set (dx := Zpos (digits2_pos mx)).
  set (e' := Z.min (fexp F64.prec F64.emax (da + ea - (dx + ex))) (ea - ex)).
  set (s := (ea - ex - e')%Z).
  assert (Hs : (0 <= s)%Z) by (unfold s, e'; lia).
  set (m' := match s with
             | 0%Z => Zpos ma
             | Zpos _ => Z.shiftl (Zpos ma) s
             | Zneg _ => 0%Z
             end).
  assert (Hm' : m' = (Zpos ma * 2 ^ s)%Z).
  { unfold m'. clearbody s.
    destruct s as [ | p | p]; [cbn; lia | apply Z.shiftl_mul_pow2; lia | lia]. }
  pose proof (Z.mul_div_le m' (Zpos mx) ltac:(lia)) as Hq.
  assert (H2s : (0 < 2 ^ s)%Z) by (apply Z.pow_pos_nonneg; lia).
  assert (Hq0 : (0 <= m' / Zpos mx)%Z) by (apply Z.div_pos; lia).
  (* a quotient of 53 bits, unless the exponent is the smallest one *)
  assert (Hq52 : (e' <= -1074)%Z \/ (2 ^ 52 <= m' / Zpos mx)%Z).
  { destruct (Z.le_gt_cases e' (-1074)) as [Hle | Hgt]; [left; exact Hle | right].
    assert (He' : (e' <= da + ea - (dx + ex) - 53)%Z)
      by (unfold e', fexp, emin, F64.prec, F64.emax in *; lia).
    assert (Hs53 : (53 + dx - da <= s)%Z) by (unfold s; lia).
    pose proof (digits2_lower ma) as Hla. fold da in Hla.
    pose proof (digits2_upper mx) as Hux. fold dx in Hux.
    assert (Hda : (1 <= da)%Z) by (unfold da; lia).
    assert (Hdx : (1 <= dx)%Z) by (unfold dx; lia).
    assert (Hpow : (2 ^ (52 + dx) <= 2 ^ (da - 1) * 2 ^ s)%Z).
    { rewrite <- Z.pow_add_r by lia. apply Z.pow_le_mono_r; lia. }
    assert (Hdxp : (2 ^ (52 + dx) = 2 ^ 52 * 2 ^ dx)%Z) by (apply Z.pow_add_r; lia).
    assert (Hle : (2 ^ 52 * Zpos mx <= m')%Z) by (rewrite Hm'; nia).
    replace (2 ^ 52)%Z with ((2 ^ 52 * Zpos mx) / Zpos mx)%Z
      by (apply Z.div_mul; lia).
    apply Z.div_le_mono; lia. }
  unfold Z.div in Hq, Hq0, Hq52.
  destruct (Z.div_eucl m' (Zpos mx)) as [q r] eqn:Hqr. cbn [fst] in Hq, Hq0, Hq52.
  destruct (binary_round_aux_bounds q e' (new_location (Zpos mx) r) Hq0)
    as (m2 & e2 & Hm2 & Hres & Hup & _).
  (* the quotient of the mantissas *)
  assert (Hquot : val q e' * val (Zpos mx) ex <= val (Zpos ma) ea).
  { apply IZR_le in Hq. rewrite mult_IZR, Hm', mult_IZR, <- bpow_IZR in Hq by exact Hs.
    unfold val. unfold s in Hq.
    replace (ea - ex - e')%Z with (ea + (- ex + - e'))%Z in Hq by lia.
    rewrite !bpow_add in Hq.
    assert (Hex : bpow (- ex) * bpow ex = 1).
    { rewrite <- bpow_add. replace (- ex + ex)%Z with 0%Z by lia. apply (bpow_IZR 0). lia. }
    assert (Hee : bpow (- e') * bpow e' = 1).
    { rewrite <- bpow_add. replace (- e' + e')%Z with 0%Z by lia. apply (bpow_IZR 0). lia. }
    pose proof (bpow_pos ex). pose proof (bpow_pos e').
    pose proof (bpow_pos (- ex)). pose proof (bpow_pos (- e')). pose proof (bpow_pos ea).
    assert (Hstep : IZR (Zpos mx) * IZR q * (bpow e' * bpow ex)
                    <= IZR (Zpos ma) * (bpow ea * (bpow (- ex) * bpow (- e')))
                       * (bpow e' * bpow ex)).
    { apply Rmult_le_compat_r; [nra | exact Hq]. }
    replace (IZR (Zpos ma) * (bpow ea * (bpow (- ex) * bpow (- e'))) * (bpow e' * bpow ex))
      with (IZR (Zpos ma) * bpow ea * ((bpow (- ex) * bpow ex) * (bpow (- e') * bpow e')))
      in Hstep by ring.
    rewrite Hex, Hee in Hstep. lra. }
  pose proof (val_nonneg q e' Hq0) as Hvq.
  pose proof (val_nonneg (Zpos ma) ea ltac:(lia)) as Hva.
  (* one unit of the exponent of the quotient *)
  assert (Hunit : bpow e' <= val q e' * eps + eta).
  { destruct Hq52 as [Hmin | H52].
    - assert (bpow e' <= eta) by (apply bpow_le; exact Hmin).
      assert (0 <= val q e' * eps) by nra. lra.
    - apply IZR_le in H52. rewrite <- bpow_IZR in H52 by lia.
      unfold val, eps. assert (Hb : bpow (-52) = / bpow 52) by exact (bpow_neg 52).
      rewrite Hb. pose proof (bpow_pos 52) as H52p. pose proof (bpow_pos e') as He'p.
      assert (Hinv : bpow 52 * / bpow 52 = 1) by (field; lra).
      assert (bpow e' * (bpow 52 * / bpow 52) <= IZR q * bpow e' * / bpow 52); [ | nra].
      assert (Hi : 0 < / bpow 52) by (apply Rinv_0_lt_compat; exact H52p).
      replace (bpow e' * (bpow 52 * / bpow 52)) with (bpow 52 * bpow e' * / bpow 52) by ring.
      apply Rmult_le_compat_r; [lra | ]. apply Rmult_le_compat_r; lra. }
  (* the error of the rounding *)
  assert (Herr : bpow (Z.max e' (fexp F64.prec F64.emax (Zdigits2 q + e')))
                 <= val q e' * (2 * eps) + 3 * eta).
  { eapply Rle_trans; [apply bpow_max | ].
    assert (bpow (fexp F64.prec F64.emax (Zdigits2 q + e')) <= val q e' * eps + 2 * eta);
      [ | lra].
    destruct (Z.eq_dec q 0) as [-> | Hqnz].
    - destruct Hq52 as [Hmin | H52]; [ | cbn in H52; lia].
      cbn [Zdigits2]. unfold val. rewrite Rmult_0_l, Rmult_0_l, Rplus_0_l.
      transitivity eta; [ | lra]. apply bpow_le.
      unfold fexp, emin, F64.prec, F64.emax. lia.
    - pose proof (ulp_bound q e' ltac:(lia)). lra. }
  assert (Hqle : val q e' <= 2 * val (Zpos ma) ea) by nra.
  assert (Hlt : val m2 e2 < bpow 972).
  { pose proof bpow_900_972 as [Hone Hfour]. pose proof (bpow_pos 900).
    assert (val q e' * (2 * eps) <= val q e' / 2) by nra. lra. }
  destruct (result_of_nonneg m2 e2 Hm2 Hlt) as [Hnn HF].
  rewrite Hres. split; [exact Hnn | ]. exists (val q e'). rewrite HF.
  split; [exact Hvq | ]. split; [exact Hquot | ]. lra.
Qed.

Lemma F2R_f1024 : F2R f1024 = 1024.
Proof.
  unfold f1024, F2R, val.
  assert (H : bpow (-42) = / bpow 42) by exact (bpow_neg 42).
  rewrite H, (bpow_IZR 42) by lia. change (2 ^ 42)%Z with 4398046511104%Z. field.
Qed.

Lemma F2R_f500 : F2R f500 = 500.
Proof.
  unfold f500, F2R, val.
  assert (H : bpow (-44) = / bpow 44) by exact (bpow_neg 44).
  rewrite H, (bpow_IZR 44) by lia. change (2 ^ 44)%Z with 17592186044416%Z. field.
Qed.

Lemma F2R_f255 : F2R f255 = 255.
Proof.
  unfold f255, F2R, val.
  assert (H : bpow (-45) = / bpow 45) by exact (bpow_neg 45).
  rewrite H, (bpow_IZR 45) by lia. change (2 ^ 45)%Z with 35184372088832%Z. field.
Qed.

Lemma F2R_one : F2R F64.one = 1.
Proof.
  unfold F64.one, F2R, val.
  assert (H : bpow (-52) = / bpow 52) by exact (bpow_neg 52).
  rewrite H, (bpow_IZR 52) by lia. change (2 ^ 52)%Z with 4503599627370496%Z. field.
Qed.

(** [float64(n)] for an integer that is not negative. *)
Lemma of_int_upper (n : Z) :
  (0 <= n)%Z -> IZR n < bpow 900 ->
  is_nonneg (F64.of_int n) = true /\ F2R (F64.of_int n) <= IZR n * (1 + eps) + eta.
Proof.
  intros Hn Hbig. destruct (Z.eq_dec n 0) as [-> | Hnz].
  - pose proof eta_small. split; [reflexivity | ]. cbn [F64.of_int binary_normalize F2R]. lra.
  - destruct (of_int_bounds n ltac:(lia) Hbig) as [Hnn [_ Hup]]. split; assumption.
Qed.

Lemma val_pos (m : positive) (e : Z) : 0 < val (Zpos m) e.
Proof.
  pose proof (val_bpow_le (Zpos m) e ltac:(lia)). pose proof (bpow_pos e). lra.
Qed.

(** [binary_normalize] on a positive mantissa: the relative error of one
    rounding. *)
Lemma normalize_bounds (m e : Z) :
  (0 < m)%Z -> val m e < bpow 900 ->
  is_nonneg (binary_normalize F64.prec F64.emax m e false) = true
  /\ F2R (binary_normalize F64.prec F64.emax m e false) <= val m e * (1 + eps) + eta.
Proof.
  intros Hm Hbig. destruct m as [ | p | p]; try lia.
  unfold binary_normalize, binary_round.
  pose proof (shl_align_val p e (fexp F64.prec F64.emax (Zpos (digits2_pos p) + e))) as Hal.
  destruct (shl_align p e (fexp F64.prec F64.emax (Zpos (digits2_pos p) + e))) as [mz ez].
  cbn [fst snd] in Hal.
  destruct (binary_round_aux_bounds (Zpos mz) ez loc_Exact ltac:(lia))
    as (m2 & e2 & Hm2 & Hres & _ & Hex).
  specialize (Hex eq_refl ltac:(lia)). rewrite Hal in Hex.
  pose proof eps_small. pose proof eta_small. pose proof (val_pos p e) as Hp.
  assert (Hlt : val m2 e2 < bpow 972).
  { pose proof bpow_900_972 as [Hone Hfour].
    assert (val (Zpos p) e * eps <= val (Zpos p) e) by nra. lra. }
  destruct (result_of_nonneg m2 e2 Hm2 Hlt) as [Hnn HF].
  rewrite Hres. split; [exact Hnn | ]. rewrite HF. apply Hex.
Qed.

Lemma shl_align_snd (mx : positive) (ex ez : Z) :
  (ez <= ex)%Z -> snd (shl_align mx ex ez) = ez.
Proof.
  intros H. unfold shl_align.
  destruct (ez - ex)%Z as [ | d | d] eqn:Hd; cbn [snd]; lia.
Qed.

(** The two mantissas of a sum or a difference, brought to the smaller
    exponent. *)
Lemma aligned (ma mb : positive) (ea eb : Z) :
  let ez := Z.min ea eb in
  val (Zpos (fst (shl_align ma ea ez))) ez = val (Zpos ma) ea
  /\ val (Zpos (fst (shl_align mb eb ez))) ez = val (Zpos mb) eb.
Proof.
  cbv zeta. split.
  - rewrite <- (shl_align_snd ma ea (Z.min ea eb)) at 2 by lia. apply shl_align_val.
  - rewrite <- (shl_align_snd mb eb (Z.min ea eb)) at 2 by lia. apply shl_align_val.
Qed.

(** The sum of two floats that are not negative. *)
Lemma add_bounds (a b : float64) :
  is_nonneg a = true -> is_nonneg b = true ->
  F2R a + F2R b < bpow 900 ->
  is_nonneg (F64.add a b) = true
  /\ F2R (F64.add a b) <= (F2R a + F2R b) * (1 + eps) + eta.
Proof.
  intros Ha Hb Hbig. pose proof eps_small. pose proof eta_small.
  destruct a as [[ | ] | | | [ | ] ma ea]; try discriminate Ha;
    destruct b as [[ | ] | | | [ | ] mb eb]; try discriminate Hb;
    cbn [F2R] in Hbig |- *.
  - split; [reflexivity | ]. cbn [F64.add SFadd F2R]. lra.
  - pose proof (val_pos mb eb). split; [reflexivity | ]. cbn [F64.add SFadd F2R]. nra.
  - pose proof (val_pos ma ea). split; [reflexivity | ]. cbn [F64.add SFadd F2R]. nra.
  - unfold F64.add, SFadd. cbn [cond_Zopp].
    destruct (aligned ma mb ea eb) as [Hva Hvb]. cbv zeta in Hva, Hvb.
    set (ez := Z.min ea eb) in *.
    set (Ma := fst (shl_align ma ea ez)) in *. set (Mb := fst (shl_align mb eb ez)) in *.
    assert (Hsum : val (Zpos Ma + Zpos Mb) ez = val (Zpos ma) ea + val (Zpos mb) eb).
    { rewrite <- Hva, <- Hvb. unfold val. rewrite plus_IZR. ring. }
    destruct (normalize_bounds (Zpos Ma + Zpos Mb) ez ltac:(lia) ltac:(rewrite Hsum; exact Hbig))
      as [Hnn Hup].
    split; [exact Hnn | ]. rewrite Hsum in Hup. exact Hup.
Qed.

(** The difference of two floats that are not negative, the larger one
    first. *)
Lemma sub_bounds (a b : float64) :
  is_nonneg a = true -> is_nonneg b = true ->
  F2R b <= F2R a -> F2R a < bpow 900 ->
  is_nonneg (F64.sub a b) = true
  /\ F2R (F64.sub a b) <= (F2R a - F2R b) * (1 + eps) + eta.
Proof.
  intros Ha Hb Hle Hbig. pose proof eps_small. pose proof eta_small.
  destruct a as [[ | ] | | | [ | ] ma ea]; try discriminate Ha;
    destruct b as [[ | ] | | | [ | ] mb eb]; try discriminate Hb;
    cbn [F2R] in Hbig, Hle |- *.
  - split; [reflexivity | ]. cbn [F64.sub SFsub F2R]. lra.
  - pose proof (val_pos mb eb). lra.
  - pose proof (val_pos ma ea). split; [reflexivity | ]. cbn [F64.sub SFsub F2R]. nra.
  - unfold F64.sub, SFsub. cbn [cond_Zopp].
    destruct (aligned ma mb ea eb) as [Hva Hvb]. cbv zeta in Hva, Hvb.
    set (ez := Z.min ea eb) in *.
    set (Ma := fst (shl_align ma ea ez)) in *. set (Mb := fst (shl_align mb eb ez)) in *.
    assert (Hdiff : val (Zpos Ma - Zpos Mb) ez = val (Zpos ma) ea - val (Zpos mb) eb).
    { rewrite <- Hva, <- Hvb. unfold val. rewrite minus_IZR. ring. }
    pose proof (val_pos mb eb) as Hpb.
    assert (Hnn : (0 <= Zpos Ma - Zpos Mb)%Z).
    { destruct (Z.le_gt_cases 0 (Zpos Ma - Zpos Mb)) as [Hpos | Hnegz]; [exact Hpos | exfalso].
      assert (Hneg : val (Zpos Ma - Zpos Mb) ez < 0).
      { unfold val. pose proof (bpow_pos ez).
        assert (IZR (Zpos Ma - Zpos Mb) <= -1) by (apply IZR_le; lia). nra. }
      lra. }
    destruct (Z.eq_dec (Zpos Ma - Zpos Mb) 0) as [Hz | Hnz].
    + rewrite Hz in Hdiff |- *. unfold val in Hdiff at 1. rewrite Rmult_0_l in Hdiff.
      split; [reflexivity | ]. cbn [binary_normalize F2R]. rewrite <- Hdiff. lra.
    + destruct (normalize_bounds (Zpos Ma - Zpos Mb) ez ltac:(lia)
                  ltac:(rewrite Hdiff; lra)) as [Hn Hup].
      split; [exact Hn | ]. rewrite Hdiff in Hup. exact Hup.
Qed.

(** A conversion whose integer part fits does not depend on what the
    platform does otherwise. *)
Lemma to_integer_defined (undef : float64 -> Z) (lo hi : Z) (f : float64) (t : Z) :
  F64.trunc f = Some t -> (lo <= t <= hi)%Z -> F64.to_integer undef lo hi f = t.
Proof.
  intros Ht Hr. unfold F64.to_integer. rewrite Ht.
  replace ((lo <=? t)%Z && (t <=? hi)%Z) with true; [reflexivity | ].
  symmetry. apply andb_true_iff. split; apply Z.leb_le; lia.
Qed.

Lemma eta_times (v : Rdefinitions.R) : 0 <= v <= bpow 64 -> eta * v <= eps.
Proof.
  intros Hv. pose proof eta_small as Heta. unfold eta, eps in *.
  assert (Hb : bpow (-1074) * bpow 64 <= bpow (-52)).
  { rewrite <- bpow_add. apply bpow_le. lia. }
  assert (bpow (-1074) * v <= bpow (-1074) * bpow 64) by (apply Rmult_le_compat_l; lra).
  lra.
Qed.

Lemma bpow_63_64 : bpow 63 = IZR (2 ^ 63) /\ IZR (2 ^ 63) * 2 = bpow 64 /\ bpow 64 < bpow 900.
Proof.
  split; [apply bpow_IZR; lia | ]. split.
  - rewrite <- (bpow_IZR 63) by lia. replace 64%Z with (63 + 1)%Z by lia.
    rewrite bpow_add. f_equal. rewrite (bpow_IZR 1) by lia. reflexivity.
  - pose proof (bpow_le 64 899 ltac:(lia)). pose proof (bpow_pos 899).
    replace 900%Z with (899 + 1)%Z by lia. rewrite bpow_add, (bpow_IZR 1) by lia.
    change (IZR (2 ^ 1)) with 2. lra.
Qed.

(** Steps of the bounds, on real numbers. *)
Lemma times_eps (x y : Rdefinitions.R) : x <= y -> x * eps <= y * eps.
Proof. intros H. pose proof eps_small. apply Rmult_le_compat_r; lra. Qed.

Lemma eps_square : eps * eps <= eps * / 1000000000000.
Proof. pose proof eps_small. apply Rmult_le_compat_l; lra. Qed.

Lemma product_le (a b a' b' : Rdefinitions.R) :
  0 <= a <= a' -> 0 <= b <= b' -> 0 <= a * b <= a' * b'.
Proof.
  intros Ha Hb. split; [apply Rmult_le_pos; lra | ].
  apply Rmult_le_compat; lra.
Qed.

(** A value of at most [b], after one rounding up. *)
Lemma rounded_le (x b : Rdefinitions.R) :
  x <= b -> x * (1 + eps) + eta <= b + (b + 1) * eps.
Proof.
  intros Hx. pose proof eps_small. pose proof eta_small. pose proof (times_eps x b Hx). lra.
Qed.

(** A value of at least [b], after one rounding down. *)
Lemma rounded_ge (x b : Rdefinitions.R) :
  b <= x -> b - (2 * b + 2) * eps <= x * (1 - 2 * eps) - 2 * eta.
Proof.
  intros Hx. pose proof eps_small. pose proof eta_small.
  assert (b * (1 - 2 * eps) <= x * (1 - 2 * eps)) by (apply Rmult_le_compat_r; lra). lra.
Qed.

(** A quotient of at most [b], after the rounding of the division. *)
Lemma quotient_le (Q b : Rdefinitions.R) :
  Q <= b -> Q * (1 + 2 * eps) + 3 * eta <= b + (2 * b + 3) * eps.
Proof.
  intros HQ. pose proof eps_small. pose proof eta_small. pose proof (times_eps Q b HQ). lra.
Qed.

(** From [Q * x <= a] to a bound on [Q]. *)
Lemma quotient_bound (Q x a c : Rdefinitions.R) :
  0 < x -> Q * x <= a -> a <= c * x -> Q <= c.
Proof.
  intros Hx HQ Ha. apply Rmult_le_reg_r with (r := x); lra.
Qed.

(** One side of the resized image: the side [v] times the float
    [1024 / m], for [m] the larger side. *)
Lemma resized_side (v m : Z) :
  (0 < v <= m)%Z -> (1024 < m < 2 ^ 63)%Z ->
  exists t, F64.trunc (F64.mul (F64.of_int v) (F64.div f1024 (F64.of_int m))) = Some t
            /\ (0 <= t <= 1024)%Z.
Proof.
  intros Hv Hm. pose proof eps_small as Heps. pose proof eta_small as Heta.
  pose proof eps_square as Hee.
  destruct bpow_63_64 as (H63 & H64 & H900).
  assert (Hmr : 1025 <= IZR m < IZR (2 ^ 63)) by (split; [apply IZR_le | apply IZR_lt]; lia).
  assert (Hvr : 1 <= IZR v <= IZR m) by (split; apply IZR_le; lia).
  destruct (of_int_bounds m ltac:(lia) ltac:(lra)) as [HmN [HmL HmU]].
  destruct (of_int_bounds v ltac:(lia) ltac:(lra)) as [HvN [_ HvU]].
  set (xm := F2R (F64.of_int m)) in *. set (av := F2R (F64.of_int v)) in *.
  pose proof (times_eps _ _ (proj2 Hvr)) as Hve.
  pose proof (times_eps _ _ (proj1 Hmr)) as Hme.
  assert (Hmee : IZR m * eps * eps <= IZR m * eps * / 1000000000000)
    by (apply Rmult_le_compat_l; lra).
  assert (Hetae : eta * eps <= eps * eps) by (apply Rmult_le_compat_r; lra).
  pose proof (rounded_ge _ _ (proj1 Hmr)) as HmL'.
  assert (Hxm : 1024 <= xm) by lra.
  destruct (div_bounds f1024 (F64.of_int m) eq_refl HmN ltac:(fold xm; lra)
              ltac:(rewrite F2R_f1024; lra)) as [HsN (Q & HQ0 & HQ & HsU)].
  rewrite F2R_f1024 in HQ. fold xm in HQ.
  set (s := F2R (F64.div f1024 (F64.of_int m))) in *.
  pose proof (is_nonneg_F2R _ HsN) as Hs0. fold s in Hs0.
  pose proof (is_nonneg_F2R _ HvN) as Hav0. fold av in Hav0.
  assert (Hav : av <= xm * (1 + 4 * eps)).
  { pose proof (times_eps _ _ HmL) as Hxe. lra. }
  assert (HavQ : av * Q <= 1024 + 4096 * eps).
  { assert (av * Q <= xm * (1 + 4 * eps) * Q) by (apply Rmult_le_compat_r; assumption).
    pose proof (times_eps _ _ HQ). lra. }
  assert (Havbig : av <= bpow 64).
  { assert (IZR v * eps <= IZR v * 1) by (apply Rmult_le_compat_l; lra). lra. }
  pose proof (eta_times av ltac:(lra)) as Heta_av.
  assert (Hprod : av * s <= 1024 + / 1000).
  { assert (av * s <= av * (Q * (1 + 2 * eps) + 3 * eta))
      by (apply Rmult_le_compat_l; assumption).
    pose proof (times_eps _ _ HavQ). lra. }
  destruct (mul_bounds (F64.of_int v) (F64.div f1024 (F64.of_int m)) HvN HsN
              ltac:(fold av s; lra)) as [HpN HpU].
  fold av s in HpU.
  apply (trunc_bound _ 1024 HpN). change (1024 + 1)%Z with 1025%Z.
  pose proof (rounded_le _ _ Hprod). lra.
Qed.

(** A side of at most 500 times the float [500 / m], for [m] more than 500
    times the side: below one. *)
Lemma scaled_to_zero (v m : Z) :
  (1 <= v <= 500)%Z -> (500 * v < m < 2 ^ 63)%Z ->
  F64.trunc (F64.mul (F64.of_int v) (F64.div f500 (F64.of_int m))) = Some 0%Z.
Proof.
  intros Hv Hm. pose proof eps_small as Heps. pose proof eta_small as Heta.
  destruct bpow_63_64 as (H63 & H64 & H900).
  assert (Hvr : 1 <= IZR v <= 500) by (split; apply IZR_le; lia).
  assert (Hmr : 500 * IZR v + 1 <= IZR m < IZR (2 ^ 63)).
  { split; [ | apply IZR_lt; lia].
    replace (500 * IZR v + 1) with (IZR (500 * v + 1)) by (rewrite plus_IZR, mult_IZR; reflexivity).
    apply IZR_le. lia. }
  destruct (of_int_bounds m ltac:(lia) ltac:(lra)) as [HmN [HmL HmU]].
  destruct (of_int_bounds v ltac:(lia) ltac:(lra)) as [HvN [_ HvU]].
  set (xm := F2R (F64.of_int m)) in *. set (av := F2R (F64.of_int v)) in *.
  pose proof (rounded_le _ _ (proj2 Hvr)) as Hav500.
  assert (Hav' : av <= IZR v + 501 * eps).
  { pose proof (times_eps _ _ (proj2 Hvr)). lra. }
  assert (Hxm' : (500 * IZR v + 1) * (1 - / 100000000) <= xm).
  { assert (IZR m * eps <= IZR m * / 1000000000000) by (apply Rmult_le_compat_l; lra).
    lra. }
  assert (Hxm : 500 <= xm) by lra.
  destruct (div_bounds f500 (F64.of_int m) eq_refl HmN ltac:(fold xm; lra)
              ltac:(rewrite F2R_f500; lra)) as [HsN (Q & HQ0 & HQ & HsU)].
  rewrite F2R_f500 in HQ. fold xm in HQ.
  set (s := F2R (F64.div f500 (F64.of_int m))) in *.
  pose proof (is_nonneg_F2R _ HsN) as Hs0. fold s in Hs0.
  pose proof (is_nonneg_F2R _ HvN) as Hav0. fold av in Hav0.
  assert (HavQ : av * Q <= 1 - / 1000000).
  { apply Rmult_le_reg_r with (r := xm); [lra | ].
    assert (av * (Q * xm) <= av * 500) by (apply Rmult_le_compat_l; assumption).
    lra. }
  assert (Hprod : av * s <= 1 - / 2000000).
  { assert (av * s <= av * (Q * (1 + 2 * eps) + 3 * eta))
      by (apply Rmult_le_compat_l; assumption).
    pose proof (times_eps _ _ HavQ).
    assert (av * eta <= 501 * eta) by (apply Rmult_le_compat_r; lra).
    lra. }
  destruct (mul_bounds (F64.of_int v) (F64.div f500 (F64.of_int m)) HvN HsN
              ltac:(fold av s; lra)) as [HpN HpU].
  fold av s in HpU.
  destruct (trunc_bound _ 0 HpN) as (t & Ht & Hrange).
  { change (0 + 1)%Z with 1%Z. pose proof (rounded_le _ _ Hprod). lra. }
  rewrite Ht. f_equal. lia.
Qed.

(** The width after the second cap: its integer part fits. *)
Lemma scaled_width_defined (W H : Z) :
  (1 <= W <= 500)%Z -> (501 <= H < 2 ^ 63)%Z ->
  exists t, F64.trunc (F64.mul (F64.of_int W) (F64.div f500 (F64.of_int H))) = Some t
            /\ (0 <= t <= 500)%Z.
Proof.
  intros HW HH. pose proof eps_small as Heps. pose proof eta_small as Heta.
  destruct bpow_63_64 as (H63 & H64 & H900).
  assert (HHr : 501 <= IZR H < IZR (2 ^ 63)) by (split; [apply IZR_le | apply IZR_lt]; lia).
  assert (HWr : 1 <= IZR W <= 500) by (split; apply IZR_le; lia).
  destruct (of_int_bounds H ltac:(lia) ltac:(lra)) as [HxN [HxL _]].
  destruct (of_int_bounds W ltac:(lia) ltac:(lra)) as [HaN [_ HaU]].
  pose proof (rounded_ge _ _ (proj1 HHr)) as HxL'.
  pose proof (rounded_le _ _ (proj2 HWr)) as HaU'.
  assert (Hx : 5005 / 10 <= F2R (F64.of_int H)) by lra.
  destruct (div_500_bound (F64.of_int H) HxN Hx) as [HsN HsU].
  pose proof (is_nonneg_F2R _ HsN) as Hs0.
  pose proof (is_nonneg_F2R _ HaN) as Ha0.
  set (a := F2R (F64.of_int W)) in *. set (s := F2R (F64.div f500 (F64.of_int H))) in *.
  assert (Ha : a <= 5001 / 10) by lra.
  destruct (product_le a s (5001 / 10) (9995 / 10000) ltac:(lra) ltac:(lra)) as [Hp0 Hp1].
  assert (Hprod : a * s <= 500) by lra.
  destruct (mul_bounds (F64.of_int W) (F64.div f500 (F64.of_int H)) HaN HsN
              ltac:(fold a s; lra)) as [HpN HpU].
  fold a s in HpU.
  apply (trunc_bound _ 500 HpN). change (500 + 1)%Z with 501%Z.
  pose proof (rounded_le _ _ Hprod). lra.
Qed.

(** The height after the first cap: its integer part fits. *)
Lemma capped_height_defined (h0 tw : Z) :
  (1 <= h0 < 2 ^ 63)%Z -> (500 < tw < 2 ^ 63)%Z ->
  exists t, F64.trunc (F64.mul (F64.of_int h0) (F64.div f500 (F64.of_int tw))) = Some t
            /\ (0 <= t <= h0)%Z.
Proof.
  intros Hh Ht. pose proof eps_small as Heps. pose proof eta_small as Heta.
  destruct bpow_63_64 as (H63 & H64 & H900).
  assert (Htr : 501 <= IZR tw < IZR (2 ^ 63)) by (split; [apply IZR_le | apply IZR_lt]; lia).
  assert (Hhr : 1 <= IZR h0 < IZR (2 ^ 63)) by (split; [apply IZR_le | apply IZR_lt]; lia).
  destruct (of_int_bounds tw ltac:(lia) ltac:(lra)) as [HxN [HxL _]].
  destruct (of_int_bounds h0 ltac:(lia) ltac:(lra)) as [HaN [_ HaU]].
  pose proof (rounded_ge _ _ (proj1 Htr)) as HxL'.
  assert (Hx : 5005 / 10 <= F2R (F64.of_int tw)) by lra.
  destruct (div_500_bound (F64.of_int tw) HxN Hx) as [HsN HsU].
  pose proof (is_nonneg_F2R _ HsN) as Hs0.
  pose proof (is_nonneg_F2R _ HaN) as Ha0.
  set (ah := F2R (F64.of_int h0)) in *. set (s := F2R (F64.div f500 (F64.of_int tw))) in *.
  assert (Hhe : IZR h0 * eps <= IZR h0 * / 1000000000000) by (apply Rmult_le_compat_l; lra).
  assert (Hah : ah <= IZR h0 * (1 + / 100000)) by lra.
  destruct (product_le ah s (IZR h0 * (1 + / 100000)) (9995 / 10000) ltac:(lra) ltac:(lra))
    as [Hp0 Hp1].
  assert (Hprod : ah * s <= IZR h0 * (1 - / 10000)) by lra.
  assert (Hpe : ah * s * eps <= ah * s * / 1000000000000) by (apply Rmult_le_compat_l; lra).
  destruct (mul_bounds (F64.of_int h0) (F64.div f500 (F64.of_int tw)) HaN HsN
              ltac:(fold ah s; lra)) as [HpN HpU].
  fold ah s in HpU.
  apply (trunc_bound _ h0 HpN). rewrite plus_IZR. lra.
Qed.

(** The height before the caps: its integer part fits, for sides and a
    target width below [2^31]. *)
Lemma initial_height_defined (w h tw : Z) :
  (0 < w < 2 ^ 31)%Z -> (0 < h < 2 ^ 31)%Z -> (0 < tw < 2 ^ 31)%Z ->
  exists t, F64.trunc (F64.mul (F64.of_int tw) (F64.div (F64.of_int h) (F64.of_int w)))
            = Some t
            /\ (0 <= t < 2 ^ 63)%Z.
Proof.
  intros Hw Hh Ht. pose proof eps_small as Heps. pose proof eta_small as Heta.
  pose proof (bpow_le 64 900 ltac:(lia)) as H64. rewrite (bpow_IZR 64) in H64 by lia.
  change (2 ^ 64)%Z with 18446744073709551616%Z in H64.
  change (2 ^ 31)%Z with 2147483648%Z in *.
  assert (Hwr : 1 <= IZR w <= 2147483648) by (split; apply IZR_le; lia).
  assert (Hhr : 1 <= IZR h <= 2147483648) by (split; apply IZR_le; lia).
  assert (Htr : 1 <= IZR tw <= 2147483648) by (split; apply IZR_le; lia).
  destruct (of_int_bounds w ltac:(lia) ltac:(lra)) as [HwN [HwL _]].
  destruct (of_int_bounds h ltac:(lia) ltac:(lra)) as [HhN [_ HhU]].
  destruct (of_int_bounds tw ltac:(lia) ltac:(lra)) as [HtN [_ HtU]].
  set (xw := F2R (F64.of_int w)) in *. set (yh := F2R (F64.of_int h)) in *.
  set (at_ := F2R (F64.of_int tw)) in *.
  pose proof (rounded_ge _ _ (proj1 Hwr)) as HwL'.
  pose proof (rounded_le _ _ (proj2 Hhr)) as HhU'.
  pose proof (rounded_le _ _ (proj2 Htr)) as HtU'.
  assert (Hxw : 99 / 100 <= xw) by lra.
  assert (Hyh : yh <= 2147483649) by lra.
  assert (Hat : at_ <= 2147483649) by lra.
  destruct (div_bounds (F64.of_int h) (F64.of_int w) HhN HwN ltac:(fold xw; lra)
              ltac:(fold yh; lra)) as [HsN (Q & HQ0 & HQ & HsU)].
  fold xw yh in HQ.
  set (s := F2R (F64.div (F64.of_int h) (F64.of_int w))) in *.
  pose proof (is_nonneg_F2R _ HsN) as Hs0. fold s in Hs0.
  pose proof (is_nonneg_F2R _ HtN) as Hat0. fold at_ in Hat0.
  assert (HQle : Q <= 2169175403).
  { apply (quotient_bound Q xw yh 2169175403); lra. }
  pose proof (quotient_le _ _ HQle) as HsU'.
  assert (Hs : s <= 2169175404) by lra.
  destruct (product_le at_ s 2147483649 2169175404 ltac:(lra) ltac:(lra)) as [Hp0 Hp1].
  assert (Hprod : at_ * s <= 4700000000000000000) by lra.
  destruct (mul_bounds (F64.of_int tw) (F64.div (F64.of_int h) (F64.of_int w)) HtN HsN
              ltac:(fold at_ s; lra)) as [HpN HpU].
  fold at_ s in HpU.
  destruct (trunc_bound _ (9223372036854775808 - 1) HpN) as (t & Htt & Hrange).
  { change (9223372036854775808 - 1 + 1)%Z with 9223372036854775808%Z.
    pose proof (rounded_le _ _ Hprod). lra. }
  exists t. split; [exact Htt | ]. change (2 ^ 63)%Z with 9223372036854775808%Z. lia.
Qed.

(** A channel on the 16-bit scale over 65535: at most one, a little more
    for the rounding. *)
Lemma channel_fraction (c : Z) (top : Rdefinitions.R) :
  (0 <= c)%Z -> IZR c <= top -> top <= 65535 ->
  is_nonneg (F64.div (F64.of_int c) f65535) = true
  /\ F2R (F64.div (F64.of_int c) f65535) <= top / 65535 + 9 * eps.
Proof.
  intros Hc Htop H16. pose proof eps_small as Heps. pose proof eta_small as Heta.
  pose proof (bpow_le 17 900 ltac:(lia)) as H17. rewrite (bpow_IZR 17) in H17 by lia.
  change (2 ^ 17)%Z with 131072%Z in H17.
  assert (Hc0 : 0 <= IZR c) by (apply IZR_le; exact Hc).
  destruct (of_int_upper c Hc ltac:(lra)) as [HcN HcU].
  pose proof (rounded_le _ _ Htop) as HcU'.
  pose proof (times_eps _ _ H16) as Hte.
  destruct (div_bounds (F64.of_int c) f65535 HcN eq_refl ltac:(rewrite F2R_f65535; lra)
              ltac:(lra)) as [HN (Q & HQ0 & HQ & HU)].
  rewrite F2R_f65535 in HQ. split; [exact HN | ].
  assert (HQle : Q <= top / 65535 + 2 * eps).
  { apply (quotient_bound Q 65535 (F2R (F64.of_int c))); lra. }
  pose proof (quotient_le _ _ HQle) as HU'.
  pose proof eps_square. lra.
Qed.

(** The blend of two channels on the 16-bit scale, times 255: its integer
    part is a byte. *)
Lemma blend_defined (c tc a : Z) :
  (0 <= c <= 65535)%Z -> (0 <= tc <= 65535)%Z -> (0 <= a <= 65534)%Z ->
  exists k, F64.trunc (F64.mul (blend c tc (F64.div (F64.of_int a) f65535)) f255) = Some k
            /\ (0 <= k <= 255)%Z.
Proof.
  intros Hc Htc Ha. pose proof eps_small as Heps. pose proof eta_small as Heta.
  pose proof eps_square as Hee.
  pose proof (bpow_le 17 900 ltac:(lia)) as H17. rewrite (bpow_IZR 17) in H17 by lia.
  change (2 ^ 17)%Z with 131072%Z in H17.
  assert (Hcr : IZR c <= 65535) by (apply IZR_le; lia).
  assert (Htr : IZR tc <= 65535) by (apply IZR_le; lia).
  assert (Har : IZR a <= 65534) by (apply IZR_le; lia).
  destruct (channel_fraction c 65535 ltac:(lia) Hcr ltac:(lra)) as [HCN HCU].
  destruct (channel_fraction tc 65535 ltac:(lia) Htr ltac:(lra)) as [HTN HTU].
  destruct (channel_fraction a 65534 ltac:(lia) Har ltac:(lra)) as [HAN HAU].
  set (C := F64.div (F64.of_int c) f65535) in *.
  set (T := F64.div (F64.of_int tc) f65535) in *.
  set (alpha := F64.div (F64.of_int a) f65535) in *.
  pose proof (is_nonneg_F2R _ HCN) as HC0. pose proof (is_nonneg_F2R _ HTN) as HT0.
  pose proof (is_nonneg_F2R _ HAN) as HA0.
  assert (HCle : F2R C <= 1 + 9 * eps) by lra.
  assert (HTle : F2R T <= 1 + 9 * eps) by lra.
  assert (HAle : F2R alpha <= 1 - / 70000) by lra.
  (* 1 - alpha *)
  destruct (sub_bounds F64.one alpha eq_refl HAN ltac:(rewrite F2R_one; lra)
              ltac:(rewrite F2R_one; lra)) as [HBN HBU].
  rewrite F2R_one in HBU. set (beta := F64.sub F64.one alpha) in *.
  pose proof (is_nonneg_F2R _ HBN) as HB0.
  assert (HBle : F2R beta <= 1 - F2R alpha + 2 * eps).
  { assert (1 - F2R alpha <= 1) by lra. pose proof (rounded_le _ _ H).
    assert ((1 - F2R alpha) * eps <= 1 * eps) by (apply times_eps; lra). lra. }
  (* the two products *)
  assert (HCA : F2R C * F2R alpha <= F2R alpha + 9 * eps).
  { assert (F2R C * F2R alpha <= (1 + 9 * eps) * F2R alpha)
      by (apply Rmult_le_compat_r; lra).
    assert (F2R alpha * eps <= 1 * eps) by (apply times_eps; lra). lra. }
  assert (HCA0 : 0 <= F2R C * F2R alpha) by (apply Rmult_le_pos; assumption).
  destruct (mul_bounds C alpha HCN HAN ltac:(lra)) as [HP1N HP1U].
  set (P1 := F64.mul C alpha) in *. pose proof (is_nonneg_F2R _ HP1N) as HP10.
  assert (HP1 : F2R P1 <= F2R alpha + 12 * eps).
  { assert (F2R C * F2R alpha * eps <= 2 * eps) by (apply times_eps; lra). lra. }
  assert (HTB : F2R T * F2R beta <= 1 - F2R alpha + 12 * eps).
  { assert (F2R T * F2R beta <= (1 + 9 * eps) * F2R beta)
      by (apply Rmult_le_compat_r; lra).
    assert (F2R beta * eps <= (1 + 2 * eps) * eps) by (apply times_eps; lra). lra. }
  assert (HTB0 : 0 <= F2R T * F2R beta) by (apply Rmult_le_pos; assumption).
  destruct (mul_bounds T beta HTN HBN ltac:(lra)) as [HP2N HP2U].
  set (P2 := F64.mul T beta) in *. pose proof (is_nonneg_F2R _ HP2N) as HP20.
  assert (HP2 : F2R P2 <= 1 - F2R alpha + 15 * eps).
  { assert (F2R T * F2R beta * eps <= 2 * eps) by (apply times_eps; lra). lra. }
  (* their sum, and the product with 255 *)
  destruct (add_bounds P1 P2 HP1N HP2N ltac:(lra)) as [HSN HSU].
  set (S := F64.add P1 P2) in *. pose proof (is_nonneg_F2R _ HSN) as HS0.
  assert (HS : F2R S <= 1 + 30 * eps).
  { assert ((F2R P1 + F2R P2) * eps <= 2 * eps) by (apply times_eps; lra). lra. }
  assert (HS255 : F2R S * 255 <= 255 + 7650 * eps) by lra.
  destruct (mul_bounds S f255 HSN eq_refl ltac:(rewrite F2R_f255; lra)) as [HFN HFU].
  rewrite F2R_f255 in HFU.
  unfold blend. fold C T alpha beta P1 P2 S.
  apply (trunc_bound _ 255 HFN). change (255 + 1)%Z with 256%Z.
  pose proof (rounded_le _ _ HS255). lra.
Qed.

(** The alpha threshold for a threshold of the format between zero and
    one: its integer part fits. *)
Lemma alphaThreshold_defined (threshold : float64) :
  valid_binary F64.prec F64.emax threshold = true ->
  F64.leb F64.zero threshold = true -> F64.leb threshold F64.one = true ->
  exists u, F64.trunc (F64.Floor (F64.mul threshold f65535)) = Some u /\ (0 <= u <= 65535)%Z.
Proof.
  intros Hv H0 H1.
  destruct (unit_interval threshold Hv H0 H1) as [-> | [Hnn Hle]].
  - exists 0%Z. split; [reflexivity | lia].
  - pose proof F2R_f65535 as H65. pose proof eps_small as Heps. pose proof eta_small as Heta.
    pose proof (is_nonneg_F2R threshold Hnn) as Ht0.
    pose proof (bpow_le 17 900 ltac:(lia)) as H17. rewrite (bpow_IZR 17) in H17 by lia.
    change (2 ^ 17)%Z with 131072%Z in H17.
    assert (Hprod : F2R threshold * F2R f65535 <= 65535).
    { rewrite H65. assert (F2R threshold * 65535 <= 1 * 65535)
        by (apply Rmult_le_compat_r; lra). lra. }
    destruct (mul_bounds threshold f65535 Hnn eq_refl ltac:(lra)) as [HpN HpU].
    assert (Hp : F2R (F64.mul threshold f65535) < IZR (65535 + 1)).
    { change (65535 + 1)%Z with 65536%Z. pose proof (rounded_le _ _ Hprod). lra. }
    destruct (trunc_bound _ 65535 HpN Hp) as (t & Ht & Hrange).
    destruct (F64.mul threshold f65535) as [[ | ] | | | [ | ] m e];
      try discriminate HpN; [exists t; split; assumption | ].
    cbn [F64.Floor]. destruct (0 <=? e)%Z; [exists t; split; assumption | ].
    cbn [F64.trunc] in Ht. injection Ht as Ht. rewrite Ht.
    apply floor_small. exact Hrange.
Qed.

End MoreValues.

End F64More.

(** ** Conversions that stay in range *)

(** The events of [processImage], in order. *)
Lemma processImage_events (undef : float64 -> Z) (Resize : Image -> Z -> Z -> Image)
      (AdjustBrightness AdjustContrast SharpenImage : Image -> float64 -> Image)
      (img : Image) (opts : Options) (w : World) :
  let originalWidth := Dx (Bounds img) in
  let originalHeight := Dy (Bounds img) in
  let scale := F64.div f1024 (F64.of_int (Z.max originalWidth originalHeight)) in
  let newWidth := F64.to_int undef (F64.mul (F64.of_int originalWidth) scale) in
  let newHeight := F64.to_int undef (F64.mul (F64.of_int originalHeight) scale) in
  let newWidth := if newWidth <? 1 then 1 else newWidth in
  let newHeight := if newHeight <? 1 then 1 else newHeight in
  events (snd (processImage undef Resize AdjustBrightness AdjustContrast SharpenImage
                            img opts w))
  = events w
    ++ [PrintOriginalDimensions originalWidth originalHeight]
    ++ (if (originalWidth >? 1024) || (originalHeight >? 1024)
        then [PrintResizing newWidth newHeight scale; CallResize newWidth newHeight]
        else [])
    ++ (if negb (F64.eqb (Brightness opts) F64.zero) then [CallAdjustBrightness] else [])
    ++ (if negb (F64.eqb (Contrast opts) F64.zero) then [CallAdjustContrast] else [])
    ++ (if negb (F64.eqb (Sharpen opts) F64.zero) then [CallSharpen] else []).
Proof.
  cbv zeta. unfold processImage, when, bind, emit, ret.
  destruct ((Dx (Bounds img) >? 1024) || (Dy (Bounds img) >? 1024));
    destruct (negb (F64.eqb (Brightness opts) F64.zero));
    destruct (negb (F64.eqb (Contrast opts) F64.zero));
    destruct (negb (F64.eqb (Sharpen opts) F64.zero));
    cbn [fst snd events bufferPool]; rewrite <- ?app_assoc; reflexivity.
Qed.

(** X18. The resize of [processImage]: an image of positive sides is resized
    exactly when one side is over 1024, and then to a width and a height
    between 1 and 1024. *)
Theorem resize_within_limits (undef : float64 -> Z) (Resize : Image -> Z -> Z -> Image)
        (AdjustBrightness AdjustContrast SharpenImage : Image -> float64 -> Image)
        (img : Image) (opts : Options) (pool : list string) :
  0 < Dx (Bounds img) < 2 ^ 63 -> 0 < Dy (Bounds img) < 2 ^ 63 ->
  let evs := events (snd (processImage undef Resize AdjustBrightness AdjustContrast
                                       SharpenImage img opts (mkWorld pool []))) in
  (forall newWidth newHeight,
      In (CallResize newWidth newHeight) evs ->
      1 <= newWidth <= 1024 /\ 1 <= newHeight <= 1024)
  /\ ((exists newWidth newHeight, In (CallResize newWidth newHeight) evs)
      <-> 1024 < Dx (Bounds img) \/ 1024 < Dy (Bounds img)).
Proof.
  intros Hdx Hdy. cbv zeta. rewrite processImage_events. cbv zeta.
  set (w0 := Dx (Bounds img)) in *. set (h0 := Dy (Bounds img)) in *.
  cbn [events app].
  assert (Hfilters : forall e,
             In e ((if negb (F64.eqb (Brightness opts) F64.zero)
                    then [CallAdjustBrightness] else [])
                   ++ (if negb (F64.eqb (Contrast opts) F64.zero)
                       then [CallAdjustContrast] else [])
                   ++ (if negb (F64.eqb (Sharpen opts) F64.zero) then [CallSharpen] else [])) ->
             forall nw nh, e <> CallResize nw nh).
  { intros e Hin nw nh.
    destruct (negb (F64.eqb (Brightness opts) F64.zero));
      destruct (negb (F64.eqb (Contrast opts) F64.zero));
      destruct (negb (F64.eqb (Sharpen opts) F64.zero));
      cbn [app] in Hin;
      repeat (destruct Hin as [Hin | Hin]; [subst e; discriminate | ]); contradiction. }
  destruct ((w0 >? 1024) || (h0 >? 1024)) eqn:Hbig.
  - assert (Hover : 1024 < w0 \/ 1024 < h0).
    { apply orb_true_iff in Hbig as [H | H]; apply Z.gtb_lt in H; lia. }
    assert (Hmax : 1024 < Z.max w0 h0 < 2 ^ 63) by lia.
    destruct (F64More.resized_side w0 (Z.max w0 h0) ltac:(lia) Hmax) as (tw & Htw & Hrw).
    destruct (F64More.resized_side h0 (Z.max w0 h0) ltac:(lia) Hmax) as (th & Hth & Hrh).
    pose proof (F64More.to_integer_defined undef (- 2 ^ 63) (2 ^ 63 - 1) _ tw Htw ltac:(lia))
      as Hiw.
    pose proof (F64More.to_integer_defined undef (- 2 ^ 63) (2 ^ 63 - 1) _ th Hth ltac:(lia))
      as Hih.
    fold (F64.to_int undef) in Hiw, Hih. rewrite Hiw, Hih.
    set (nw := if tw <? 1 then 1 else tw). set (nh := if th <? 1 then 1 else th).
    assert (Hnw : 1 <= nw <= 1024) by (unfold nw; destruct (Z.ltb_spec tw 1); lia).
    assert (Hnh : 1 <= nh <= 1024) by (unfold nh; destruct (Z.ltb_spec th 1); lia).
    split.
    + intros newWidth newHeight [Hin | [Hin | [Hin | Hin]]]; try discriminate Hin.
      * injection Hin as <- <-. split; assumption.
      * exfalso. exact (Hfilters _ Hin newWidth newHeight eq_refl).
    + split; [intros _; exact Hover | ].
      intros _. exists nw, nh. right. right. left. reflexivity.
  - apply orb_false_iff in Hbig as [Hw Hh].
    destruct (Z.gtb_spec w0 1024) as [Hw' | Hw']; [discriminate Hw | ].
    destruct (Z.gtb_spec h0 1024) as [Hh' | Hh']; [discriminate Hh | ].
    cbn [app]. split.
    + intros nw nh [Hin | Hin]; [discriminate Hin | ].
      exfalso. exact (Hfilters _ Hin nw nh eq_refl).
    + split; [ | lia].
      intros (nw & nh & [Hin | Hin]); [discriminate Hin | ].
      exfalso. exact (Hfilters _ Hin nw nh eq_refl).
Qed.

Lemma resize_within_limits_witness :
  let id2 := fun (i : Image) (_ : float64) => i in
  let img := mkImage (mkRect 0 0 3000 1500) (fun _ _ => COther 0 0 0 65535) in
  let evs := events (snd (processImage (fun _ => 0) (fun i _ _ => i) id2 id2 id2 img
                                       (mkOptions 100 F64.zero F64.zero F64.zero "" "" F64.zero)
                                       (mkWorld [] []))) in
  exists newWidth newHeight,
    In (CallResize newWidth newHeight) evs
    /\ 1 <= newWidth <= 1024 /\ 1 <= newHeight <= 1024.
Proof.
  cbv zeta.
  destruct (resize_within_limits (fun _ => 0) (fun i _ _ => i) (fun i _ => i) (fun i _ => i)
              (fun i _ => i) (mkImage (mkRect 0 0 3000 1500) (fun _ _ => COther 0 0 0 65535))
              (mkOptions 100 F64.zero F64.zero F64.zero "" "" F64.zero) []
              ltac:(cbn; lia) ltac:(cbn; lia)) as [Hall Hiff].
  assert (Hlarge : 1024 < Dx (mkRect 0 0 3000 1500) \/ 1024 < Dy (mkRect 0 0 3000 1500))
    by (left; cbn; lia).
  destruct (proj2 Hiff Hlarge) as (newWidth & newHeight & Hin).
  exists newWidth, newHeight. split; [exact Hin | exact (Hall newWidth newHeight Hin)].
Defined.

Lemma initialFixedHeight_range (undef : float64 -> Z) (bounds : Rectangle) (targetWidth : Z) :
  1 <= initialFixedHeight undef bounds targetWidth < 2 ^ 63.
Proof.
  unfold initialFixedHeight.
  pose proof (F64Bounds.to_int_range undef
                (F64.mul (F64.of_int targetWidth)
                         (F64.div (F64.of_int (Dy bounds)) (F64.of_int (Dx bounds))))) as Hr.
  destruct (Z.ltb_spec (F64.to_int undef
                          (F64.mul (F64.of_int targetWidth)
                                   (F64.div (F64.of_int (Dy bounds))
                                            (F64.of_int (Dx bounds))))) 1); lia.
Qed.

(** X19. The floor of 1 on the height is applied before the caps and does
    not hold after them.  With [FixedHeight] the height after the floor and
    before the caps: for a target width of at most 500 and a [FixedHeight]
    of more than 500 times the target width, the grid comes out as 0 by 500;
    for a [FixedHeight] of at most 500 and a target width of more than 500
    times [FixedHeight], as 500 by 0. *)
Theorem grid_zero_dimension (undef : float64 -> Z) (bounds : Rectangle) (targetWidth : Z) :
  0 < targetWidth < 2 ^ 63 ->
  let FixedHeight := initialFixedHeight undef bounds targetWidth in
  (targetWidth <= 500 -> 500 * targetWidth < FixedHeight ->
   asciiDimensions undef bounds targetWidth = (0, 500))
  /\ (FixedHeight <= 500 -> 500 * FixedHeight < targetWidth ->
      asciiDimensions undef bounds targetWidth = (500, 0)).
Proof.
  intros Htw. cbv zeta. unfold asciiDimensions.
  pose proof (initialFixedHeight_range undef bounds targetWidth) as Hh0.
  set (h0 := initialFixedHeight undef bounds targetWidth) in *.
  split.
  - intros Hsmall Htall. unfold capWidth, MaxASCIIDimension.
    destruct (Z.gtb_spec targetWidth 500) as [Hgt | _]; [lia | ].
    unfold capHeight, MaxASCIIDimension.
    destruct (Z.gtb_spec h0 500) as [_ | Hle]; [ | lia].
    pose proof (F64More.scaled_to_zero targetWidth h0 ltac:(lia) ltac:(lia)) as Hz.
    unfold F64.to_int.
    rewrite (F64More.to_integer_defined undef (- 2 ^ 63) (2 ^ 63 - 1) _ 0 Hz ltac:(lia)). reflexivity.
  - intros Hsmall Hwide. unfold capWidth, MaxASCIIDimension.
    destruct (Z.gtb_spec targetWidth 500) as [_ | Hle]; [ | lia].
    pose proof (F64More.scaled_to_zero h0 targetWidth ltac:(lia) ltac:(lia)) as Hz.
    unfold F64.to_int.
    rewrite (F64More.to_integer_defined undef (- 2 ^ 63) (2 ^ 63 - 1) _ 0 Hz ltac:(lia)).
    unfold capHeight, MaxASCIIDimension. reflexivity.
Qed.

Lemma grid_zero_dimension_witness :
  asciiDimensions (fun _ => 0) (mkRect 0 0 1 1000) 1 = (0, 500)
  /\ asciiDimensions (fun _ => 0) (mkRect 0 0 1000 1) 1000 = (500, 0).
Proof.
  split.
  - apply (proj1 (grid_zero_dimension (fun _ => 0) (mkRect 0 0 1 1000) 1 ltac:(lia)));
      [lia | reflexivity].
  - apply (proj2 (grid_zero_dimension (fun _ => 0) (mkRect 0 0 1000 1) 1000 ltac:(lia)));
      [vm_compute; discriminate | reflexivity].
Defined.

(** X20. For an image with sides below [2^31] and a target width below
    [2^31], no conversion of the grid computation is out of range: the grid
    is the same on every platform, and both its dimensions lie between 0 and
    500. *)
Theorem grid_platform_independent (undef1 undef2 : float64 -> Z) (bounds : Rectangle)
        (targetWidth : Z) :
  0 < Dx bounds < 2 ^ 31 -> 0 < Dy bounds < 2 ^ 31 -> 0 < targetWidth < 2 ^ 31 ->
  asciiDimensions undef1 bounds targetWidth = asciiDimensions undef2 bounds targetWidth
  /\ 0 <= fst (asciiDimensions undef1 bounds targetWidth) <= 500
  /\ 0 <= snd (asciiDimensions undef1 bounds targetWidth) <= 500.
Proof.
  intros Hdx Hdy Htw.
  destruct (F64More.initial_height_defined (Dx bounds) (Dy bounds) targetWidth Hdx Hdy Htw)
    as (t0 & Ht0 & Hr0).
  assert (Hgrid : forall undef,
             asciiDimensions undef bounds targetWidth
             = (let h0 := if t0 <? 1 then 1 else t0 in
                capHeight undef (capWidth undef (targetWidth, h0)))).
  { intros undef. unfold asciiDimensions, initialFixedHeight, F64.to_int.
    rewrite (F64More.to_integer_defined undef (- 2 ^ 63) (2 ^ 63 - 1) _ t0 Ht0 ltac:(lia)). reflexivity. }
  assert (Hcaps : forall undef h0,
             1 <= h0 < 2 ^ 63 ->
             exists w h, capHeight undef (capWidth undef (targetWidth, h0)) = (w, h)
                         /\ capHeight undef1 (capWidth undef1 (targetWidth, h0)) = (w, h)
                         /\ 0 <= w <= 500 /\ 0 <= h <= 500).
  { intros undef h0 Hh0. unfold capWidth, MaxASCIIDimension.
    destruct (Z.gtb_spec targetWidth 500) as [Hbig | Hsmall].
    - destruct (F64More.capped_height_defined h0 targetWidth Hh0 ltac:(lia))
        as (t1 & Ht1 & Hr1).
      unfold F64.to_int.
      rewrite !(F64More.to_integer_defined _ (- 2 ^ 63) (2 ^ 63 - 1) _ t1 Ht1 ltac:(lia)).
      unfold capHeight, MaxASCIIDimension, F64.to_int.
      destruct (Z.gtb_spec t1 500) as [Hh | Hh].
      + destruct (F64More.scaled_width_defined 500 t1 ltac:(lia) ltac:(lia))
          as (t2 & Ht2 & Hr2).
        rewrite !(F64More.to_integer_defined _ (- 2 ^ 63) (2 ^ 63 - 1) _ t2 Ht2 ltac:(lia)).
        exists t2, 500. repeat split; lia.
      + exists 500, t1. repeat split; lia.
    - unfold capHeight, MaxASCIIDimension.
      destruct (Z.gtb_spec h0 500) as [Hh | Hh].
      + destruct (F64More.scaled_width_defined targetWidth h0 ltac:(lia) ltac:(lia))
          as (t2 & Ht2 & Hr2).
        unfold F64.to_int.
        rewrite !(F64More.to_integer_defined _ (- 2 ^ 63) (2 ^ 63 - 1) _ t2 Ht2 ltac:(lia)).
        exists t2, 500. repeat split; lia.
      + exists targetWidth, h0. repeat split; lia. }
  rewrite !Hgrid. cbv zeta.
  assert (Hh0 : 1 <= (if t0 <? 1 then 1 else t0) < 2 ^ 63)
    by (destruct (Z.ltb_spec t0 1); lia).
  destruct (Hcaps undef2 _ Hh0) as (w & h & H2 & H1 & Hw & Hh).
  rewrite H1, H2. cbn [fst snd]. repeat split; lia.
Qed.

Lemma grid_platform_independent_witness :
  asciiDimensions (fun _ => 0) (mkRect 0 0 200 100) 1000
  = asciiDimensions (fun _ => 7) (mkRect 0 0 200 100) 1000.
Proof.
  apply (grid_platform_independent (fun _ => 0) (fun _ => 7) (mkRect 0 0 200 100) 1000);
    cbn; lia.
Defined.

(** The channels of a colour that is well formed are on the 16-bit scale. *)
Lemma wfColor_channels (c : Color) :
  wfColor c = true ->
  let '(r, g, b, a) := Color_RGBA c in
  0 <= r <= 65535 /\ 0 <= g <= 65535 /\ 0 <= b <= 65535 /\ 0 <= a <= 65535.
Proof.
  assert (H8 : forall v, inByte v = true -> 0 <= 257 * v <= 65535).
  { intros v Hv. unfold inByte in Hv. apply andb_true_iff in Hv as [H0 H1].
    apply Z.leb_le in H0. apply Z.leb_le in H1. lia. }
  assert (H16 : forall v, in16 v = true -> 0 <= v <= 65535).
  { intros v Hv. unfold in16 in Hv. apply andb_true_iff in Hv as [H0 H1].
    apply Z.leb_le in H0. apply Z.leb_le in H1. lia. }
  intros Hwf. destruct c as [[cr cg cb ca] | y | r g b a]; cbn [wfColor R G B A] in Hwf;
    cbn [Color_RGBA R G B A].
  - do 3 (apply andb_true_iff in Hwf as [Hwf ?]).
    rewrite !lor_shiftl_8 by assumption. repeat split; apply H8; assumption.
  - apply H16 in Hwf. lia.
  - do 3 (apply andb_true_iff in Hwf as [Hwf ?]).
    repeat split; apply H16; assumption.
Qed.

Lemma substituteColor_wf (s : string) : wfColor (substituteColor s) = true.
Proof.
  unfold substituteColor, parseHexColor.
  destruct (negb (len (expand3 (TrimPrefix s "#")) =? 6)); [reflexivity | ].
  destruct (ParseInt16 _) as [r | ]; [ | reflexivity].
  destruct (ParseInt16 _) as [g | ]; [ | reflexivity].
  destruct (ParseInt16 _) as [b | ]; [ | reflexivity].
  cbn [wfColor R G B A]. unfold uint8, inByte.
  pose proof (Z.mod_pos_bound r 256 ltac:(lia)).
  pose proof (Z.mod_pos_bound g 256 ltac:(lia)).
  pose proof (Z.mod_pos_bound b 256 ltac:(lia)).
  repeat (apply andb_true_iff; split); apply Z.leb_le; lia.
Qed.

(** X21. For a threshold of the format between 0 and 1 and pixels with
    channels on the 16-bit scale, no conversion of the compositor is out of
    range: the threshold on the alpha scale is at most 65535, every blended
    channel is the integer part of a float below 256, and the composited
    image is the same on every platform. *)
Theorem compositing_platform_independent (undef1 undef2 : float64 -> Z) (img : Image)
        (colorStr : string) (threshold : float64) :
  (forall x y, inRect x y (Bounds img) = true -> wfColor (At img x y) = true) ->
  valid_binary F64.prec F64.emax threshold = true ->
  F64.leb F64.zero threshold && F64.leb threshold F64.one = true ->
  alphaThresholdOf undef1 threshold = alphaThresholdOf undef2 threshold
  /\ forall x y,
       RGBA_At (handleTransparency undef1 img colorStr threshold) x y
       = RGBA_At (handleTransparency undef2 img colorStr threshold) x y.
Proof.
  intros Hwf Hv Hunit. apply andb_true_iff in Hunit as [H0 H1].
  destruct (F64More.alphaThreshold_defined threshold Hv H0 H1) as (u & Hu & Hur).
  assert (HT : forall undef, alphaThresholdOf undef threshold = u).
  { intros undef. unfold alphaThresholdOf, F64.to_uint32.
    apply F64More.to_integer_defined; [exact Hu | lia]. }
  split; [rewrite !HT; reflexivity | ].
  intros x y. destruct (inRect x y (Bounds img)) eqn:Hin.
  2:{ unfold RGBA_At. rewrite !handleTransparency_Rect, Hin. reflexivity. }
  rewrite !(handleTransparency_At _ img colorStr threshold x y Hin), !HT.
  unfold compositeColor.
  pose proof (wfColor_channels (At img x y) (Hwf x y Hin)) as Hpix.
  pose proof (wfColor_channels (substituteColor colorStr) (substituteColor_wf colorStr)) as Hsub.
  destruct (Color_RGBA (At img x y)) as [[[r g] b] a].
  destruct (Color_RGBA (substituteColor colorStr)) as [[[tr tg] tb] ta].
  destruct (a <? u); [reflexivity | ].
  destruct (Z.ltb_spec a 65535) as [Ha | Ha]; [ | reflexivity].
  assert (Hch : forall c tc, 0 <= c <= 65535 -> 0 <= tc <= 65535 ->
                             blendChannel undef1 c tc a = blendChannel undef2 c tc a).
  { intros c tc Hc Htc.
    destruct (F64More.blend_defined c tc a Hc Htc ltac:(lia)) as (k & Hk & Hkr).
    unfold blendChannel, F64.to_uint8.
    rewrite !(F64More.to_integer_defined _ 0 255 _ k Hk Hkr). reflexivity. }
  rewrite !(Hch _ _) by lia. reflexivity.
Qed.

Lemma compositing_platform_independent_witness :
  RGBA_At (handleTransparency (fun _ => 0) halfOpaqueImage "#abc" (F64.of_ratio 1 4)) 0 0
  = RGBA_At (handleTransparency (fun _ => 7) halfOpaqueImage "#abc" (F64.of_ratio 1 4)) 0 0.
Proof.
  apply (compositing_platform_independent (fun _ => 0) (fun _ => 7) halfOpaqueImage "#abc"
           (F64.of_ratio 1 4)); [intros x y _; reflexivity | reflexivity | reflexivity].
Defined.

(** ** The entry points *)

(** X22. What [validateImageParams] returns without an error is never
    empty: it has as many bytes as the length property of the array says,
    a positive number, and they are the bytes of the array, followed by
    zeros when the array has fewer.  So a run started from the entry points
    never fails with the error of the library for empty image data. *)
Theorem entry_image_data_not_empty
        (Value : Type) (IsNull IsUndefined : Value -> bool)
        (Get : Value -> string -> option Value) (Int : Value -> option Z)
        (Float : Value -> option float64) (ValueString : Value -> string)
        (bytesOf : Value -> option (list Byte.byte)) (maxAlloc : Z)
        (undef : float64 -> Z) (Decode : list Byte.byte -> option (option Image * string))
        (Resize : Image -> Z -> Z -> Image)
        (AdjustBrightness AdjustContrast SharpenImage : Image -> float64 -> Image)
        (Image2ASCIIString : Image -> Z -> Z -> string)
        (Parse : string -> option (slice (option StyledText))) (svgo : SvgCall -> string)
        (args : list Value) (imageDataGo : list Byte.byte) (opts : Options) :
  Main.validateImageParams Value IsNull IsUndefined Get Int Float ValueString bytesOf maxAlloc
                           args
  = Main.Returned (inr (imageDataGo, opts)) ->
  (exists imageDataJS imageDataLength bytes,
      nth_error args 0 = Some imageDataJS
      /\ Get imageDataJS "length" = Some imageDataLength
      /\ Int imageDataLength = Some (llen imageDataGo)
      /\ bytesOf imageDataJS = Some bytes
      /\ imageDataGo
         = firstn (List.length imageDataGo) bytes
           ++ repeat Byte.x00 (List.length imageDataGo - List.length bytes))
  /\ 0 < llen imageDataGo <= maxAlloc
  /\ validateInput imageDataGo opts <> Some ErrImageDataEmpty
  /\ forall w console,
       fst (fst (Main.processImage undef Decode Resize AdjustBrightness AdjustContrast
                                   SharpenImage Image2ASCIIString Parse svgo
                                   imageDataGo opts w console))
       <> inl (Main.ErrProcessing ErrImageDataEmpty).
Proof.
  intros Hval. unfold Main.validateImageParams in Hval.
  destruct args as [ | a0 [ | a1 [ | a2 [ | a3 [ | a4 [ | a5 [ | a6 [ | a7 [ | a8 rest]]]]]]]]];
    try discriminate Hval.
  destruct (IsNull a0 || IsUndefined a0); [discriminate Hval | ].
  destruct (Get a0 "length") as [l | ] eqn:Hget; [ | discriminate Hval].
  destruct (IsNull l || IsUndefined l); [discriminate Hval | ].
  destruct (Int l) as [length | ] eqn:Hint; [ | discriminate Hval].
  destruct (Z.leb_spec length 0) as [Hle | Hpos]; [discriminate Hval | ].
  destruct (Z.gtb_spec length maxAlloc) as [Hbig | Hfit]; [discriminate Hval | ].
  unfold Main.CopyBytesToGo in Hval.
  destruct (bytesOf a0) as [bytes | ] eqn:Hbytes; [ | discriminate Hval].
  destruct (Int a1); [ | discriminate Hval].
  destruct (Float a2); [ | discriminate Hval].
  destruct (Float a3); [ | discriminate Hval].
  destruct (Float a4); [ | discriminate Hval].
  destruct (Float a7); [ | discriminate Hval].
  assert (Hdata : imageDataGo
                  = firstn (Nat.min (Z.to_nat length) (List.length bytes)) bytes
                    ++ skipn (Nat.min (Z.to_nat length) (List.length bytes))
                             (repeat Byte.x00 (Z.to_nat length))).
  { rewrite repeat_length in Hval. congruence. }
  assert (Hopts : opts = mkOptions z f f0 f1 (ValueString a5) (ValueString a6) f2)
    by congruence.
  clear Hval.
  assert (Hlen : List.length imageDataGo = Z.to_nat length).
  { rewrite Hdata, length_app, length_firstn, length_skipn, repeat_length. lia. }
  assert (Hl : llen imageDataGo = length) by (unfold llen; lia).
  split; [ | split; [lia | ]].
  - exists a0, l, bytes. rewrite Hl. repeat split; try assumption.
    rewrite Hlen. rewrite Hdata at 1.
    destruct (Nat.le_ge_cases (Z.to_nat length) (List.length bytes)) as [Hsmall | Hlarge].
    + rewrite Nat.min_l by exact Hsmall.
      replace (Z.to_nat length - List.length bytes)%nat with 0%nat by lia.
      rewrite skipn_all2 by (rewrite repeat_length; lia). reflexivity.
    + rewrite Nat.min_r by exact Hlarge.
      rewrite (firstn_all2 (n := Z.to_nat length)) by exact Hlarge.
      rewrite firstn_all. f_equal.
      apply (nth_ext _ _ Byte.x00 Byte.x00).
      * rewrite length_skipn, !repeat_length. reflexivity.
      * intros n Hn. rewrite nth_skipn, !nth_repeat. reflexivity.
  - assert (Hne : validateInput imageDataGo opts <> Some ErrImageDataEmpty).
    { unfold validateInput. rewrite Hl.
      destruct (Z.eqb_spec length 0); [lia | ].
      destruct (length >? MaxImageSize); [discriminate | ].
      destruct (TargetWidth opts <=? 0); discriminate. }
    split; [exact Hne | ].
    intros w console. unfold Main.processImage.
    destruct (ProcessImageToSVG undef Decode Resize AdjustBrightness AdjustContrast
                                SharpenImage Image2ASCIIString Parse svgo imageDataGo opts w)
      as [[err | svgString] w'] eqn:Hrun; cbn [fst]; [ | discriminate].
    intros Heq. assert (He : err = ErrImageDataEmpty) by congruence. subst err.
    destruct (validateInput imageDataGo opts) as [verr | ] eqn:Hv.
    + unfold ProcessImageToSVG in Hrun. rewrite Hv in Hrun. unfold fail in Hrun.
      apply Hne. congruence.
    + pose proof (errors_after_validation undef Decode Resize AdjustBrightness AdjustContrast
                    SharpenImage Image2ASCIIString Parse svgo imageDataGo opts w w'
                    ErrImageDataEmpty Hv Hrun) as Hst.
      discriminate Hst.
Qed.

Lemma entry_image_data_not_empty_witness :
  0 < llen [Byte.x2a; Byte.x00] <= 100.
Proof.
  refine (proj1 (proj2 (entry_image_data_not_empty
                          (option Z) (fun _ => false) (fun _ => false)
                          (fun _ _ => Some (Some 2)) (fun v => v)
                          (fun _ => Some F64.zero) (fun _ => EmptyString)
                          (fun _ => Some [Byte.x2a]) 100
                          (fun _ => 0) (fun _ => None) (fun i _ _ => i)
                          (fun i _ => i) (fun i _ => i) (fun i _ => i)
                          (fun _ _ _ => EmptyString) (fun _ => None) (fun _ => EmptyString)
                          [None; Some 10; None; None; None; None; None; None]
                          [Byte.x2a; Byte.x00]
                          (mkOptions 10 F64.zero F64.zero F64.zero "" "" F64.zero) _))).
  reflexivity.
Defined.
